(** * Structured-op matchers of iree-dialects (TransformMatchers.cpp)

    A shallow embedding of
    [llvm-external-projects/iree-dialects/lib/Transforms/TransformMatchers.cpp].

    The payload IR (MLIR operations, values, uses) is a read-only graph that
    the matchers query through a fixed set of accessors; it is modelled by
    the record [IR], one field per MLIR accessor the source calls.  The
    mutable state of the matchers (the [captured] slot of every matcher
    object and the caller-owned [int64_t] capture cells that
    [CaptureStaticValue] references) lives in an explicit [Store].
    Predicates are closures, as in the source ([std::function]); they run in
    a small state-and-failure monad [M]. *)

From stdpp Require Import gmap strings list.
From Stdlib Require Import ZArith Lia.

Open Scope Z_scope.

(** ** The payload IR, as seen through the accessors the source uses *)

(** [Operation *] (never null here; a nullable pointer is an [option]). *)
Definition Operation := nat.
(** [Block *]. *)
Definition Block := nat.

(** [mlir::Value]: the result of an operation or a block argument. *)
Inductive Value :=
| OpResult (owner : Operation) (resultNumber : nat)
| BlockArgument (block : Block) (argNumber : nat).

(** [OpOperand *]: operand slot [operandNumber] of [getOwner]. *)
Record OpOperand := mkOpOperand { getOwner : Operation; getOperandNumber : nat }.

#[global] Instance Value_eq_dec : EqDecision Value.
Proof. solve_decision. Defined.
#[global] Instance OpOperand_eq_dec : EqDecision OpOperand.
Proof. solve_decision. Defined.

Inductive IteratorType := parallel | reduction.
Inductive ShapeKind := Static | Dynamic.

#[global] Instance IteratorType_eq_dec : EqDecision IteratorType.
Proof. solve_decision. Defined.
#[global] Instance ShapeKind_eq_dec : EqDecision ShapeKind.
Proof. solve_decision. Defined.

(** The operation classes the source distinguishes with [isa]/[dyn_cast]. *)
Inductive OpClass :=
| LinalgFillOp          (* linalg::FillOp, a LinalgOp *)
| LinalgGenericOp       (* linalg::GenericOp, a LinalgOp *)
| LinalgOtherOp         (* any other op implementing LinalgOp *)
| ExtractSliceOp        (* tensor::ExtractSliceOp *)
| ForeachThreadOp       (* scf::ForeachThreadOp *)
| FuncOp                (* func::FuncOp *)
| OtherOp.

#[global] Instance OpClass_eq_dec : EqDecision OpClass.
Proof. solve_decision. Defined.

Record IR := mkIR {
  (* class of an operation *)
  opClass : Operation -> OpClass;
  (* linalg::LinalgOp interface *)
  getIteratorTypesArray : Operation -> list IteratorType;
  getStaticLoopRanges : Operation -> list Z;
  getDpsInputOperands : Operation -> list OpOperand;
  getDpsInitOperands : Operation -> list OpOperand;
  (* getMatchingIndexingMap(operand).isPermutation() *)
  isPermutation : OpOperand -> bool;
  (* getMatchingIndexingMap(operand).isProjectedPermutation() *)
  isProjectedPermutation : OpOperand -> bool;
  (* matchReduction(getRegionOutputArgs(), position, combinerOps):
     [Some combinerOps] when it returns a non-null value *)
  matchReduction : Operation -> Z -> option (list Operation);
  (* OpOperand::get() *)
  get : OpOperand -> Value;
  (* bit width of the element type when the value's type is a ShapedType
     whose element type is an integer or a float *)
  getIntOrFloatBitWidth : Value -> option Z;
  (* Operation::getNumResults() *)
  getNumResults : Operation -> Z;
  (* Value::getUses(), in use-list order *)
  getUses : Value -> list OpOperand;
  (* Block::getParentOp(), null for a detached block *)
  getParentOp : Block -> option Operation;
  (* scf::ForeachThreadOp *)
  getOutputBlockArguments : Operation -> list Value;
  (* getTiedOpOperand(bbArg); [None] when its assertion fails *)
  getTiedOpOperand : Operation -> Value -> option OpOperand;
  (* tensor::ExtractSliceOp::getSource() *)
  getSource : Operation -> Value;
  (* the operations visited by Operation::walk, the root included *)
  walk : Operation -> list Operation;
  (* whether the operation implements TilingInterface *)
  isTilingInterface : Operation -> bool;
  (* Operation::getParentOfType<func::FuncOp>() *)
  getParentOfTypeFuncOp : Operation -> option Operation
}.

(** [dyn_cast<linalg::LinalgOp>(op)] succeeds on these classes. *)
Definition isLinalgClass (c : OpClass) : bool :=
  match c with
  | LinalgFillOp | LinalgGenericOp | LinalgOtherOp => true
  | _ => false
  end.

(** [Value::getDefiningOp()]: null for a block argument. *)
Definition getDefiningOp (v : Value) : option Operation :=
  match v with
  | OpResult o _ => Some o
  | BlockArgument _ _ => None
  end.

(** ** Machine integers *)

Definition INT64_MIN : Z := - 2 ^ 63.
Definition INT64_MAX : Z := 2 ^ 63 - 1.

(** Conversion of a 64-bit unsigned result back to [int64_t]
    (two's complement). *)
Definition toInt64 (z : Z) : Z := (z + 2 ^ 63) mod 2 ^ 64 - 2 ^ 63.

(** [size_t + int64_t]: the signed operand is converted to unsigned, the sum
    wraps modulo 2^64, and the assignment to [int64_t] reinterprets it. *)
Definition addSizeInt64 (size : nat) (d : Z) : Z :=
  toInt64 ((Z.of_nat size + d mod 2 ^ 64) mod 2 ^ 64).

(** [v[i]] on a SmallVector / ArrayRef with an [int64_t] index: the index is
    converted to [size_t], so a negative index is out of bounds like one that
    is too large.  [None] stands for the out-of-bounds access. *)
Definition at_index {A : Type} (l : list A) (i : Z) : option A :=
  if i <? 0 then None else l !! Z.to_nat i.

(** ** Matcher state *)

(** Identity (address) of a matcher object. *)
Definition MatcherId := nat.
(** Identity (address) of a caller-owned [int64_t] capture cell, by name. *)
Definition Cell := string.

Record Store := mkStore {
  capturedOps : gmap nat Operation;   (* [captured] of each matcher; absent = nullptr *)
  cells : gmap string Z               (* value of each capture cell *)
}.

Definition emptyStore : Store := mkStore ∅ ∅.

(** [CapturingOpMatcher::getCaptured()]. *)
Definition getCaptured (m : MatcherId) (s : Store) : option Operation :=
  capturedOps s !! m.

Definition setCaptured (m : MatcherId) (op : Operation) (s : Store) : Store :=
  mkStore (<[m := op]> (capturedOps s)) (cells s).

Definition writeCell (c : Cell) (v : Z) (s : Store) : Store :=
  mkStore (capturedOps s) (<[c := v]> (cells s)).

Definition readCell (c : Cell) (s : Store) : option Z := cells s !! c.

(** Outcome of running a piece of matcher code on a store. *)
Inductive Res (A : Type) :=
| Ok (a : A) (s : Store)   (* normal return *)
| Fault                    (* failed assertion / out-of-bounds access / UB *)
| Diverge.                 (* ran out of fuel: the loop did not exit *)
Arguments Ok {A} a s.
Arguments Fault {A}.
Arguments Diverge {A}.

Definition M (A : Type) : Type := Store -> Res A.

Definition ret {A} (a : A) : M A := fun s => Ok a s.
Definition fault {A} : M A := fun _ => Fault.
Definition bind {A B} (m : M A) (k : A -> M B) : M B :=
  fun s => match m s with
           | Ok a s' => k a s'
           | Fault => Fault
           | Diverge => Diverge
           end.

Notation "'let*' x ':=' e 'in' k" := (bind e (fun x => k))
  (at level 10, x name, e at level 100, k at level 200).

(** Access that faults when out of bounds. *)
Definition index {A} (l : list A) (i : Z) : M A :=
  match at_index l i with
  | Some a => ret a
  | None => fault
  end.

(** ** Matchers *)

(** [PredicateFn = std::function<bool(linalg::LinalgOp)>]; the argument is an
    operation that passed [dyn_cast<linalg::LinalgOp>]. *)
Definition PredicateFn : Type := Operation -> M bool.

Record StructuredOpMatcher := mkMatcher {
  matcherId : MatcherId;                        (* address of the object *)
  predicates : list PredicateFn;
  nestedCapturingMatchers : list MatcherId
}.

(** [predicates.push_back(fn)]. *)
Definition push_back (m : StructuredOpMatcher) (fn : PredicateFn) : StructuredOpMatcher :=
  mkMatcher (matcherId m) (predicates m ++ [fn]) (nestedCapturingMatchers m).

(** [llvm::all_of(predicates, fn -> fn(linalgOp))]: left to right, stops at
    the first predicate that returns false. *)
Fixpoint all_of (fns : list PredicateFn) (linalgOp : Operation) : M bool :=
  match fns with
  | [] => ret true
  | fn :: rest =>
      let* result := fn linalgOp in
      if result then all_of rest linalgOp else ret false
  end.

(** [llvm::any_of(users, matcher)]: stops at the first user that matches. *)
Fixpoint any_of (matcher : Operation -> M bool) (users : list Operation) : M bool :=
  match users with
  | [] => ret false
  | user :: rest =>
      let* result := matcher user in
      if result then ret true else any_of matcher rest
  end.

(** Result of one of the two subset traversals. *)
Inductive Traversal :=
| Returns (op : Operation)
| Asserts                   (* a failed assertion *)
| Loops.                    (* the [do ... while (true)] did not exit *)

Definition liftTraversal (t : Traversal) : M Operation :=
  fun s => match t with
           | Returns op => Ok op s
           | Asserts => Fault
           | Loops => Diverge
           end.

Section Matchers.

Variable ir : IR.
(** [ShapedType::kDynamic], the marker of a dynamic size. *)
Variable kDynamic : Z.

Definition isDynamic (size : Z) : bool := size =? kDynamic.

Definition getNumLoops (op : Operation) : Z :=
  Z.of_nat (length (getIteratorTypesArray ir op)).
Definition getNumDpsInputs (op : Operation) : Z :=
  Z.of_nat (length (getDpsInputOperands ir op)).
Definition getNumDpsInits (op : Operation) : Z :=
  Z.of_nat (length (getDpsInitOperands ir op)).
(** [getDpsInputOperand(i)] / [getDpsInitOperand(i)] assert that [i] is in
    range. *)
Definition getDpsInputOperand (op : Operation) (i : Z) : M OpOperand :=
  index (getDpsInputOperands ir op) i.
Definition getDpsInitOperand (op : Operation) (i : Z) : M OpOperand :=
  index (getDpsInitOperands ir op) i.
(** [op->getResult(i)] asserts that [i] is in range. *)
Definition getResult (op : Operation) (i : Z) : M Value :=
  if (0 <=? i) && (i <? getNumResults ir op) then ret (OpResult op (Z.to_nat i)) else fault.

(** *** StructuredOpMatcher::match *)

Definition match_ (m : StructuredOpMatcher) (op : Operation) : M bool :=
  if isLinalgClass (opClass ir op) then
    let* ok := all_of (predicates m) op in
    if ok then (fun s => Ok true (setCaptured (matcherId m) op s))
    else ret false
  else ret false.

(** *** Constraints on op rank and dims *)

Definition rank_NumGreaterEqualTo_fn (minRank : Z) : PredicateFn :=
  fun linalgOp => ret (minRank <=? getNumLoops linalgOp).
Definition rank_NumGreaterEqualTo (m : StructuredOpMatcher) (minRank : Z) :=
  push_back m (rank_NumGreaterEqualTo_fn minRank).

Definition rank_NumLowerEqualTo_fn (maxRank : Z) : PredicateFn :=
  fun linalgOp => ret (getNumLoops linalgOp <=? maxRank).
Definition rank_NumLowerEqualTo (m : StructuredOpMatcher) (maxRank : Z) :=
  push_back m (rank_NumLowerEqualTo_fn maxRank).

(** [dim(SmallVector<int64_t> &&dimensions, ShapeKind kind)] *)
Fixpoint dim_ShapeKind_loop (shape : list Z) (kind : ShapeKind) (dimensions : list Z) : M bool :=
  match dimensions with
  | [] => ret true
  | dimension :: rest =>
      let transformedDimension :=
        if 0 <=? dimension then dimension else addSizeInt64 (length shape) dimension in
      if (transformedDimension <? 0) || (Z.of_nat (length shape) <=? transformedDimension)
      then ret false
      else
        let* size := index shape transformedDimension in
        if xorb (isDynamic size) (bool_decide (kind = Static))
        then dim_ShapeKind_loop shape kind rest
        else ret false
  end.
Definition dim_ShapeKind_fn (dimensions : list Z) (kind : ShapeKind) : PredicateFn :=
  fun linalgOp => dim_ShapeKind_loop (getStaticLoopRanges ir linalgOp) kind dimensions.
Definition dim_ShapeKind (m : StructuredOpMatcher) (dimensions : list Z) (kind : ShapeKind) :=
  push_back m (dim_ShapeKind_fn dimensions kind).

(** [dim(AllDims, ShapeKind kind)] *)
Definition dim_AllDims_ShapeKind_fn (kind : ShapeKind) : PredicateFn :=
  fun linalgOp =>
    ret (forallb (fun dimension => xorb (isDynamic dimension) (bool_decide (kind = Static)))
                 (getStaticLoopRanges ir linalgOp)).
Definition dim_AllDims_ShapeKind (m : StructuredOpMatcher) (kind : ShapeKind) :=
  push_back m (dim_AllDims_ShapeKind_fn kind).

(** [dim(SmallVector<int64_t> &&dimensions, utils::IteratorType kind)] *)
Fixpoint dim_IteratorType_loop (linalgOp : Operation) (rank : Z) (kind : IteratorType)
    (dimensions : list Z) : M bool :=
  match dimensions with
  | [] => ret true
  | dimension :: rest =>
      let transformedDimension := if 0 <=? dimension then dimension else rank + dimension in
      if (transformedDimension <? 0) || (rank <=? transformedDimension)
      then ret false
      else
        let* iteratorKind := index (getIteratorTypesArray ir linalgOp) transformedDimension in
        if bool_decide (iteratorKind = kind)
        then dim_IteratorType_loop linalgOp rank kind rest
        else ret false
  end.
Definition dim_IteratorType_fn (dimensions : list Z) (kind : IteratorType) : PredicateFn :=
  fun linalgOp => dim_IteratorType_loop linalgOp (getNumLoops linalgOp) kind dimensions.
Definition dim_IteratorType (m : StructuredOpMatcher) (dimensions : list Z) (kind : IteratorType) :=
  push_back m (dim_IteratorType_fn dimensions kind).

(** [dim(AllDimsExcept &&dims, utils::IteratorType kind)].  The
    [SmallDenseSet<int64_t>] of excluded dimensions is a finite set of
    integers. *)
Definition excludedDimsOf (rank : Z) (excluded : list Z) : gset Z :=
  foldl (fun acc dim => {[ if 0 <=? dim then dim else rank + dim ]} ∪ acc) ∅ excluded.

Fixpoint dim_AllDimsExcept_loop (excludedDims : gset Z) (kind : IteratorType)
    (index : nat) (types : list IteratorType) : bool :=
  match types with
  | [] => true
  | type :: rest =>
      if bool_decide (Z.of_nat index ∈ excludedDims)
      then dim_AllDimsExcept_loop excludedDims kind (S index) rest
      else if bool_decide (type = kind)
      then dim_AllDimsExcept_loop excludedDims kind (S index) rest
      else false
  end.
Definition dim_AllDimsExcept_IteratorType_fn (excluded : list Z) (kind : IteratorType) : PredicateFn :=
  fun linalgOp =>
    let rank := getNumLoops linalgOp in
    let excludedDims := excludedDimsOf rank excluded in
    ret (dim_AllDimsExcept_loop excludedDims kind 0%nat (getIteratorTypesArray ir linalgOp)).
Definition dim_AllDimsExcept_IteratorType (m : StructuredOpMatcher) (excluded : list Z)
    (kind : IteratorType) :=
  push_back m (dim_AllDimsExcept_IteratorType_fn excluded kind).

(** [dim(AllDims, utils::IteratorType kind)] is [dim(AllDimsExcept({}), kind)]. *)
Definition dim_AllDims_IteratorType (m : StructuredOpMatcher) (kind : IteratorType) :=
  dim_AllDimsExcept_IteratorType m [] kind.

(** [dim(int64_t dimension, DivisibleBy divisibleBy)] *)
Definition dim_DivisibleBy_fn (dimension : Z) (divisibleBy : Z) : PredicateFn :=
  fun linalgOp =>
    let rank := getNumLoops linalgOp in
    let transformedDimension := if 0 <=? dimension then dimension else rank + dimension in
    if rank <=? transformedDimension then ret false
    else
      let* size := index (getStaticLoopRanges ir linalgOp) transformedDimension in
      if isDynamic size then ret false
      else if (divisibleBy =? 0) || ((size =? INT64_MIN) && (divisibleBy =? -1)) then fault
      else ret (Z.rem size divisibleBy =? 0).
Definition dim_DivisibleBy (m : StructuredOpMatcher) (dimension divisibleBy : Z) :=
  push_back m (dim_DivisibleBy_fn dimension divisibleBy).

(** *** Capture directives *)

(** [rank(CaptureStaticValue<int64_t> capture)] *)
Definition rank_CaptureStaticValue_fn (capture : Cell) : PredicateFn :=
  fun linalgOp s => Ok true (writeCell capture (getNumLoops linalgOp) s).
Definition rank_CaptureStaticValue (m : StructuredOpMatcher) (capture : Cell) :=
  push_back m (rank_CaptureStaticValue_fn capture).

(** [dim(int64_t dimension, CaptureStaticValue<int64_t> capture)] *)
Definition dim_CaptureStaticValue_fn (dimension : Z) (capture : Cell) : PredicateFn :=
  fun linalgOp =>
    let rank := getNumLoops linalgOp in
    let transformedDimension := if 0 <=? dimension then dimension else rank + dimension in
    if rank <=? transformedDimension then ret false
    else
      let* size := index (getStaticLoopRanges ir linalgOp) transformedDimension in
      fun s => Ok true (writeCell capture size s).
Definition dim_CaptureStaticValue (m : StructuredOpMatcher) (dimension : Z) (capture : Cell) :=
  push_back m (dim_CaptureStaticValue_fn dimension capture).

(** *** Constraints on input operands *)

(** The lambda pushed by [addInputMatcher(position, matcher, optional)]. *)
Definition addInputMatcher_fn (position : Z) (matcher : Operation -> M bool)
    (optional : bool) : PredicateFn :=
  fun linalgOp =>
    let transformedPosition :=
      if 0 <=? position then position else getNumDpsInputs linalgOp + position in
    if getNumDpsInputs linalgOp <=? transformedPosition then ret false
    else
      let* operand := getDpsInputOperand linalgOp transformedPosition in
      match getDefiningOp (get ir operand) with
      | None => ret optional
      | Some definingOp =>
          (* We MUST run the matcher at this point, even if the match is
             optional, to allow for capture. *)
          let* matched := matcher definingOp in
          if matched then ret true else ret optional
      end.
Definition addInputMatcher (m : StructuredOpMatcher) (position : Z)
    (matcher : Operation -> M bool) (optional : bool) :=
  push_back m (addInputMatcher_fn position matcher optional).

(** [input(AllOperands, IsPermutation)] *)
Definition input_AllOperands_IsPermutation_fn : PredicateFn :=
  fun linalgOp => ret (forallb (isPermutation ir) (getDpsInputOperands ir linalgOp)).
Definition input_AllOperands_IsPermutation (m : StructuredOpMatcher) :=
  push_back m input_AllOperands_IsPermutation_fn.

(** [input(AllOperands, IsProjectedPermutation)] *)
Definition input_AllOperands_IsProjectedPermutation_fn : PredicateFn :=
  fun linalgOp => ret (forallb (isProjectedPermutation ir) (getDpsInputOperands ir linalgOp)).
Definition input_AllOperands_IsProjectedPermutation (m : StructuredOpMatcher) :=
  push_back m input_AllOperands_IsProjectedPermutation_fn.

(** [input(NumEqualsTo num)] *)
Definition input_NumEqualsTo_fn (num : Z) : PredicateFn :=
  fun linalgOp => ret (getNumDpsInputs linalgOp =? num).
Definition input_NumEqualsTo (m : StructuredOpMatcher) (num : Z) :=
  push_back m (input_NumEqualsTo_fn num).

(** *** Subset traversals

    Both are [do { ... } while (true)] loops; [fuel] bounds the number of
    iterations of the [do] loop the model follows, and [Loops] is the answer
    when it is used up. *)

Fixpoint traverseSubsetsBackwards (fuel : nat) (val : Value) : Traversal :=
  match fuel with
  | O => Loops
  | S fuel' =>
      match val with
      | BlockArgument block _ =>
          (* no defining op: a block argument *)
          match getParentOp ir block with
          | None => Asserts                      (* assert(blockOp && "detached block") *)
          | Some blockOp =>
              if bool_decide (opClass ir blockOp = ForeachThreadOp) then
                match getTiedOpOperand ir blockOp val with
                | None => Asserts
                | Some operand => traverseSubsetsBackwards fuel' (get ir operand)
                end
              else Returns blockOp
          end
      | OpResult op _ =>
          if bool_decide (opClass ir op = ExtractSliceOp)
          then traverseSubsetsBackwards fuel' (getSource ir op)
          else Returns op
      end
  end.

(** [llvm::find_if(range, bbarg -> loop.getTiedOpOperand(bbarg) != &use)];
    the outer [None] is a failed assertion of [getTiedOpOperand], the inner
    [None] is [range.end()]. *)
Fixpoint find_if_not_tied (loop : Operation) (use : OpOperand) (range : list Value)
    : option (option Value) :=
  match range with
  | [] => Some None
  | bbarg :: rest =>
      match getTiedOpOperand ir loop bbarg with
      | None => None
      | Some tied =>
          if bool_decide (tied ≠ use) then Some (Some bbarg)
          else find_if_not_tied loop use rest
      end
  end.

(** How the [for (OpOperand &use : val.getUses())] loop is left. *)
Inductive ForExit :=
| FallsThrough (val : Value)     (* the uses are exhausted; [val] as last assigned *)
| Return (t : Traversal).

(** The body of the [for] loop over the uses of the value the loop was
    entered with.  [continue] goes on with the next use of that value, with
    [val] reassigned. *)
Fixpoint forUses (uses : list OpOperand) (val : Value) : ForExit :=
  match uses with
  | [] => FallsThrough val
  | use :: rest =>
      let user := getOwner use in
      if bool_decide (opClass ir user = ForeachThreadOp) then
        match find_if_not_tied user use (getOutputBlockArguments ir user) with
        | None => Return Asserts
        | Some None => Return (Returns user)
        | Some (Some it) => forUses rest it
        end
      else if bool_decide (opClass ir user = ExtractSliceOp) then
        forUses rest (OpResult user 0%nat)
      else Return (Returns user)
  end.

Fixpoint traverseSubsetsForwardAnyUse (fuel : nat) (val : Value) : Traversal :=
  match fuel with
  | O => Loops
  | S fuel' =>
      match forUses (getUses ir val) val with
      | Return t => t
      | FallsThrough val' => traverseSubsetsForwardAnyUse fuel' val'
      end
  end.

(** [input(int64_t position, SubsetOf subset)]; [subset] is the nested
    matcher [subset.matcher]. *)
Definition input_SubsetOf_fn (fuel : nat) (position : Z) (subset : StructuredOpMatcher)
    : PredicateFn :=
  fun linalgOp =>
    let transformedPosition :=
      if 0 <=? position then position else getNumDpsInputs linalgOp + position in
    if getNumDpsInputs linalgOp <=? transformedPosition then ret false
    else
      let* operand := getDpsInputOperand linalgOp transformedPosition in
      let* producer := liftTraversal (traverseSubsetsBackwards fuel (get ir operand)) in
      match_ subset producer.

(** *** Constraints on output operands *)

(** The lambda pushed by [addOutputMatcher(position, matcher, optional)]. *)
Definition addOutputMatcher_fn (position : Z) (matcher : Operation -> M bool)
    (optional : bool) : PredicateFn :=
  fun linalgOp =>
    let transformedPosition :=
      if 0 <=? position then position else getNumDpsInits linalgOp + position in
    if getNumDpsInits linalgOp <=? transformedPosition then ret false
    else
      let* operand := getDpsInitOperand linalgOp transformedPosition in
      match getDefiningOp (get ir operand) with
      | None => ret optional
      | Some definingOp =>
          let* matched := matcher definingOp in
          if matched then ret true else ret optional
      end.
Definition addOutputMatcher (m : StructuredOpMatcher) (position : Z)
    (matcher : Operation -> M bool) (optional : bool) :=
  push_back m (addOutputMatcher_fn position matcher optional).

(** [output(AllOperands, IsPermutation)] *)
Definition output_AllOperands_IsPermutation_fn : PredicateFn :=
  fun linalgOp => ret (forallb (isPermutation ir) (getDpsInitOperands ir linalgOp)).
Definition output_AllOperands_IsPermutation (m : StructuredOpMatcher) :=
  push_back m output_AllOperands_IsPermutation_fn.

(** [output(AllOperands, IsProjectedPermutation)] *)
Definition output_AllOperands_IsProjectedPermutation_fn : PredicateFn :=
  fun linalgOp => ret (forallb (isProjectedPermutation ir) (getDpsInitOperands ir linalgOp)).
Definition output_AllOperands_IsProjectedPermutation (m : StructuredOpMatcher) :=
  push_back m output_AllOperands_IsProjectedPermutation_fn.

(** [output(int64_t position, ElementTypeBitWidth width)] *)
Definition output_ElementTypeBitWidth_fn (position width : Z) : PredicateFn :=
  fun linalgOp =>
    let updatedPosition :=
      if 0 <=? position then position else getNumDpsInits linalgOp + position in
    if getNumDpsInits linalgOp <=? updatedPosition then ret false
    else
      let* operand := getDpsInitOperand linalgOp updatedPosition in
      match getIntOrFloatBitWidth ir (get ir operand) with
      | Some bits => ret (bits =? width)
      | None => ret false
      end.
Definition output_ElementTypeBitWidth (m : StructuredOpMatcher) (position width : Z) :=
  push_back m (output_ElementTypeBitWidth_fn position width).

(** [output(int64_t position, SingleCombinerReduction)] *)
Definition output_SingleCombinerReduction_fn (position : Z) : PredicateFn :=
  fun linalgOp =>
    let updatedPosition :=
      if 0 <=? position then position else getNumDpsInits linalgOp + position in
    if getNumDpsInits linalgOp <=? updatedPosition then ret false
    else if updatedPosition <? 0 then fault      (* iterCarriedArgs[redPos] out of bounds *)
    else
      match matchReduction ir linalgOp updatedPosition with
      | Some [_] => ret true                     (* llvm::hasSingleElement(combinerOps) *)
      | _ => ret false
      end.
Definition output_SingleCombinerReduction (m : StructuredOpMatcher) (position : Z) :=
  push_back m (output_SingleCombinerReduction_fn position).

(** [output(int64_t position, SubsetOf subset)].  As in the source, the
    position is normalized and bounded with [getNumDpsInputs], and the
    operand is then read with [getDpsInitOperand]. *)
Definition output_SubsetOf_fn (fuel : nat) (position : Z) (subset : StructuredOpMatcher)
    : PredicateFn :=
  fun linalgOp =>
    let transformedPosition :=
      if 0 <=? position then position else getNumDpsInputs linalgOp + position in
    if getNumDpsInputs linalgOp <=? transformedPosition then ret false
    else
      let* operand := getDpsInitOperand linalgOp transformedPosition in
      let* producer := liftTraversal (traverseSubsetsBackwards fuel (get ir operand)) in
      match_ subset producer.

(** [output(NumEqualsTo num)] *)
Definition output_NumEqualsTo_fn (num : Z) : PredicateFn :=
  fun linalgOp => ret (getNumDpsInits linalgOp =? num).
Definition output_NumEqualsTo (m : StructuredOpMatcher) (num : Z) :=
  push_back m (output_NumEqualsTo_fn num).

(** *** Constraints on results *)

(** The lambda pushed by [addResultMatcher(position, HasAnyUse, matcher, optional)]. *)
Definition addResultMatcher_fn (position : Z) (matcher : Operation -> M bool)
    (optional : bool) : PredicateFn :=
  fun linalgOp =>
    let transformedPosition :=
      if 0 <=? position then position else getNumResults ir linalgOp + position in
    if getNumResults ir linalgOp <=? transformedPosition then ret false
    else
      let* result := getResult linalgOp transformedPosition in
      let* anyUser := any_of matcher (map getOwner (getUses ir result)) in
      if anyUser then ret true else ret optional.
Definition addResultMatcher (m : StructuredOpMatcher) (position : Z)
    (matcher : Operation -> M bool) (optional : bool) :=
  push_back m (addResultMatcher_fn position matcher optional).

(** [result(int64_t position, HasAnyUse, SubsetOf subset, OptionalMatch optional)] *)
Definition result_HasAnyUse_SubsetOf_fn (fuel : nat) (position : Z)
    (subset : StructuredOpMatcher) (optional : bool) : PredicateFn :=
  fun linalgOp =>
    let transformedPosition :=
      if 0 <=? position then position else getNumResults ir linalgOp + position in
    if getNumResults ir linalgOp <=? transformedPosition then ret false
    else
      let* result := getResult linalgOp transformedPosition in
      let* user := liftTraversal (traverseSubsetsForwardAnyUse fuel result) in
      let* matched := match_ subset user in
      ret (matched || optional).

(** *** Exhaustiveness *)

(** The loop over [matchers] that fills the [SmallPtrSet] [matched]. *)
Fixpoint insertCaptured (matchers : list MatcherId) (s : Store) (matched : gset Operation)
    : gset Operation :=
  match matchers with
  | [] => matched
  | nested :: rest =>
      match getCaptured nested s with
      | Some captured => insertCaptured rest s ({[captured]} ∪ matched)
      | None => insertCaptured rest s matched
      end
  end.

(** [checkAllTilableMatched(parent, linalgOp, matchers)] *)
Definition checkAllTilableMatched (parent : option Operation) (linalgOp : Operation)
    (matchers : list MatcherId) : M bool :=
  fun s =>
    match parent with
    | None => Ok false s
    | Some parentOp =>
        let numTilableOps :=
          Z.of_nat (length (List.filter (isTilingInterface ir) (walk ir parentOp))) in
        let matched := insertCaptured matchers s ∅ in
        (* Don't forget to include the root matcher. *)
        let matched := {[linalgOp]} ∪ matched in
        Ok (numTilableOps =? Z.of_nat (size matched)) s
    end.

(** *** Builders declared in TransformMatchers.h *)

(** Modelled from the spec: the factory [m_StructuredOp()] of the header,
    absent from the sources at hand.  A matcher built without a kind
    allow-list has no predicate yet and no nested matcher. *)
Definition m_StructuredOp (self : MatcherId) : StructuredOpMatcher :=
  mkMatcher self [] [].

(** Modelled from the spec: [m_StructuredOp<OpType>()] of the header.  The
    allow-list of operation kinds is the first test a node must pass;
    [match] itself has no such test, so it is the first predicate. *)
Definition isa_fn (kind : OpClass) : PredicateFn :=
  fun linalgOp => ret (bool_decide (opClass ir linalgOp = kind)).
Definition m_StructuredOp_isa (self : MatcherId) (kind : OpClass) : StructuredOpMatcher :=
  mkMatcher self [isa_fn kind] [].

(** Modelled from the spec: [recordNestedMatcher] of the header.  A predicate
    that embeds a nested matcher registers that matcher and, transitively,
    the matchers it embeds. *)
Definition recordNestedMatcher (m nested : StructuredOpMatcher) : StructuredOpMatcher :=
  mkMatcher (matcherId m) (predicates m)
    (nestedCapturingMatchers m ++ matcherId nested :: nestedCapturingMatchers nested).

(** Modelled from the spec: [dim(int64_t, utils::IteratorType)] of the
    header, the one-element case of the list overload. *)
Definition dim_one_IteratorType (m : StructuredOpMatcher) (dimension : Z) (kind : IteratorType) :=
  dim_IteratorType m [dimension] kind.

(** Modelled from the spec: the overloads of [input], [output] and [result]
    of the header that take a nested matcher; they hand [nested.match] to
    [addInputMatcher], [addOutputMatcher] and [addResultMatcher] and register
    the nested matcher. *)
Definition input_matcher (m : StructuredOpMatcher) (position : Z)
    (nested : StructuredOpMatcher) (optional : bool) :=
  recordNestedMatcher (addInputMatcher m position (match_ nested) optional) nested.
Definition output_matcher (m : StructuredOpMatcher) (position : Z)
    (nested : StructuredOpMatcher) (optional : bool) :=
  recordNestedMatcher (addOutputMatcher m position (match_ nested) optional) nested.
Definition result_HasAnyUse_matcher (m : StructuredOpMatcher) (position : Z)
    (nested : StructuredOpMatcher) (optional : bool) :=
  recordNestedMatcher (addResultMatcher m position (match_ nested) optional) nested.

(** [input(position, SubsetOf)], [output(position, SubsetOf)] and
    [result(position, HasAnyUse, SubsetOf, optional)] push their lambda and
    record the nested matcher. *)
Definition input_SubsetOf (fuel : nat) (m : StructuredOpMatcher) (position : Z)
    (subset : StructuredOpMatcher) :=
  recordNestedMatcher (push_back m (input_SubsetOf_fn fuel position subset)) subset.
Definition output_SubsetOf (fuel : nat) (m : StructuredOpMatcher) (position : Z)
    (subset : StructuredOpMatcher) :=
  recordNestedMatcher (push_back m (output_SubsetOf_fn fuel position subset)) subset.
Definition result_HasAnyUse_SubsetOf (fuel : nat) (m : StructuredOpMatcher) (position : Z)
    (subset : StructuredOpMatcher) (optional : bool) :=
  recordNestedMatcher
    (push_back m (result_HasAnyUse_SubsetOf_fn fuel position subset optional)) subset.

(** Modelled from the spec: [allTilableOpsCaptured<func::FuncOp>()] of the
    header.  The exhaustiveness check runs over the enclosing function, with
    the matcher itself and all its nested matchers as the matcher set. *)
Definition allTilableOpsCaptured_fn (matchers : list MatcherId) : PredicateFn :=
  fun linalgOp =>
    checkAllTilableMatched (getParentOfTypeFuncOp ir linalgOp) linalgOp matchers.
Definition allTilableOpsCaptured_FuncOp (m : StructuredOpMatcher) :=
  push_back m (allTilableOpsCaptured_fn (matcherId m :: nestedCapturingMatchers m)).

(** *** Case-specific matcher builders *)

(** The fields of [MatchedReductionCaptures] that the builder references. *)
Definition reductionRank : Cell := "captures.reductionRank".
Definition reductionDimensionSize : Cell := "captures.reductionDimensionSize".
Definition mostMinorParallelDimensionSize : Cell := "captures.mostMinorParallelDimensionSize".
Definition maybeLeadingRank : Cell := "captures.maybeLeadingRank".
Definition maybeTrailingRank : Cell := "captures.maybeTrailingRank".

(** The four matcher objects the caller passes by reference. *)
Record ReductionMatchers := mkReductionMatchers {
  m_reduction : StructuredOpMatcher;
  m_fill : StructuredOpMatcher;
  m_leading : StructuredOpMatcher;
  m_trailing : StructuredOpMatcher
}.

(** Copy assignment [target = source] of the predicate list and the nested
    list to the object at address [target]. *)
Definition assignTo (target : MatcherId) (source : StructuredOpMatcher) : StructuredOpMatcher :=
  mkMatcher target (predicates source) (nestedCapturingMatchers source).

(** [makeReductionMatcher(reduction, fill, leading, trailing, captures)].
    [OptionalMatch()] is [true].  Every builder call mutates the object it is
    called on: the two [rank] calls on [commonLeadingOrTrailing] accumulate,
    so [trailing] also carries the capture of [maybeLeadingRank]. *)
Definition makeReductionMatcher (reductionId fillId leadingId trailingId : MatcherId)
    : ReductionMatchers :=
  let reduction0 := m_StructuredOp reductionId in
  let reduction0 := rank_NumGreaterEqualTo reduction0 2 in
  let reduction0 := rank_NumLowerEqualTo reduction0 4 in
  let reduction0 := rank_CaptureStaticValue reduction0 reductionRank in
  let reduction0 := dim_one_IteratorType reduction0 (-1) reduction in
  let reduction0 := dim_CaptureStaticValue reduction0 (-2) mostMinorParallelDimensionSize in
  let reduction0 := dim_CaptureStaticValue reduction0 (-1) reductionDimensionSize in
  let reduction0 := dim_AllDimsExcept_IteratorType reduction0 [-1] parallel in
  let reduction0 := input_NumEqualsTo reduction0 1 in
  let reduction0 := input_AllOperands_IsProjectedPermutation reduction0 in
  let reduction0 := output_NumEqualsTo reduction0 1 in
  let reduction0 := output_AllOperands_IsProjectedPermutation reduction0 in
  let reduction0 := output_ElementTypeBitWidth reduction0 0 32 in
  let reduction0 := output_SingleCombinerReduction reduction0 0 in
  let fill := m_StructuredOp_isa fillId LinalgFillOp in
  let reduction0 := output_NumEqualsTo reduction0 1 in
  let reduction0 := output_matcher reduction0 0 fill false in
  (* a local object: no predicate refers to its address *)
  let commonLeadingOrTrailing := m_StructuredOp_isa leadingId LinalgGenericOp in
  let commonLeadingOrTrailing := dim_AllDims_IteratorType commonLeadingOrTrailing parallel in
  let commonLeadingOrTrailing := input_AllOperands_IsProjectedPermutation commonLeadingOrTrailing in
  let commonLeadingOrTrailing := output_AllOperands_IsPermutation commonLeadingOrTrailing in
  let commonLeadingOrTrailing := output_NumEqualsTo commonLeadingOrTrailing 1 in
  let commonLeadingOrTrailing := rank_CaptureStaticValue commonLeadingOrTrailing maybeLeadingRank in
  let leading := assignTo leadingId commonLeadingOrTrailing in
  let reduction0 := input_matcher reduction0 0 leading true in
  let commonLeadingOrTrailing := rank_CaptureStaticValue commonLeadingOrTrailing maybeTrailingRank in
  let trailing := assignTo trailingId commonLeadingOrTrailing in
  let reduction0 := result_HasAnyUse_matcher reduction0 0 trailing true in
  let reduction0 := allTilableOpsCaptured_FuncOp reduction0 in
  mkReductionMatchers reduction0 fill leading trailing.

End Matchers.

(** ** Payload graphs used as concrete inputs *)

(** An IR in which every accessor gives its empty answer; the concrete graphs
    below override the accessors they need. *)
Definition emptyIR : IR :=
  {| opClass := fun _ => OtherOp;
     getIteratorTypesArray := fun _ => [];
     getStaticLoopRanges := fun _ => [];
     getDpsInputOperands := fun _ => [];
     getDpsInitOperands := fun _ => [];
     isPermutation := fun _ => false;
     isProjectedPermutation := fun _ => false;
     matchReduction := fun _ _ => None;
     get := fun operand => BlockArgument 0%nat 0%nat;
     getIntOrFloatBitWidth := fun _ => None;
     getNumResults := fun _ => 0;
     getUses := fun _ => [];
     getParentOp := fun _ => None;
     getOutputBlockArguments := fun _ => [];
     getTiedOpOperand := fun _ _ => None;
     getSource := fun _ => BlockArgument 0%nat 0%nat;
     walk := fun op => [op];
     isTilingInterface := fun _ => false;
     getParentOfTypeFuncOp := fun _ => None |}.

(** The simple reduction:
<<
  func.func @f(%arg0: tensor<128x64xf32>) -> tensor<128xf32> {      // op 0, block 0
    %cst = arith.constant 0.0 : f32                                  // op 1
    %e = tensor.empty() : tensor<128xf32>                            // op 2
    %f = linalg.fill ins(%cst) outs(%e)                              // op 3
    %r = linalg.generic {iterator_types = [parallel, reduction]}
           ins(%arg0) outs(%f) { %s = arith.addf ...                 // op 4; addf is op 5
                                 linalg.yield %s }                   // op 6
    return %r                                                        // op 7
  }
>> *)
Module SimpleReduction.

Definition func : Operation := 0%nat.
Definition cst : Operation := 1%nat.
Definition empty : Operation := 2%nat.
Definition fillOp : Operation := 3%nat.
Definition reductionOp : Operation := 4%nat.
Definition addf : Operation := 5%nat.
Definition yield : Operation := 6%nat.
Definition returnOp : Operation := 7%nat.

Definition ir : IR :=
  {| opClass := fun op =>
       match op with
       | 0%nat => FuncOp
       | 3%nat => LinalgFillOp
       | 4%nat => LinalgGenericOp
       | _ => OtherOp
       end;
     getIteratorTypesArray := fun op =>
       match op with
       | 3%nat => [parallel]
       | 4%nat => [parallel; reduction]
       | _ => []
       end;
     getStaticLoopRanges := fun op =>
       match op with
       | 3%nat => [128]
       | 4%nat => [128; 64]
       | _ => []
       end;
     getDpsInputOperands := fun op =>
       match op with
       | 3%nat => [mkOpOperand 3%nat 0%nat]
       | 4%nat => [mkOpOperand 4%nat 0%nat]
       | _ => []
       end;
     getDpsInitOperands := fun op =>
       match op with
       | 3%nat => [mkOpOperand 3%nat 1%nat]
       | 4%nat => [mkOpOperand 4%nat 1%nat]
       | _ => []
       end;
     isPermutation := fun operand =>
       bool_decide (operand = mkOpOperand 3%nat 1%nat);
     isProjectedPermutation := fun operand =>
       bool_decide (getOwner operand = 3%nat ∨ getOwner operand = 4%nat);
     matchReduction := fun op position =>
       if bool_decide (op = 4%nat ∧ position = 0) then Some [addf] else None;
     get := fun operand =>
       match operand with
       | mkOpOperand 3%nat 0%nat => OpResult cst 0%nat
       | mkOpOperand 3%nat 1%nat => OpResult empty 0%nat
       | mkOpOperand 4%nat 0%nat => BlockArgument 0%nat 0%nat
       | mkOpOperand 4%nat 1%nat => OpResult fillOp 0%nat
       | mkOpOperand 6%nat 0%nat => OpResult addf 0%nat
       | mkOpOperand 7%nat 0%nat => OpResult reductionOp 0%nat
       | _ => BlockArgument 0%nat 0%nat
       end;
     getIntOrFloatBitWidth := fun v =>
       match v with
       | OpResult 1%nat _ => None                  (* a scalar, not a ShapedType *)
       | _ => Some 32
       end;
     getNumResults := fun op =>
       match op with
       | 1%nat | 2%nat | 3%nat | 4%nat | 5%nat => 1
       | _ => 0
       end;
     getUses := fun v =>
       match v with
       | OpResult 1%nat 0%nat => [mkOpOperand 3%nat 0%nat]
       | OpResult 2%nat 0%nat => [mkOpOperand 3%nat 1%nat]
       | OpResult 3%nat 0%nat => [mkOpOperand 4%nat 1%nat]
       | OpResult 4%nat 0%nat => [mkOpOperand 7%nat 0%nat]
       | OpResult 5%nat 0%nat => [mkOpOperand 6%nat 0%nat]
       | BlockArgument 0%nat 0%nat => [mkOpOperand 4%nat 0%nat]
       | _ => []
       end;
     getParentOp := fun block =>
       match block with
       | 0%nat => Some func
       | 1%nat => Some reductionOp
       | _ => None
       end;
     getOutputBlockArguments := fun _ => [];
     getTiedOpOperand := fun _ _ => None;
     getSource := fun _ => BlockArgument 0%nat 0%nat;
     walk := fun op =>
       match op with
       | 0%nat => [func; cst; empty; fillOp; reductionOp; addf; yield; returnOp]
       | 4%nat => [reductionOp; addf; yield]
       | _ => [op]
       end;
     isTilingInterface := fun op =>
       match op with
       | 3%nat | 4%nat => true
       | _ => false
       end;
     getParentOfTypeFuncOp := fun op =>
       match op with
       | 0%nat => None
       | _ => Some func
       end |}.

(** Addresses of the four matcher objects of the caller. *)
Definition reductionId : MatcherId := 0%nat.
Definition fillId : MatcherId := 1%nat.
Definition leadingId : MatcherId := 2%nat.
Definition trailingId : MatcherId := 3%nat.

Definition matchers : ReductionMatchers :=
  makeReductionMatcher ir reductionId fillId leadingId trailingId.

End SimpleReduction.

(** The same function with one more tilable operation (op 8) that no matcher
    of the reduction pattern captures. *)
Module ExtraTilable.

Definition extraOp : Operation := 8%nat.

Definition ir : IR :=
  {| opClass := fun op => if bool_decide (op = extraOp) then LinalgGenericOp
                          else opClass SimpleReduction.ir op;
     getIteratorTypesArray := getIteratorTypesArray SimpleReduction.ir;
     getStaticLoopRanges := getStaticLoopRanges SimpleReduction.ir;
     getDpsInputOperands := getDpsInputOperands SimpleReduction.ir;
     getDpsInitOperands := getDpsInitOperands SimpleReduction.ir;
     isPermutation := isPermutation SimpleReduction.ir;
     isProjectedPermutation := isProjectedPermutation SimpleReduction.ir;
     matchReduction := matchReduction SimpleReduction.ir;
     get := get SimpleReduction.ir;
     getIntOrFloatBitWidth := getIntOrFloatBitWidth SimpleReduction.ir;
     getNumResults := getNumResults SimpleReduction.ir;
     getUses := getUses SimpleReduction.ir;
     getParentOp := getParentOp SimpleReduction.ir;
     getOutputBlockArguments := getOutputBlockArguments SimpleReduction.ir;
     getTiedOpOperand := getTiedOpOperand SimpleReduction.ir;
     getSource := getSource SimpleReduction.ir;
     walk := fun op =>
       if bool_decide (op = SimpleReduction.func)
       then walk SimpleReduction.ir op ++ [extraOp]
       else walk SimpleReduction.ir op;
     isTilingInterface := fun op =>
       bool_decide (op = extraOp) || isTilingInterface SimpleReduction.ir op;
     getParentOfTypeFuncOp := getParentOfTypeFuncOp SimpleReduction.ir |}.

End ExtraTilable.

(** Values handed to [scf.foreach_thread] loops as shared outputs:
<<
  %t = "producer"()                                            // op 1
  scf.foreach_thread (%i) in (%n) shared_outs(%o = %t) {       // op 10, block 10
    "consumer"(%o)                                             // op 11
  }
  %a = "producer"()                                            // op 2
  %b = "producer"()                                            // op 3
  scf.foreach_thread (%j) in (%n)
      shared_outs(%oa = %a, %ob = %b) {                        // op 20, block 20
    "consumer"(%oa)                                            // op 21
    "consumer"(%ob)                                            // op 22
  }
>>
    Operand 0 of a loop is its thread count; operand [k] (k >= 1) is the
    shared output tied to block argument [k]. *)
Module LoopOutputs.

Definition ir : IR :=
  {| opClass := fun op =>
       match op with
       | 10%nat | 20%nat => ForeachThreadOp
       | _ => OtherOp
       end;
     getIteratorTypesArray := fun _ => [];
     getStaticLoopRanges := fun _ => [];
     getDpsInputOperands := fun _ => [];
     getDpsInitOperands := fun _ => [];
     isPermutation := fun _ => false;
     isProjectedPermutation := fun _ => false;
     matchReduction := fun _ _ => None;
     get := fun operand =>
       match operand with
       | mkOpOperand 10%nat 1%nat => OpResult 1%nat 0%nat
       | mkOpOperand 20%nat 1%nat => OpResult 2%nat 0%nat
       | mkOpOperand 20%nat 2%nat => OpResult 3%nat 0%nat
       | mkOpOperand 11%nat 0%nat => BlockArgument 10%nat 1%nat
       | mkOpOperand 21%nat 0%nat => BlockArgument 20%nat 1%nat
       | mkOpOperand 22%nat 0%nat => BlockArgument 20%nat 2%nat
       | _ => BlockArgument 0%nat 0%nat
       end;
     getIntOrFloatBitWidth := fun _ => Some 32;
     getNumResults := fun op =>
       match op with
       | 1%nat | 2%nat | 3%nat => 1
       | 10%nat => 1
       | 20%nat => 2
       | _ => 0
       end;
     getUses := fun v =>
       match v with
       | OpResult 1%nat 0%nat => [mkOpOperand 10%nat 1%nat]
       | OpResult 2%nat 0%nat => [mkOpOperand 20%nat 1%nat]
       | OpResult 3%nat 0%nat => [mkOpOperand 20%nat 2%nat]
       | BlockArgument 10%nat 1%nat => [mkOpOperand 11%nat 0%nat]
       | BlockArgument 20%nat 1%nat => [mkOpOperand 21%nat 0%nat]
       | BlockArgument 20%nat 2%nat => [mkOpOperand 22%nat 0%nat]
       | _ => []
       end;
     getParentOp := fun block =>
       match block with
       | 10%nat => Some 10%nat
       | 20%nat => Some 20%nat
       | _ => None
       end;
     getOutputBlockArguments := fun op =>
       match op with
       | 10%nat => [BlockArgument 10%nat 1%nat]
       | 20%nat => [BlockArgument 20%nat 1%nat; BlockArgument 20%nat 2%nat]
       | _ => []
       end;
     getTiedOpOperand := fun loop bbArg =>
       match bbArg with
       | BlockArgument block (S k) =>
           if bool_decide (block = loop) then Some (mkOpOperand loop (S k)) else None
       | _ => None                       (* a thread index is tied to no operand *)
       end;
     getSource := fun _ => BlockArgument 0%nat 0%nat;
     walk := fun op =>
       match op with
       | 10%nat => [10%nat; 11%nat]
       | 20%nat => [20%nat; 21%nat; 22%nat]
       | _ => [op]
       end;
     isTilingInterface := fun _ => false;
     getParentOfTypeFuncOp := fun _ => None |}.

End LoopOutputs.

(** Structured ops whose number of inputs differs from their number of
    outputs, and one whose result is never used:
<<
  %e = tensor.empty()                                          // op 1
  %f = linalg.fill ins(%cst) outs(%e)                          // op 3
  %g = linalg.generic outs(%f) { ... }                         // op 4: no input, one output;
                                                               //       %g has no use
  %h = linalg.generic ins(%x, %y) outs(%f) { ... }             // op 5: two inputs, one output
  "consumer"(%h)                                               // op 6
>> *)
Module Outputs.

Definition fillOp : Operation := 3%nat.
Definition noInputOp : Operation := 4%nat.
Definition twoInputOp : Operation := 5%nat.

Definition ir : IR :=
  {| opClass := fun op =>
       match op with
       | 3%nat => LinalgFillOp
       | 4%nat | 5%nat => LinalgGenericOp
       | _ => OtherOp
       end;
     getIteratorTypesArray := fun op =>
       match op with
       | 3%nat | 4%nat | 5%nat => [parallel]
       | _ => []
       end;
     getStaticLoopRanges := fun op =>
       match op with
       | 3%nat | 4%nat | 5%nat => [16]
       | _ => []
       end;
     getDpsInputOperands := fun op =>
       match op with
       | 3%nat => [mkOpOperand 3%nat 0%nat]
       | 5%nat => [mkOpOperand 5%nat 0%nat; mkOpOperand 5%nat 1%nat]
       | _ => []
       end;
     getDpsInitOperands := fun op =>
       match op with
       | 3%nat => [mkOpOperand 3%nat 1%nat]
       | 4%nat => [mkOpOperand 4%nat 0%nat]
       | 5%nat => [mkOpOperand 5%nat 2%nat]
       | _ => []
       end;
     isPermutation := fun _ => true;
     isProjectedPermutation := fun _ => true;
     matchReduction := fun _ _ => None;
     get := fun operand =>
       match operand with
       | mkOpOperand 3%nat 1%nat => OpResult 1%nat 0%nat
       | mkOpOperand 4%nat 0%nat => OpResult 3%nat 0%nat
       | mkOpOperand 5%nat 2%nat => OpResult 3%nat 0%nat
       | mkOpOperand 6%nat 0%nat => OpResult 5%nat 0%nat
       | _ => BlockArgument 0%nat 0%nat
       end;
     getIntOrFloatBitWidth := fun _ => Some 32;
     getNumResults := fun op =>
       match op with
       | 1%nat | 3%nat | 4%nat | 5%nat => 1
       | _ => 0
       end;
     getUses := fun v =>
       match v with
       | OpResult 1%nat 0%nat => [mkOpOperand 3%nat 1%nat]
       | OpResult 3%nat 0%nat => [mkOpOperand 4%nat 0%nat; mkOpOperand 5%nat 2%nat]
       | OpResult 5%nat 0%nat => [mkOpOperand 6%nat 0%nat]
       | BlockArgument 0%nat 0%nat => [mkOpOperand 3%nat 0%nat; mkOpOperand 5%nat 0%nat; mkOpOperand 5%nat 1%nat]
       | _ => []
       end;
     getParentOp := fun _ => Some 0%nat;
     getOutputBlockArguments := fun _ => [];
     getTiedOpOperand := fun _ _ => None;
     getSource := fun _ => BlockArgument 0%nat 0%nat;
     walk := fun op => [op];
     isTilingInterface := fun op =>
       match op with
       | 3%nat | 4%nat | 5%nat => true
       | _ => false
       end;
     getParentOfTypeFuncOp := fun _ => Some 0%nat |}.

(** A nested matcher for the fill op, as [original_fill] in
    [makeSplitReductionMatcher]. *)
Definition original_fill : StructuredOpMatcher := m_StructuredOp_isa ir 1%nat LinalgFillOp.
(** A nested matcher for a trailing generic op. *)
Definition trailing : StructuredOpMatcher := m_StructuredOp_isa ir 2%nat LinalgGenericOp.

End Outputs.

(** A value with a slice and a direct user:
<<
  %v = "producer"()                                            // op 1
  %s = tensor.extract_slice %v                                 // op 2
  "consumer"(%v)                                               // op 3
  "consumer"(%s)                                               // op 4
>>
    The uses of [%v] are, in order, the slice and op 3. *)
Module Slices.

Definition ir : IR :=
  {| opClass := fun op =>
       match op with
       | 2%nat => ExtractSliceOp
       | _ => OtherOp
       end;
     getIteratorTypesArray := fun _ => [];
     getStaticLoopRanges := fun _ => [];
     getDpsInputOperands := fun _ => [];
     getDpsInitOperands := fun _ => [];
     isPermutation := fun _ => false;
     isProjectedPermutation := fun _ => false;
     matchReduction := fun _ _ => None;
     get := fun operand =>
       match operand with
       | mkOpOperand 2%nat 0%nat => OpResult 1%nat 0%nat
       | mkOpOperand 3%nat 0%nat => OpResult 1%nat 0%nat
       | mkOpOperand 4%nat 0%nat => OpResult 2%nat 0%nat
       | _ => BlockArgument 0%nat 0%nat
       end;
     getIntOrFloatBitWidth := fun _ => Some 32;
     getNumResults := fun op =>
       match op with
       | 1%nat | 2%nat => 1
       | _ => 0
       end;
     getUses := fun v =>
       match v with
       | OpResult 1%nat 0%nat => [mkOpOperand 2%nat 0%nat; mkOpOperand 3%nat 0%nat]
       | OpResult 2%nat 0%nat => [mkOpOperand 4%nat 0%nat]
       | _ => []
       end;
     getParentOp := fun _ => Some 0%nat;
     getOutputBlockArguments := fun _ => [];
     getTiedOpOperand := fun _ _ => None;
     getSource := fun op =>
       match op with
       | 2%nat => OpResult 1%nat 0%nat
       | _ => BlockArgument 0%nat 0%nat
       end;
     walk := fun op => [op];
     isTilingInterface := fun _ => false;
     getParentOfTypeFuncOp := fun _ => Some 0%nat |}.

End Slices.

(** A split reduction:
<<
  func.func @f(%arg0: tensor<128x64xf32>) -> tensor<128xf32> {      // op 0, block 0
    %pf = linalg.fill ... : tensor<128x2xf32>                        // op 1
    %p = linalg.generic {iterator_types = [parallel, parallel, reduction]}
           ins(%arg0) outs(%pf) { ... }                              // op 2
    %of = linalg.fill ... : tensor<128xf32>                          // op 3
    %s = tensor.extract_slice %p                                     // op 4
    %c = linalg.generic {iterator_types = [parallel, reduction]}
           ins(%s) outs(%of) { %a = arith.addf ... }                 // op 5; addf is op 6
    return %c                                                        // op 7
  }
>> *)
Module SplitGraph.

Definition func : Operation := 0%nat.
Definition parallelFillOp : Operation := 1%nat.
Definition parallelOp : Operation := 2%nat.
Definition originalFillOp : Operation := 3%nat.
Definition sliceOp : Operation := 4%nat.
Definition combinerOp : Operation := 5%nat.
Definition addf : Operation := 6%nat.
Definition returnOp : Operation := 7%nat.

Definition ir : IR :=
  {| opClass := fun op =>
       match op with
       | 0%nat => FuncOp
       | 1%nat | 3%nat => LinalgFillOp
       | 2%nat | 5%nat => LinalgGenericOp
       | 4%nat => ExtractSliceOp
       | _ => OtherOp
       end;
     getIteratorTypesArray := fun op =>
       match op with
       | 1%nat => [parallel; parallel]
       | 2%nat => [parallel; parallel; reduction]
       | 3%nat => [parallel]
       | 5%nat => [parallel; reduction]
       | _ => []
       end;
     getStaticLoopRanges := fun op =>
       match op with
       | 1%nat => [128; 2]
       | 2%nat => [128; 2; 32]
       | 3%nat => [128]
       | 5%nat => [128; 2]
       | _ => []
       end;
     getDpsInputOperands := fun op =>
       match op with
       | 2%nat => [mkOpOperand 2%nat 0%nat]
       | 5%nat => [mkOpOperand 5%nat 0%nat]
       | _ => []
       end;
     getDpsInitOperands := fun op =>
       match op with
       | 1%nat => [mkOpOperand 1%nat 0%nat]
       | 2%nat => [mkOpOperand 2%nat 1%nat]
       | 3%nat => [mkOpOperand 3%nat 0%nat]
       | 5%nat => [mkOpOperand 5%nat 1%nat]
       | _ => []
       end;
     isPermutation := fun operand =>
       bool_decide (operand = mkOpOperand 2%nat 0%nat \/ operand = mkOpOperand 5%nat 0%nat);
     isProjectedPermutation := fun _ => true;
     matchReduction := fun op position =>
       if bool_decide (op = 5%nat /\ position = 0) then Some [addf] else None;
     get := fun operand =>
       match operand with
       | mkOpOperand 2%nat 0%nat => BlockArgument 0%nat 0%nat
       | mkOpOperand 2%nat 1%nat => OpResult 1%nat 0%nat
       | mkOpOperand 4%nat 0%nat => OpResult 2%nat 0%nat
       | mkOpOperand 5%nat 0%nat => OpResult 4%nat 0%nat
       | mkOpOperand 5%nat 1%nat => OpResult 3%nat 0%nat
       | mkOpOperand 7%nat 0%nat => OpResult 5%nat 0%nat
       | _ => BlockArgument 0%nat 1%nat
       end;
     getIntOrFloatBitWidth := fun _ => Some 32;
     getNumResults := fun op =>
       match op with
       | 1%nat | 2%nat | 3%nat | 4%nat | 5%nat | 6%nat => 1
       | _ => 0
       end;
     getUses := fun v =>
       match v with
       | OpResult 1%nat 0%nat => [mkOpOperand 2%nat 1%nat]
       | OpResult 2%nat 0%nat => [mkOpOperand 4%nat 0%nat]
       | OpResult 3%nat 0%nat => [mkOpOperand 5%nat 1%nat]
       | OpResult 4%nat 0%nat => [mkOpOperand 5%nat 0%nat]
       | OpResult 5%nat 0%nat => [mkOpOperand 7%nat 0%nat]
       | BlockArgument 0%nat 0%nat => [mkOpOperand 2%nat 0%nat]
       | _ => []
       end;
     getParentOp := fun block =>
       match block with
       | 0%nat => Some func
       | _ => None
       end;
     getOutputBlockArguments := fun _ => [];
     getTiedOpOperand := fun _ _ => None;
     getSource := fun op =>
       match op with
       | 4%nat => OpResult 2%nat 0%nat
       | _ => BlockArgument 0%nat 1%nat
       end;
     walk := fun op =>
       match op with
       | 0%nat => [func; parallelFillOp; parallelOp; originalFillOp; sliceOp; combinerOp;
                   addf; returnOp]
       | _ => [op]
       end;
     isTilingInterface := fun op =>
       match op with
       | 1%nat | 2%nat | 3%nat | 5%nat => true
       | _ => false
       end;
     getParentOfTypeFuncOp := fun op =>
       match op with
       | 0%nat => None
       | _ => Some func
       end |}.

End SplitGraph.

(** ** MatchCallbackResult *)

(** Modelled from the spec: the two members of [MatchCallbackResult]
    declared in the header: a flat sequence of matched nodes and the
    sequence of group lengths. *)
Record MatchCallbackResult := mkMatchCallbackResult {
  payloadOperations : list Operation;
  payloadGroupLengths : list Z
}.

(** The loop [for (i = 0; i < position; ++i) start += payloadGroupLengths[i]]
    on the first [position] lengths; [None] is a signed overflow of
    [start]. *)
Fixpoint sumGroupLengths (lengths : list Z) (start : Z) : option Z :=
  match lengths with
  | [] => Some start
  | len :: rest =>
      let start' := start + len in
      if (INT64_MIN <=? start') && (start' <=? INT64_MAX)
      then sumGroupLengths rest start'
      else None
  end.

(** [ArrayRef::slice(N, M)], which asserts [N + M <= size()]; [None] also
    stands for the view outside of the array that a negative argument
    gives. *)
Definition slice {A : Type} (l : list A) (N M : Z) : option (list A) :=
  if (0 <=? N) && (0 <=? M) && (N + M <=? Z.of_nat (length l))
  then Some (take (Z.to_nat M) (drop (Z.to_nat N) l))
  else None.

(** [MatchCallbackResult::getPayloadGroup(position)]; [None] is a failed
    assertion. *)
Definition getPayloadGroup (r : MatchCallbackResult) (position : nat) : option (list Operation) :=
  match payloadGroupLengths r !! position with
  | None => None                   (* assert(position < payloadGroupLengths.size()) *)
  | Some len =>
      match sumGroupLengths (take position (payloadGroupLengths r)) 0 with
      | None => None
      | Some start => slice (payloadOperations r) start len
      end
  end.

(** ** The split-reduction pattern *)

Section SplitReduction.

Variable ir : IR.
Variable kDynamic : Z.
(** Bound on the iterations of the subset traversals that the model
    follows. *)
Variable fuel : nat.

(** The six matcher objects the caller passes by reference. *)
Record SplitReductionMatchers := mkSplitReductionMatchers {
  m_parallel_reduction : StructuredOpMatcher;
  m_combiner_reduction : StructuredOpMatcher;
  m_parallel_fill : StructuredOpMatcher;
  m_original_fill : StructuredOpMatcher;
  m_split_leading : StructuredOpMatcher;
  m_split_trailing : StructuredOpMatcher
}.

(** [makeSplitReductionMatcher(parallel_reduction, combiner_reduction,
    parallel_fill, original_fill, leading, trailing)]. *)
Definition makeSplitReductionMatcher
    (parallelId combinerId parallelFillId originalFillId leadingId trailingId : MatcherId)
    : SplitReductionMatchers :=
  let original_fill := m_StructuredOp_isa ir originalFillId LinalgFillOp in
  let parallel_fill := m_StructuredOp_isa ir parallelFillId LinalgFillOp in
  let trailing := m_StructuredOp_isa ir trailingId LinalgGenericOp in
  let trailing := input_AllOperands_IsPermutation ir trailing in
  let trailing := output_AllOperands_IsPermutation ir trailing in
  let trailing := input_NumEqualsTo ir trailing 1 in
  let trailing := output_NumEqualsTo ir trailing 1 in
  let leading := m_StructuredOp_isa ir leadingId LinalgGenericOp in
  let leading := input_AllOperands_IsPermutation ir leading in
  let leading := output_AllOperands_IsPermutation ir leading in
  let leading := input_NumEqualsTo ir leading 1 in
  let leading := output_NumEqualsTo ir leading 1 in
  let parallel_reduction := m_StructuredOp parallelId in
  let parallel_reduction := dim_AllDims_ShapeKind ir kDynamic parallel_reduction Static in
  let parallel_reduction := dim_one_IteratorType ir parallel_reduction (-1) reduction in
  let parallel_reduction := input_AllOperands_IsPermutation ir parallel_reduction in
  let parallel_reduction := input_matcher ir parallel_reduction 0 leading true in
  let parallel_reduction := output_NumEqualsTo ir parallel_reduction 1 in
  let parallel_reduction := output_matcher ir parallel_reduction 0 parallel_fill false in
  let combiner_reduction := m_StructuredOp combinerId in
  let combiner_reduction := dim_AllDims_ShapeKind ir kDynamic combiner_reduction Static in
  let combiner_reduction := dim_one_IteratorType ir combiner_reduction (-1) reduction in
  let combiner_reduction := input_AllOperands_IsPermutation ir combiner_reduction in
  let combiner_reduction := input_SubsetOf ir fuel combiner_reduction 0 parallel_reduction in
  let combiner_reduction := output_NumEqualsTo ir combiner_reduction 1 in
  let combiner_reduction := output_SubsetOf ir fuel combiner_reduction 0 original_fill in
  let combiner_reduction := output_ElementTypeBitWidth ir combiner_reduction 0 32 in
  let combiner_reduction := output_SingleCombinerReduction ir combiner_reduction 0 in
  let combiner_reduction :=
    result_HasAnyUse_SubsetOf ir fuel combiner_reduction 0 trailing true in
  let combiner_reduction := allTilableOpsCaptured_FuncOp ir combiner_reduction in
  mkSplitReductionMatchers parallel_reduction combiner_reduction parallel_fill
    original_fill leading trailing.

End SplitReduction.

(** ** Specification-level notions *)

(** Every predicate of the list, run one after the other in list order on
    [linalgOp], returns true; the store is threaded from each to the next. *)
Inductive PassesAll (linalgOp : Operation) : list PredicateFn -> Store -> Store -> Prop :=
| PassesAll_nil s : PassesAll linalgOp [] s s
| PassesAll_cons fn rest s s1 s2 :
    fn linalgOp s = Ok true s1 ->
    PassesAll linalgOp rest s1 s2 ->
    PassesAll linalgOp (fn :: rest) s s2.

(** A predicate that never writes the [captured] slot of matcher [self]. *)
Definition preservesCaptured (self : MatcherId) (fn : PredicateFn) : Prop :=
  forall linalgOp s result s',
    fn linalgOp s = Ok result s' -> getCaptured self s' = getCaptured self s.

(** The slot of matcher [m] holds a node that is not among [nodes]. *)
Definition holdsOtherNode (m : MatcherId) (s : Store) (nodes : list Operation) : Prop :=
  exists x, getCaptured m s = Some x /\ x ∉ nodes.

(** Negative positions and dimensions count from the end. *)
Definition normalized (size position : Z) : Z :=
  if 0 <=? position then position else size + position.

(** Number of operations under [parent] that implement TilingInterface. *)
Definition numTilableOps (ir : IR) (parent : Operation) : nat :=
  length (List.filter (isTilingInterface ir) (walk ir parent)).

(** The root op together with every non-null node captured by a matcher of
    the set. *)
Definition capturedNodes (linalgOp : Operation) (matchers : list MatcherId) (s : Store)
    : gset Operation :=
  {[linalgOp]} ∪ list_to_set (omap (fun m => getCaptured m s) matchers).

(** Whether a dimension index lies in [0, rank) once normalized. *)
Definition inRange (rank dim : Z) : bool :=
  (0 <=? normalized rank dim) && (normalized rank dim <? rank).

(** The simple-reduction scenario on a payload graph: [op] is a 2-D
    structured op, dimension 0 parallel of static size 128 and dimension 1
    reduction of static size 64; it has one input and one output, both
    accessed through projected permutations; the output has a 32-bit element
    type, is produced by the fill op [fillOp] and is populated by a single
    combiner; there is no leading op (the input is a block argument or comes
    from an op that is not a structured op) and no trailing op (no user of
    the single result is a structured op); the enclosing function [parent]
    holds no tilable op besides the two. *)
Record SimpleReductionScenario (ir : IR) (op fillOp parent : Operation) : Prop := {
  scenario_structured : isLinalgClass (opClass ir op) = true;
  scenario_iterators : getIteratorTypesArray ir op = [parallel; reduction];
  scenario_ranges : getStaticLoopRanges ir op = [128; 64];
  scenario_input : exists input,
    getDpsInputOperands ir op = [input] /\
    isProjectedPermutation ir input = true /\
    match getDefiningOp (get ir input) with
    | None => True
    | Some producer => isLinalgClass (opClass ir producer) = false
    end;
  scenario_output : exists output combiner,
    getDpsInitOperands ir op = [output] /\
    isProjectedPermutation ir output = true /\
    getIntOrFloatBitWidth ir (get ir output) = Some 32 /\
    matchReduction ir op 0 = Some [combiner] /\
    getDefiningOp (get ir output) = Some fillOp;
  scenario_fill : opClass ir fillOp = LinalgFillOp;
  scenario_result : getNumResults ir op = 1;
  scenario_users :
    Forall (fun use => isLinalgClass (opClass ir (getOwner use)) = false)
           (getUses ir (OpResult op 0%nat));
  scenario_function : getParentOfTypeFuncOp ir op = Some parent;
  scenario_tilable : numTilableOps ir parent = 2%nat;
  scenario_distinct : fillOp <> op
}.

(** The matcher returns false on every user of the list, one after the
    other in list order; the store is threaded from each to the next. *)
Inductive FailsAll (matcher : Operation -> M bool) : list Operation -> Store -> Store -> Prop :=
| FailsAll_nil s : FailsAll matcher [] s s
| FailsAll_cons user rest s s1 s2 :
    matcher user s = Ok false s1 ->
    FailsAll matcher rest s1 s2 ->
    FailsAll matcher (user :: rest) s s2.

(** The shape kind of a loop range, given the marker of dynamic sizes. *)
Definition shapeKindOf (kDynamic size : Z) : ShapeKind :=
  if size =? kDynamic then Dynamic else Static.

(** The dimensions [0 .. rank-1]. *)
Definition allDims (rank : nat) : list Z := map Z.of_nat (seq 0 rank).

(** The dimensions [0 .. rank-1] that no excluded index designates. *)
Definition nonExcludedDims (rank : nat) (excluded : list Z) : list Z :=
  List.filter (fun i => negb (bool_decide (i ∈ map (normalized (Z.of_nat rank)) excluded)))
              (allDims rank).

(** Sum of a list of lengths. *)
Definition sumZ (lengths : list Z) : Z := foldr Z.add 0 lengths.

(** The consecutive groups of the given lengths, cut from [operations]
    starting at offset [start]. *)
Fixpoint groupsFrom {A : Type} (start : nat) (lengths : list Z) (operations : list A)
    : list (list A) :=
  match lengths with
  | [] => []
  | len :: rest =>
      take (Z.to_nat len) (drop start operations)
      :: groupsFrom (start + Z.to_nat len) rest operations
  end.

(** A structured op as both stages of the split reduction require it: all
    loop ranges static, the last dimension a reduction, every input accessed
    through a permutation, and a single output. *)
Record SplitReductionStage (ir : IR) (kDynamic : Z) (op : Operation)
    (input output : OpOperand) : Prop := {
  stage_structured : isLinalgClass (opClass ir op) = true;
  stage_static : Forall (fun size => size <> kDynamic) (getStaticLoopRanges ir op);
  stage_last : last (getIteratorTypesArray ir op) = Some reduction;
  stage_inputs : exists inputs, getDpsInputOperands ir op = input :: inputs;
  stage_permutations : forallb (isPermutation ir) (getDpsInputOperands ir op) = true;
  stage_output : getDpsInitOperands ir op = [output]
}.

(** The split-reduction scenario on a payload graph: the combiner reduction
    [combinerOp] reads, through the backward traversal of its first input,
    the parallel reduction [parallelOp], whose output is produced by the fill
    op [parallelFillOp] and which has no leading op; the output of the
    combiner has a 32-bit element type and a single combiner and comes,
    through the backward traversal, from the fill op [originalFillOp]; the
    forward traversal of the result of the combiner ends in [user], which is
    not a structured op (no trailing op); the enclosing function [parent]
    holds these four tilable ops only. *)
Record SplitReductionScenario (ir : IR) (kDynamic : Z) (fuel : nat)
    (combinerOp parallelOp parallelFillOp originalFillOp user parent : Operation) : Prop := {
  split_combiner : exists input output combiner,
    SplitReductionStage ir kDynamic combinerOp input output /\
    traverseSubsetsBackwards ir fuel (get ir input) = Returns parallelOp /\
    traverseSubsetsBackwards ir fuel (get ir output) = Returns originalFillOp /\
    getIntOrFloatBitWidth ir (get ir output) = Some 32 /\
    matchReduction ir combinerOp 0 = Some [combiner];
  split_parallel : exists input output,
    SplitReductionStage ir kDynamic parallelOp input output /\
    match getDefiningOp (get ir input) with
    | None => True
    | Some producer => isLinalgClass (opClass ir producer) = false
    end /\
    getDefiningOp (get ir output) = Some parallelFillOp;
  split_parallel_fill : opClass ir parallelFillOp = LinalgFillOp;
  split_original_fill : opClass ir originalFillOp = LinalgFillOp;
  split_result : 0 < getNumResults ir combinerOp;
  split_user :
    traverseSubsetsForwardAnyUse ir fuel (OpResult combinerOp 0%nat) = Returns user /\
    isLinalgClass (opClass ir user) = false;
  split_function : getParentOfTypeFuncOp ir combinerOp = Some parent;
  split_tilable : numTilableOps ir parent = 4%nat;
  split_distinct : NoDup [combinerOp; parallelOp; parallelFillOp; originalFillOp]
}.

(** ** Properties of [match] *)

Lemma all_of_app_passes linalgOp before rest s s1 :
  PassesAll linalgOp before s s1 ->
  all_of (before ++ rest) linalgOp s = all_of rest linalgOp s1.
Proof.
  induction 1 as [s|fn before s s1 s2 Hfn _ IH]; [reflexivity|].
  cbn [app all_of]. unfold bind at 1. rewrite Hfn. exact IH.
Qed.

Lemma all_of_cons_false fn rest linalgOp s s' :
  fn linalgOp s = Ok false s' ->
  all_of (fn :: rest) linalgOp s = Ok false s'.
Proof. intros Hfn. cbn [all_of]. unfold bind. rewrite Hfn. reflexivity. Qed.

Lemma all_of_true_passes linalgOp fns :
  forall s s', all_of fns linalgOp s = Ok true s' -> PassesAll linalgOp fns s s'.
Proof.
  induction fns as [|fn rest IH]; intros s s' H.
  - cbn in H. injection H as <-. constructor.
  - cbn [all_of] in H. unfold bind in H.
    destruct (fn linalgOp s) as [[|] s1| |] eqn:Hfn; try discriminate.
    econstructor; [exact Hfn|]. apply IH, H.
Qed.

(** A node that is not a structured op is rejected before any predicate
    runs. *)
Lemma match_not_linalg ir m op s :
  isLinalgClass (opClass ir op) = false -> match_ ir m op s = Ok false s.
Proof. intros H. unfold match_. rewrite H. reflexivity. Qed.

(** When all predicates pass, the node is recorded. *)
Lemma match_success ir m op s s' :
  isLinalgClass (opClass ir op) = true ->
  PassesAll op (predicates m) s s' ->
  match_ ir m op s = Ok true (setCaptured (matcherId m) op s').
Proof.
  intros Hl Hp. unfold match_. rewrite Hl. unfold bind.
  rewrite <- (app_nil_r (predicates m)), (all_of_app_passes _ _ _ _ _ Hp).
  reflexivity.
Qed.

(** C1.  [match] runs the predicates in registration order and stops at the
    first one that returns false.  If the predicates registered [before] all
    pass in order, leaving the store [s1], and the next one, [failing],
    returns false leaving [s2], then the match returns false with exactly the
    store [s2]: the captures of the predicates reached are kept, the
    matcher's own slot is not written, and whatever predicates are registered
    [after] contribute nothing (they are not run, whatever they are). *)
Theorem match_short_circuits ir m op before failing after s s1 s2 :
  isLinalgClass (opClass ir op) = true ->
  predicates m = before ++ failing :: after ->
  PassesAll op before s s1 ->
  failing op s1 = Ok false s2 ->
  match_ ir m op s = Ok false s2.
Proof.
  intros Hl Hpreds Hbefore Hfail.
  unfold match_. rewrite Hl, Hpreds. unfold bind.
  rewrite (all_of_app_passes _ _ _ _ _ Hbefore).
  rewrite (all_of_cons_false _ _ _ _ _ Hfail).
  reflexivity.
Qed.

(** On the rank-2 reduction, [rank >= 3] fails after the rank was captured in
    cell "a"; the capture of cell "b" registered after it is not run. *)
Lemma match_short_circuits_witness :
  match_ SimpleReduction.ir
    (mkMatcher 9%nat
       [rank_CaptureStaticValue_fn SimpleReduction.ir "a";
        rank_NumGreaterEqualTo_fn SimpleReduction.ir 3;
        rank_CaptureStaticValue_fn SimpleReduction.ir "b"] [])
    SimpleReduction.reductionOp emptyStore
  = Ok false (writeCell "a" 2 emptyStore).
Proof.
  apply (match_short_circuits SimpleReduction.ir _ SimpleReduction.reductionOp
           [rank_CaptureStaticValue_fn SimpleReduction.ir "a"]
           (rank_NumGreaterEqualTo_fn SimpleReduction.ir 3)
           [rank_CaptureStaticValue_fn SimpleReduction.ir "b"]
           emptyStore (writeCell "a" 2 emptyStore)).
  - reflexivity.
  - reflexivity.
  - econstructor; [reflexivity | constructor].
  - reflexivity.
Defined.

Lemma all_of_preservesCaptured self linalgOp fns :
  (forall fn, fn ∈ fns -> preservesCaptured self fn) ->
  forall s result s',
    all_of fns linalgOp s = Ok result s' -> getCaptured self s' = getCaptured self s.
Proof.
  induction fns as [|fn rest IH]; intros Hall s result s' H.
  - cbn in H. injection H as _ <-. reflexivity.
  - cbn [all_of] in H. unfold bind in H.
    destruct (fn linalgOp s) as [b s1| |] eqn:Hfn; try discriminate.
    assert (Hs1 : getCaptured self s1 = getCaptured self s).
    { eapply (Hall fn); [apply list_elem_of_here | exact Hfn]. }
    destruct b.
    + rewrite <- Hs1. eapply IH; [|exact H].
      intros fn' Hin. apply Hall. apply list_elem_of_further, Hin.
    + cbn in H. injection H as _ <-. exact Hs1.
Qed.

Lemma isa_fn_preservesCaptured ir self kind : preservesCaptured self (isa_fn ir kind).
Proof. intros linalgOp s result s' H. cbn in H. injection H as _ <-. reflexivity. Qed.

Lemma rank_CaptureStaticValue_fn_preservesCaptured ir self capture :
  preservesCaptured self (rank_CaptureStaticValue_fn ir capture).
Proof. intros linalgOp s result s' H. cbn in H. injection H as _ <-. reflexivity. Qed.

Lemma rank_NumLowerEqualTo_fn_preservesCaptured ir self maxRank :
  preservesCaptured self (rank_NumLowerEqualTo_fn ir maxRank).
Proof. intros linalgOp s result s' H. cbn in H. injection H as _ <-. reflexivity. Qed.

(** C7, as the code has it.  When [match] returns false it has not written
    the matcher's [captured] slot: provided the predicates themselves leave
    that slot alone, it holds after the call what it held before, the node of
    an earlier successful match included. *)
Theorem match_failure_keeps_captured ir m op s s' :
  (forall fn, fn ∈ predicates m -> preservesCaptured (matcherId m) fn) ->
  match_ ir m op s = Ok false s' ->
  getCaptured (matcherId m) s' = getCaptured (matcherId m) s.
Proof.
  intros Hpres H. unfold match_ in H.
  destruct (isLinalgClass (opClass ir op)).
  - unfold bind in H.
    destruct (all_of (predicates m) op s) as [[|] s1| |] eqn:Hall; try discriminate.
    cbn in H. injection H as <-.
    eapply all_of_preservesCaptured; eassumption.
  - cbn in H. injection H as <-. reflexivity.
Qed.

(** A matcher that captures the rank and requires rank <= 1 matched the fill
    op (rank 1) earlier; run on the reduction op (rank 2) it fails, having
    written the cell, and its slot still holds the fill op. *)
Lemma match_failure_keeps_captured_witness :
  let m := mkMatcher 9%nat
             [rank_CaptureStaticValue_fn SimpleReduction.ir "a";
              rank_NumLowerEqualTo_fn SimpleReduction.ir 1] [] in
  let s := writeCell "a" 1 (setCaptured 9%nat SimpleReduction.fillOp emptyStore) in
  let s' := writeCell "a" 2 s in
  match_ SimpleReduction.ir m SimpleReduction.reductionOp s = Ok false s' /\
  getCaptured 9%nat s' = getCaptured 9%nat s.
Proof.
  cbv zeta. split; [reflexivity|].
  apply (match_failure_keeps_captured SimpleReduction.ir
           (mkMatcher 9%nat
              [rank_CaptureStaticValue_fn SimpleReduction.ir "a";
               rank_NumLowerEqualTo_fn SimpleReduction.ir 1] [])
           SimpleReduction.reductionOp).
  - intros fn Hin. cbn in Hin.
    apply elem_of_cons in Hin as [->|Hin];
      [|apply list_elem_of_singleton in Hin; subst fn].
    + apply rank_CaptureStaticValue_fn_preservesCaptured.
    + apply rank_NumLowerEqualTo_fn_preservesCaptured.
  - reflexivity.
Defined.

(** C7, as the claim states it, fails: after a successful match on the fill
    op, a failed match on the reduction op leaves the fill op readable in the
    slot. *)
Lemma match_failure_stale_captured :
  let m := m_fill SimpleReduction.matchers in
  let s1 := setCaptured SimpleReduction.fillId SimpleReduction.fillOp emptyStore in
  match_ SimpleReduction.ir m SimpleReduction.fillOp emptyStore = Ok true s1 /\
  match_ SimpleReduction.ir m SimpleReduction.reductionOp s1 = Ok false s1 /\
  getCaptured (matcherId m) s1 = Some SimpleReduction.fillOp /\
  getCaptured (matcherId m) s1 <> None.
Proof. cbv zeta. repeat split; try reflexivity. discriminate. Qed.

(** ** Recursive operand and output predicates *)

Lemma at_index_Some_range {A} (l : list A) i a :
  at_index l i = Some a -> 0 <= i < Z.of_nat (length l).
Proof.
  unfold at_index. destruct (Z.ltb_spec i 0) as [|Hi]; [discriminate|].
  intros H. apply lookup_lt_Some in H. lia.
Qed.

Lemma index_Some {A} (l : list A) i a s :
  at_index l i = Some a -> index l i s = Ok a s.
Proof. intros H. unfold index. rewrite H. reflexivity. Qed.

Lemma operandMatcher_body ir operand (matcher : Operation -> M bool) (optional : bool) s :
  match getDefiningOp (get ir operand) return M bool with
  | None => ret optional
  | Some definingOp =>
      let* matched := matcher definingOp in
      if matched then ret true else ret optional
  end s
  = match getDefiningOp (get ir operand) with
    | None => Ok optional s
    | Some definingOp =>
        match matcher definingOp s with
        | Ok nestedMatch s' => Ok (nestedMatch || optional) s'
        | Fault => Fault
        | Diverge => Diverge
        end
    end.
Proof.
  destruct (getDefiningOp (get ir operand)) as [definingOp|]; [|reflexivity].
  unfold bind. destruct (matcher definingOp s) as [[|] s'| |]; reflexivity.
Qed.

(** C2.  For the predicates pushed by [addInputMatcher] and
    [addOutputMatcher]: let [operand] be the input (resp. output/init)
    operand at the normalized position, which is in range.  If its value has
    no defining op, the predicate returns the optional flag and leaves the
    store alone.  Otherwise the nested matcher is run on the defining op,
    whatever the flag, and the predicate returns [nestedMatch || optional]
    with the store the nested matcher left; so an optional predicate whose
    nested matcher fails returns true and keeps the nested captures. *)
Theorem operand_matcher_optional ir position matcher optional linalgOp s operand :
  (at_index (getDpsInputOperands ir linalgOp)
            (normalized (getNumDpsInputs ir linalgOp) position) = Some operand ->
   addInputMatcher_fn ir position matcher optional linalgOp s =
   match getDefiningOp (get ir operand) with
   | None => Ok optional s
   | Some definingOp =>
       match matcher definingOp s with
       | Ok nestedMatch s' => Ok (nestedMatch || optional) s'
       | Fault => Fault
       | Diverge => Diverge
       end
   end) /\
  (at_index (getDpsInitOperands ir linalgOp)
            (normalized (getNumDpsInits ir linalgOp) position) = Some operand ->
   addOutputMatcher_fn ir position matcher optional linalgOp s =
   match getDefiningOp (get ir operand) with
   | None => Ok optional s
   | Some definingOp =>
       match matcher definingOp s with
       | Ok nestedMatch s' => Ok (nestedMatch || optional) s'
       | Fault => Fault
       | Diverge => Diverge
       end
   end) /\
  (forall definingOp s',
     (at_index (getDpsInputOperands ir linalgOp)
               (normalized (getNumDpsInputs ir linalgOp) position) = Some operand ->
      getDefiningOp (get ir operand) = Some definingOp ->
      matcher definingOp s = Ok false s' ->
      addInputMatcher_fn ir position matcher true linalgOp s = Ok true s') /\
     (at_index (getDpsInitOperands ir linalgOp)
               (normalized (getNumDpsInits ir linalgOp) position) = Some operand ->
      getDefiningOp (get ir operand) = Some definingOp ->
      matcher definingOp s = Ok false s' ->
      addOutputMatcher_fn ir position matcher true linalgOp s = Ok true s')).
Proof.
  assert (Hin : forall optional',
    at_index (getDpsInputOperands ir linalgOp)
             (normalized (getNumDpsInputs ir linalgOp) position) = Some operand ->
    addInputMatcher_fn ir position matcher optional' linalgOp s =
    match getDefiningOp (get ir operand) with
    | None => Ok optional' s
    | Some definingOp =>
        match matcher definingOp s with
        | Ok nestedMatch s' => Ok (nestedMatch || optional') s'
        | Fault => Fault
        | Diverge => Diverge
        end
    end).
  { intros optional' H. pose proof (at_index_Some_range _ _ _ H) as Hr.
    unfold addInputMatcher_fn, getDpsInputOperand. fold (normalized (getNumDpsInputs ir linalgOp) position).
    destruct (Z.leb_spec (getNumDpsInputs ir linalgOp)
                (normalized (getNumDpsInputs ir linalgOp) position)) as [Hle|_];
      [unfold getNumDpsInputs in *; lia|].
    unfold bind at 1. rewrite (index_Some _ _ _ _ H).
    apply operandMatcher_body. }
  assert (Hout : forall optional',
    at_index (getDpsInitOperands ir linalgOp)
             (normalized (getNumDpsInits ir linalgOp) position) = Some operand ->
    addOutputMatcher_fn ir position matcher optional' linalgOp s =
    match getDefiningOp (get ir operand) with
    | None => Ok optional' s
    | Some definingOp =>
        match matcher definingOp s with
        | Ok nestedMatch s' => Ok (nestedMatch || optional') s'
        | Fault => Fault
        | Diverge => Diverge
        end
    end).
  { intros optional' H. pose proof (at_index_Some_range _ _ _ H) as Hr.
    unfold addOutputMatcher_fn, getDpsInitOperand. fold (normalized (getNumDpsInits ir linalgOp) position).
    destruct (Z.leb_spec (getNumDpsInits ir linalgOp)
                (normalized (getNumDpsInits ir linalgOp) position)) as [Hle|_];
      [unfold getNumDpsInits in *; lia|].
    unfold bind at 1. rewrite (index_Some _ _ _ _ H).
    apply operandMatcher_body. }
  split; [apply Hin|]. split; [apply Hout|].
  intros definingOp s'. split; intros H Hdef Hm.
  - rewrite (Hin true H), Hdef, Hm. reflexivity.
  - rewrite (Hout true H), Hdef, Hm. reflexivity.
Qed.

(** The output of the rank-2 reduction is produced by the fill op.  A nested
    matcher that captures the rank and then requires a generic op fails on
    it; the optional predicate at position -1 returns true and the rank of
    the fill op stays in the cell. *)
Lemma operand_matcher_optional_witness :
  let nested := mkMatcher 9%nat
                  [rank_CaptureStaticValue_fn SimpleReduction.ir "a";
                   isa_fn SimpleReduction.ir LinalgGenericOp] [] in
  addOutputMatcher_fn SimpleReduction.ir (-1) (match_ SimpleReduction.ir nested) true
    SimpleReduction.reductionOp emptyStore
  = Ok true (writeCell "a" 1 emptyStore).
Proof.
  cbv zeta.
  apply (proj2 (proj2 (proj2 (operand_matcher_optional SimpleReduction.ir (-1)
            (match_ SimpleReduction.ir
               (mkMatcher 9%nat
                  [rank_CaptureStaticValue_fn SimpleReduction.ir "a";
                   isa_fn SimpleReduction.ir LinalgGenericOp] []))
            true SimpleReduction.reductionOp emptyStore
            (mkOpOperand 4%nat 1%nat)))
          SimpleReduction.fillOp (writeCell "a" 1 emptyStore))).
  - reflexivity.
  - reflexivity.
  - reflexivity.
Defined.

(** ** Exhaustiveness *)

Lemma insertCaptured_spec matchers s :
  forall matched,
    insertCaptured matchers s matched
    = list_to_set (omap (fun m => getCaptured m s) matchers) ∪ matched.
Proof.
  induction matchers as [|nested rest IH]; intros matched; simpl.
  - symmetry. apply (left_id_L ∅ (∪)).
  - destruct (getCaptured nested s) as [captured|]; rewrite IH;
      change (list_omap MatcherId Operation (fun m => getCaptured m s) rest)
        with (omap (fun m => getCaptured m s) rest).
    + rewrite list_to_set_cons. apply set_eq. intros o.
      rewrite !elem_of_union. tauto.
    + reflexivity.
Qed.

Lemma elem_of_capturedNodes linalgOp matchers s o :
  o ∈ capturedNodes linalgOp matchers s
  <-> o = linalgOp \/ exists m, m ∈ matchers /\ getCaptured m s = Some o.
Proof.
  unfold capturedNodes.
  rewrite elem_of_union, elem_of_singleton, elem_of_list_to_set, list_elem_of_omap.
  reflexivity.
Qed.

Lemma checkAllTilableMatched_Some ir parent linalgOp matchers s :
  checkAllTilableMatched ir (Some parent) linalgOp matchers s
  = Ok (bool_decide (numTilableOps ir parent = size (capturedNodes linalgOp matchers s))) s.
Proof.
  unfold checkAllTilableMatched, capturedNodes, numTilableOps.
  rewrite insertCaptured_spec, (right_id_L ∅ (∪)).
  f_equal. case_bool_decide as Hsize.
  - rewrite Hsize. apply Z.eqb_refl.
  - apply Z.eqb_neq. lia.
Qed.

(** C3.  [checkAllTilableMatched] returns false on a null parent.  On a
    non-null parent it returns true exactly when the number of tilable ops
    under the parent equals the size of the set holding the root op and every
    non-null node captured by a matcher of the set.  Hence, with the captures
    unchanged, a scope with one more tilable op turns a true answer into
    false. *)
Theorem checkAllTilableMatched_exhaustive ir ir' parent parent' linalgOp matchers s :
  checkAllTilableMatched ir None linalgOp matchers s = Ok false s /\
  checkAllTilableMatched ir (Some parent) linalgOp matchers s
    = Ok (bool_decide (numTilableOps ir parent = size (capturedNodes linalgOp matchers s))) s /\
  (forall o, o ∈ capturedNodes linalgOp matchers s
             <-> o = linalgOp \/ exists m, m ∈ matchers /\ getCaptured m s = Some o) /\
  (numTilableOps ir' parent' = S (numTilableOps ir parent) ->
   checkAllTilableMatched ir (Some parent) linalgOp matchers s = Ok true s ->
   checkAllTilableMatched ir' (Some parent') linalgOp matchers s = Ok false s).
Proof.
  split; [reflexivity|]. split; [apply checkAllTilableMatched_Some|].
  split; [intros o; apply elem_of_capturedNodes|].
  intros Hmore. rewrite !checkAllTilableMatched_Some. intros Htrue.
  injection Htrue as Htrue. apply bool_decide_eq_true in Htrue.
  f_equal. apply bool_decide_eq_false. lia.
Qed.

(** In the simple reduction, with the fill op captured, the check over the
    function succeeds; with one more tilable op in the function it fails. *)
Lemma checkAllTilableMatched_exhaustive_witness :
  let s := setCaptured SimpleReduction.fillId SimpleReduction.fillOp emptyStore in
  let matchers := [SimpleReduction.reductionId; SimpleReduction.fillId;
                   SimpleReduction.leadingId; SimpleReduction.trailingId] in
  checkAllTilableMatched SimpleReduction.ir (Some SimpleReduction.func)
    SimpleReduction.reductionOp matchers s = Ok true s /\
  checkAllTilableMatched ExtraTilable.ir (Some SimpleReduction.func)
    SimpleReduction.reductionOp matchers s = Ok false s.
Proof.
  cbv zeta. split; [vm_compute; reflexivity|].
  apply (proj2 (proj2 (proj2 (checkAllTilableMatched_exhaustive
           SimpleReduction.ir ExtraTilable.ir SimpleReduction.func SimpleReduction.func
           SimpleReduction.reductionOp
           [SimpleReduction.reductionId; SimpleReduction.fillId;
            SimpleReduction.leadingId; SimpleReduction.trailingId]
           (setCaptured SimpleReduction.fillId SimpleReduction.fillOp emptyStore))))).
  - reflexivity.
  - vm_compute; reflexivity.
Defined.

(** ** Dimension indices *)

Lemma addSizeInt64_negative (size : nat) (d : Z) :
  INT64_MIN <= d < 0 -> Z.of_nat size <= INT64_MAX ->
  addSizeInt64 size d = Z.of_nat size + d.
Proof.
  unfold addSizeInt64, toInt64, INT64_MIN, INT64_MAX.
  change (2 ^ 63) with 9223372036854775808.
  change (2 ^ 64) with 18446744073709551616.
  intros Hd Hsize. Z.to_euclidean_division_equations. lia.
Qed.

(** The list overloads reject a dimension that is out of range after
    normalization, on either side. *)
Lemma dim_ShapeKind_out_of_range ir kDynamic dimension rest kind linalgOp s :
  INT64_MIN <= dimension <= INT64_MAX ->
  Z.of_nat (length (getStaticLoopRanges ir linalgOp)) <= INT64_MAX ->
  ~ 0 <= normalized (Z.of_nat (length (getStaticLoopRanges ir linalgOp))) dimension
      < Z.of_nat (length (getStaticLoopRanges ir linalgOp)) ->
  dim_ShapeKind_fn ir kDynamic (dimension :: rest) kind linalgOp s = Ok false s.
Proof.
  intros Hd Hsize Hout. unfold dim_ShapeKind_fn. cbn [dim_ShapeKind_loop].
  unfold normalized in Hout.
  destruct (Z.leb_spec 0 dimension) as [Hpos|Hneg].
  - destruct (Z.ltb_spec dimension 0); [lia|].
    destruct (Z.leb_spec (Z.of_nat (length (getStaticLoopRanges ir linalgOp))) dimension);
      [reflexivity|lia].
  - rewrite addSizeInt64_negative by lia.
    destruct (Z.ltb_spec (Z.of_nat (length (getStaticLoopRanges ir linalgOp)) + dimension) 0);
      [reflexivity|].
    destruct (Z.leb_spec (Z.of_nat (length (getStaticLoopRanges ir linalgOp)))
                (Z.of_nat (length (getStaticLoopRanges ir linalgOp)) + dimension));
      [reflexivity|lia].
Qed.

Lemma dim_IteratorType_out_of_range ir dimension rest kind linalgOp s :
  ~ 0 <= normalized (getNumLoops ir linalgOp) dimension < getNumLoops ir linalgOp ->
  dim_IteratorType_fn ir (dimension :: rest) kind linalgOp s = Ok false s.
Proof.
  intros Hout. unfold dim_IteratorType_fn. cbn [dim_IteratorType_loop].
  fold (normalized (getNumLoops ir linalgOp) dimension).
  destruct (Z.ltb_spec (normalized (getNumLoops ir linalgOp) dimension) 0); [reflexivity|].
  destruct (Z.leb_spec (getNumLoops ir linalgOp)
              (normalized (getNumLoops ir linalgOp) dimension)); [reflexivity|lia].
Qed.

(** The single-dimension overloads only test the upper bound: an index that
    is still negative after normalization reaches the access to the loop
    ranges. *)
Lemma dim_DivisibleBy_below_range ir kDynamic dimension divisibleBy linalgOp s :
  normalized (getNumLoops ir linalgOp) dimension < 0 ->
  dim_DivisibleBy_fn ir kDynamic dimension divisibleBy linalgOp s = Fault.
Proof.
  intros Hneg. unfold dim_DivisibleBy_fn.
  fold (normalized (getNumLoops ir linalgOp) dimension).
  assert (0 <= getNumLoops ir linalgOp) by (unfold getNumLoops; lia).
  destruct (Z.leb_spec (getNumLoops ir linalgOp)
              (normalized (getNumLoops ir linalgOp) dimension)); [lia|].
  unfold bind, index, at_index.
  destruct (Z.ltb_spec (normalized (getNumLoops ir linalgOp) dimension) 0); [reflexivity|lia].
Qed.

Lemma dim_CaptureStaticValue_below_range ir dimension capture linalgOp s :
  normalized (getNumLoops ir linalgOp) dimension < 0 ->
  dim_CaptureStaticValue_fn ir dimension capture linalgOp s = Fault.
Proof.
  intros Hneg. unfold dim_CaptureStaticValue_fn.
  fold (normalized (getNumLoops ir linalgOp) dimension).
  assert (0 <= getNumLoops ir linalgOp) by (unfold getNumLoops; lia).
  destruct (Z.leb_spec (getNumLoops ir linalgOp)
              (normalized (getNumLoops ir linalgOp) dimension)); [lia|].
  unfold bind, index, at_index.
  destruct (Z.ltb_spec (normalized (getNumLoops ir linalgOp) dimension) 0); [reflexivity|lia].
Qed.

(** C4, on the code.  On the rank-2 reduction, dimension -3 is normalized to
    -1.  The two list overloads return false; the divisibility predicate and
    the dimension capture pass their only test ([-1 >= 2] is false) and
    index the loop ranges at -1. *)
Theorem dim_index_below_range kDynamic s :
  getNumLoops SimpleReduction.ir SimpleReduction.reductionOp = 2 /\
  dim_ShapeKind_fn SimpleReduction.ir kDynamic [-3] Static SimpleReduction.reductionOp s
    = Ok false s /\
  dim_IteratorType_fn SimpleReduction.ir [-3] parallel SimpleReduction.reductionOp s
    = Ok false s /\
  dim_DivisibleBy_fn SimpleReduction.ir kDynamic (-3) 1 SimpleReduction.reductionOp s
    = Fault /\
  dim_CaptureStaticValue_fn SimpleReduction.ir (-3) "cell" SimpleReduction.reductionOp s
    = Fault.
Proof.
  split; [reflexivity|].
  split; [apply dim_ShapeKind_out_of_range; vm_compute; intuition discriminate|].
  split; [apply dim_IteratorType_out_of_range; vm_compute; intuition discriminate|].
  split; [apply dim_DivisibleBy_below_range; reflexivity|].
  apply dim_CaptureStaticValue_below_range; reflexivity.
Qed.

(** ** Subset traversals *)

(** The search run on a loop [use] skips exactly the output block arguments
    tied to that use: when every output of the loop is tied to it, the search
    reaches [range.end()]. *)
Lemma find_if_not_tied_all_tied ir loop use range :
  (forall bbarg, bbarg ∈ range -> getTiedOpOperand ir loop bbarg = Some use) ->
  find_if_not_tied ir loop use range = Some None.
Proof.
  induction range as [|bbarg rest IH]; intros Hall; [reflexivity|].
  cbn [find_if_not_tied]. rewrite (Hall bbarg) by apply list_elem_of_here.
  rewrite bool_decide_eq_false_2 by (intros Hne; apply Hne; reflexivity).
  apply IH. intros b Hb. apply Hall, list_elem_of_further, Hb.
Qed.

(** A first use by a loop all of whose outputs are tied to that use makes
    the traversal return the loop. *)
Lemma traverseSubsetsForwardAnyUse_tied_loop ir fuel val use rest :
  getUses ir val = use :: rest ->
  opClass ir (getOwner use) = ForeachThreadOp ->
  (forall bbarg, bbarg ∈ getOutputBlockArguments ir (getOwner use) ->
                 getTiedOpOperand ir (getOwner use) bbarg = Some use) ->
  traverseSubsetsForwardAnyUse ir (S fuel) val = Returns (getOwner use).
Proof.
  intros Huses Hloop Htied. cbn [traverseSubsetsForwardAnyUse].
  rewrite Huses. cbn [forUses]. rewrite Hloop.
  rewrite bool_decide_eq_true_2 by reflexivity.
  rewrite (find_if_not_tied_all_tied _ _ _ _ Htied). reflexivity.
Qed.

(** A value without uses: the [for] loop has no iteration and the [do] loop
    starts over with the same value, for ever. *)
Lemma traverseSubsetsForwardAnyUse_no_use ir val :
  getUses ir val = [] ->
  forall fuel, traverseSubsetsForwardAnyUse ir fuel val = Loops.
Proof.
  intros Huses fuel. induction fuel as [|fuel IH]; [reflexivity|].
  cbn [traverseSubsetsForwardAnyUse]. rewrite Huses. cbn [forUses]. exact IH.
Qed.

(** The backward traversal leaves its loop on every graph in which the
    values it steps through decrease for some measure (no cycle through
    slices and loop outputs), given fuel above the measure. *)
Lemma traverseSubsetsBackwards_exits ir (depth : Value -> nat) :
  (forall op n, opClass ir op = ExtractSliceOp ->
                (depth (getSource ir op) < depth (OpResult op n))%nat) ->
  (forall block n loop operand,
     getParentOp ir block = Some loop ->
     opClass ir loop = ForeachThreadOp ->
     getTiedOpOperand ir loop (BlockArgument block n) = Some operand ->
     (depth (get ir operand) < depth (BlockArgument block n))%nat) ->
  forall fuel val, (depth val < fuel)%nat ->
                   traverseSubsetsBackwards ir fuel val <> Loops.
Proof.
  intros Hslice Hloop fuel.
  induction fuel as [|fuel IH]; intros val Hfuel; [lia|].
  cbn [traverseSubsetsBackwards]. destruct val as [op n|block n].
  - case_bool_decide as Hc; [|discriminate].
    apply IH. specialize (Hslice op n Hc). lia.
  - destruct (getParentOp ir block) as [blockOp|] eqn:Hparent; [|discriminate].
    case_bool_decide as Hc; [|discriminate].
    destruct (getTiedOpOperand ir blockOp (BlockArgument block n)) as [operand|] eqn:Htied;
      [|discriminate].
    apply IH. specialize (Hloop block n blockOp operand Hparent Hc Htied). lia.
Qed.

(** The predicate built on the forward traversal does not return when the
    traversal does not. *)
Lemma result_HasAnyUse_SubsetOf_diverges ir fuel position subset optional linalgOp s :
  0 <= normalized (getNumResults ir linalgOp) position < getNumResults ir linalgOp ->
  traverseSubsetsForwardAnyUse ir fuel
    (OpResult linalgOp (Z.to_nat (normalized (getNumResults ir linalgOp) position))) = Loops ->
  result_HasAnyUse_SubsetOf_fn ir fuel position subset optional linalgOp s = Diverge.
Proof.
  intros Hrange Hloops. unfold result_HasAnyUse_SubsetOf_fn.
  fold (normalized (getNumResults ir linalgOp) position).
  destruct (Z.leb_spec (getNumResults ir linalgOp)
              (normalized (getNumResults ir linalgOp) position)); [lia|].
  unfold bind, getResult.
  destruct (Z.leb_spec 0 (normalized (getNumResults ir linalgOp) position)); [|lia].
  destruct (Z.ltb_spec (normalized (getNumResults ir linalgOp) position)
              (getNumResults ir linalgOp)); [|lia].
  cbn [andb ret]. rewrite Hloops. reflexivity.
Qed.

(** C5, on the code.  The value [%t] is used by a loop as the shared output
    tied to block argument [%o]: the traversal returns the loop itself
    instead of going on from [%o] (whose user is op 11).  The value [%b] is
    the second shared output of a loop: the traversal goes on from the block
    argument [%oa] of the first output, which is tied to another operand, and
    returns its user, op 21, not the user of [%ob], op 22. *)
Theorem forward_traversal_loop_output fuel :
  getUses LoopOutputs.ir (OpResult 1%nat 0%nat) = [mkOpOperand 10%nat 1%nat] /\
  getTiedOpOperand LoopOutputs.ir 10%nat (BlockArgument 10%nat 1%nat) = Some (mkOpOperand 10%nat 1%nat) /\
  traverseSubsetsForwardAnyUse LoopOutputs.ir (S fuel) (OpResult 1%nat 0%nat) = Returns 10%nat /\
  traverseSubsetsForwardAnyUse LoopOutputs.ir (S fuel) (BlockArgument 10%nat 1%nat) = Returns 11%nat /\
  getUses LoopOutputs.ir (OpResult 3%nat 0%nat) = [mkOpOperand 20%nat 2%nat] /\
  getTiedOpOperand LoopOutputs.ir 20%nat (BlockArgument 20%nat 2%nat) = Some (mkOpOperand 20%nat 2%nat) /\
  getTiedOpOperand LoopOutputs.ir 20%nat (BlockArgument 20%nat 1%nat) = Some (mkOpOperand 20%nat 1%nat) /\
  traverseSubsetsForwardAnyUse LoopOutputs.ir (S (S fuel)) (OpResult 3%nat 0%nat) = Returns 21%nat /\
  traverseSubsetsForwardAnyUse LoopOutputs.ir (S fuel) (BlockArgument 20%nat 2%nat) = Returns 22%nat.
Proof. repeat split; reflexivity. Qed.

(** C6, on the code.  Op 4 has no input and one output, produced by the fill
    op: at position 0 the predicate returns false without resolving the
    output ([0 >= getNumDpsInputs]), where the output predicate of
    [addOutputMatcher] finds the fill op.  Op 5 has two inputs and one
    output: positions -1 and 1 pass the test against the two inputs and read
    output operand 1, which does not exist. *)
Theorem output_SubsetOf_bounds fuel s :
  getNumDpsInputs Outputs.ir Outputs.noInputOp = 0 /\
  getNumDpsInits Outputs.ir Outputs.noInputOp = 1 /\
  output_SubsetOf_fn Outputs.ir fuel 0 Outputs.original_fill Outputs.noInputOp s
    = Ok false s /\
  addOutputMatcher_fn Outputs.ir 0 (match_ Outputs.ir Outputs.original_fill) false
      Outputs.noInputOp s
    = Ok true (setCaptured (matcherId Outputs.original_fill) Outputs.fillOp s) /\
  getNumDpsInputs Outputs.ir Outputs.twoInputOp = 2 /\
  getNumDpsInits Outputs.ir Outputs.twoInputOp = 1 /\
  output_SubsetOf_fn Outputs.ir fuel (-1) Outputs.original_fill Outputs.twoInputOp s
    = Fault /\
  output_SubsetOf_fn Outputs.ir fuel 1 Outputs.original_fill Outputs.twoInputOp s
    = Fault /\
  addOutputMatcher_fn Outputs.ir (-1) (match_ Outputs.ir Outputs.original_fill) false
      Outputs.twoInputOp s
    = Ok true (setCaptured (matcherId Outputs.original_fill) Outputs.fillOp s).
Proof. repeat split; reflexivity. Qed.

(** C8, on the code.  The result of op 4 has no use: the forward traversal
    does not return for any amount of fuel, and neither does the optional
    "result has a use that is a subset of" predicate on op 4. *)
Theorem forward_traversal_no_use_diverges fuel s :
  getUses Outputs.ir (OpResult Outputs.noInputOp 0%nat) = [] /\
  traverseSubsetsForwardAnyUse Outputs.ir fuel (OpResult Outputs.noInputOp 0%nat) = Loops /\
  result_HasAnyUse_SubsetOf_fn Outputs.ir fuel 0 Outputs.trailing true Outputs.noInputOp s
    = Diverge.
Proof.
  split; [reflexivity|].
  assert (Hloops : traverseSubsetsForwardAnyUse Outputs.ir fuel
                     (OpResult Outputs.noInputOp 0%nat) = Loops)
    by (apply traverseSubsetsForwardAnyUse_no_use; reflexivity).
  split; [exact Hloops|].
  apply result_HasAnyUse_SubsetOf_diverges; [vm_compute; intuition discriminate|].
  exact Hloops.
Qed.

(** ** All dimensions except an excluded set *)

Lemma elem_of_foldl_excluded rank excluded :
  forall (acc : gset Z) z,
    z ∈ foldl (fun acc dim => {[ if 0 <=? dim then dim else rank + dim ]} ∪ acc) acc excluded
    <-> z ∈ acc \/ exists dim, dim ∈ excluded /\ normalized rank dim = z.
Proof.
  induction excluded as [|d rest IH]; intros acc z; cbn [foldl].
  - split; [auto|]. intros [H|(dim & Hin & _)]; [exact H|]. inversion Hin.
  - rewrite IH, elem_of_union, elem_of_singleton. fold (normalized rank d). split.
    + intros [[->|H]|(dim & Hin & Hn)].
      * right. exists d. split; [apply list_elem_of_here|reflexivity].
      * left. exact H.
      * right. exists dim. split; [apply list_elem_of_further, Hin|exact Hn].
    + intros [H|(dim & Hin & Hn)]; [left; right; exact H|].
      apply elem_of_cons in Hin as [->|Hin].
      * left. left. symmetry. exact Hn.
      * right. exists dim. split; assumption.
Qed.

Lemma elem_of_excludedDimsOf rank excluded z :
  z ∈ excludedDimsOf rank excluded <-> exists dim, dim ∈ excluded /\ normalized rank dim = z.
Proof.
  unfold excludedDimsOf. rewrite elem_of_foldl_excluded. split.
  - intros [H|H]; [|exact H]. apply not_elem_of_empty in H. destruct H.
  - intros H. right. exact H.
Qed.

Lemma dim_AllDimsExcept_loop_true excludedDims kind types :
  forall index,
    dim_AllDimsExcept_loop excludedDims kind index types = true
    <-> forall (j : nat) type, types !! j = Some type ->
          Z.of_nat (index + j) ∉ excludedDims -> type = kind.
Proof.
  induction types as [|type0 rest IH]; intros index; cbn [dim_AllDimsExcept_loop].
  - split; [|reflexivity]. intros _ j type Hj. inversion Hj.
  - split.
    + intros Hloop j type Hj Hnot. destruct j as [|j].
      * cbn in Hj. injection Hj as <-.
        rewrite Nat.add_0_r in Hnot.
        rewrite (bool_decide_eq_false_2 _ Hnot) in Hloop.
        case_bool_decide as Hk; [exact Hk|discriminate].
      * cbn in Hj.
        assert (Hrest : dim_AllDimsExcept_loop excludedDims kind (S index) rest = true).
        { case_bool_decide; [exact Hloop|].
          case_bool_decide; [exact Hloop|discriminate]. }
        apply (proj1 (IH (S index)) Hrest j type Hj).
        replace (S index + j)%nat with (index + S j)%nat by lia. exact Hnot.
    + intros Hall.
      assert (Hrest : dim_AllDimsExcept_loop excludedDims kind (S index) rest = true).
      { apply IH. intros j type Hj Hnot. apply (Hall (S j) type Hj).
        replace (index + S j)%nat with (S index + j)%nat by lia. exact Hnot. }
      case_bool_decide as Hex; [exact Hrest|].
      rewrite bool_decide_eq_true_2; [exact Hrest|].
      apply (Hall 0%nat type0 eq_refl). rewrite Nat.add_0_r. exact Hex.
Qed.

Lemma dim_AllDimsExcept_fn_true ir excluded kind linalgOp s :
  exists result,
    dim_AllDimsExcept_IteratorType_fn ir excluded kind linalgOp s = Ok result s /\
    (result = true <->
     forall (i : nat) type,
       getIteratorTypesArray ir linalgOp !! i = Some type ->
       (forall dim, dim ∈ excluded -> normalized (getNumLoops ir linalgOp) dim <> Z.of_nat i) ->
       type = kind).
Proof.
  eexists. split; [reflexivity|].
  rewrite dim_AllDimsExcept_loop_true. split.
  - intros Hall i type Hi Hnot. apply (Hall i type Hi). cbn [Nat.add].
    rewrite elem_of_excludedDimsOf. intros (dim & Hin & Hn). exact (Hnot dim Hin Hn).
  - intros Hall j type Hj Hnot. apply (Hall j type Hj). cbn [Nat.add] in Hnot.
    intros dim Hin Hn. apply Hnot. apply elem_of_excludedDimsOf. exists dim. split; assumption.
Qed.

(** C10.  The predicate over all dimensions except an excluded set returns
    true exactly when every dimension of the op that no excluded index
    designates (after normalization) has the required kind.  It never fails
    on account of an excluded index, and the excluded indices that are out of
    [0, rank) after normalization can be dropped without changing its
    answer. *)
Theorem dim_AllDimsExcept_ignores_out_of_range ir excluded kind linalgOp s :
  exists result,
    dim_AllDimsExcept_IteratorType_fn ir excluded kind linalgOp s = Ok result s /\
    (result = true <->
     forall (i : nat) type,
       getIteratorTypesArray ir linalgOp !! i = Some type ->
       (forall dim, dim ∈ excluded -> normalized (getNumLoops ir linalgOp) dim <> Z.of_nat i) ->
       type = kind) /\
    dim_AllDimsExcept_IteratorType_fn ir
      (List.filter (inRange (getNumLoops ir linalgOp)) excluded) kind linalgOp s
    = Ok result s.
Proof.
  destruct (dim_AllDimsExcept_fn_true ir excluded kind linalgOp s) as (r & Hr & Hspec).
  destruct (dim_AllDimsExcept_fn_true ir
              (List.filter (inRange (getNumLoops ir linalgOp)) excluded) kind linalgOp s)
    as (r' & Hr' & Hspec').
  exists r. split; [exact Hr|]. split; [exact Hspec|].
  rewrite Hr'. f_equal. apply eq_true_iff_eq.
  rewrite Hspec, Hspec'. split.
  - intros Hall i type Hi Hnot. apply (Hall i type Hi).
    intros dim Hin. apply Hnot. apply list_elem_of_In, filter_In in Hin as [Hin _].
    apply list_elem_of_In, Hin.
  - intros Hall i type Hi Hnot. apply (Hall i type Hi).
    intros dim Hin Hn. apply (Hnot dim); [|exact Hn].
    apply list_elem_of_In, filter_In. split; [apply list_elem_of_In, Hin|].
    apply lookup_lt_Some in Hi. unfold inRange, getNumLoops in *. rewrite Hn.
    apply andb_true_intro. split; [apply Z.leb_le|apply Z.ltb_lt]; lia.
Qed.

(** ** The reduction pattern *)

Lemma getCaptured_writeCell m c v s : getCaptured m (writeCell c v s) = getCaptured m s.
Proof. reflexivity. Qed.
Lemma getCaptured_setCaptured_eq m op s : getCaptured m (setCaptured m op s) = Some op.
Proof. apply lookup_insert_eq. Qed.
Lemma getCaptured_setCaptured_ne m m' op s :
  m <> m' -> getCaptured m' (setCaptured m op s) = getCaptured m' s.
Proof. intros Hne. apply lookup_insert_ne, Hne. Qed.
Lemma readCell_setCaptured c m op s : readCell c (setCaptured m op s) = readCell c s.
Proof. reflexivity. Qed.
Lemma readCell_writeCell_eq c v s : readCell c (writeCell c v s) = Some v.
Proof. apply lookup_insert_eq. Qed.
Lemma readCell_writeCell_ne c c' v s :
  c <> c' -> readCell c' (writeCell c v s) = readCell c' s.
Proof. intros Hne. apply lookup_insert_ne, Hne. Qed.

(** The predicates of the reduction matcher, in registration order. *)
Lemma makeReductionMatcher_predicates ir reductionId fillId leadingId trailingId :
  let ms := makeReductionMatcher ir reductionId fillId leadingId trailingId in
  predicates (m_reduction ms) =
  [ rank_NumGreaterEqualTo_fn ir 2;
    rank_NumLowerEqualTo_fn ir 4;
    rank_CaptureStaticValue_fn ir reductionRank;
    dim_IteratorType_fn ir [-1] reduction;
    dim_CaptureStaticValue_fn ir (-2) mostMinorParallelDimensionSize;
    dim_CaptureStaticValue_fn ir (-1) reductionDimensionSize;
    dim_AllDimsExcept_IteratorType_fn ir [-1] parallel;
    input_NumEqualsTo_fn ir 1;
    input_AllOperands_IsProjectedPermutation_fn ir;
    output_NumEqualsTo_fn ir 1;
    output_AllOperands_IsProjectedPermutation_fn ir;
    output_ElementTypeBitWidth_fn ir 0 32;
    output_SingleCombinerReduction_fn ir 0;
    output_NumEqualsTo_fn ir 1;
    addOutputMatcher_fn ir 0 (match_ ir (m_fill ms)) false;
    addInputMatcher_fn ir 0 (match_ ir (m_leading ms)) true;
    addResultMatcher_fn ir 0 (match_ ir (m_trailing ms)) true;
    allTilableOpsCaptured_fn ir [reductionId; fillId; leadingId; trailingId] ].
Proof. reflexivity. Qed.

Lemma any_of_not_linalg ir m uses s :
  Forall (fun use => isLinalgClass (opClass ir (getOwner use)) = false) uses ->
  any_of (match_ ir m) (map getOwner uses) s = Ok false s.
Proof.
  induction 1 as [|use rest Huse _ IH]; [reflexivity|].
  cbn [map any_of]. unfold bind. rewrite (match_not_linalg _ _ _ _ Huse). exact IH.
Qed.

(** C9.  In the simple-reduction scenario, on matchers as
    [makeReductionMatcher] builds them (four distinct objects, null
    [captured] slots), the reduction matcher returns true on the op, and
    afterwards the captures hold rank 2, reduction size 64 and most minor
    parallel size 128; the op and the fill op are recorded. *)
Theorem makeReductionMatcher_simple_reduction
    ir op fillOp parent reductionId fillId leadingId trailingId s :
  SimpleReductionScenario ir op fillOp parent ->
  fillId <> reductionId -> fillId <> leadingId -> fillId <> trailingId ->
  getCaptured reductionId s = None ->
  getCaptured leadingId s = None ->
  getCaptured trailingId s = None ->
  exists s',
    match_ ir (m_reduction (makeReductionMatcher ir reductionId fillId leadingId trailingId))
      op s = Ok true s' /\
    readCell reductionRank s' = Some 2 /\
    readCell reductionDimensionSize s' = Some 64 /\
    readCell mostMinorParallelDimensionSize s' = Some 128 /\
    getCaptured reductionId s' = Some op /\
    getCaptured fillId s' = Some fillOp.
Proof.
  intros [Hstruct Hiter Hranges (input & Hinputs & Hinmap & Hleading)
          (output & combiner & Houtputs & Houtmap & Hbits & Hcombiner & Hproducer)
          Hfillop Hresults Husers Hparent Htilable Hdistinct]
         Hfr Hfl Hft Hred Hlead Htrail.
  set (s1 := writeCell reductionRank 2 s).
  set (s2 := writeCell mostMinorParallelDimensionSize 128 s1).
  set (s3 := writeCell reductionDimensionSize 64 s2).
  set (s4 := setCaptured fillId fillOp s3).
  assert (Hfill : getCaptured fillId s4 = Some fillOp)
    by apply getCaptured_setCaptured_eq.
  assert (Hother : forall m, fillId <> m -> getCaptured m s4 = getCaptured m s).
  { intros m Hm. unfold s4. rewrite getCaptured_setCaptured_ne by exact Hm.
    reflexivity. }
  assert (Hloops : getNumLoops ir op = 2) by (unfold getNumLoops; rewrite Hiter; reflexivity).
  assert (Hnin : getNumDpsInputs ir op = 1)
    by (unfold getNumDpsInputs; rewrite Hinputs; reflexivity).
  assert (Hnout : getNumDpsInits ir op = 1)
    by (unfold getNumDpsInits; rewrite Houtputs; reflexivity).
  exists (setCaptured reductionId op s4).
  split; [|repeat split].
  - apply match_success; [exact Hstruct|].
    rewrite makeReductionMatcher_predicates.
    (* rank >= 2, rank <= 4, capture of the rank *)
    apply (PassesAll_cons _ _ _ s s).
    { unfold rank_NumGreaterEqualTo_fn. rewrite Hloops. reflexivity. }
    apply (PassesAll_cons _ _ _ s s).
    { unfold rank_NumLowerEqualTo_fn. rewrite Hloops. reflexivity. }
    apply (PassesAll_cons _ _ _ s s1).
    { unfold rank_CaptureStaticValue_fn. rewrite Hloops. reflexivity. }
    (* dimension -1 is a reduction; captures of dimensions -2 and -1 *)
    apply (PassesAll_cons _ _ _ s1 s1).
    { unfold dim_IteratorType_fn. rewrite Hloops. cbn [dim_IteratorType_loop].
      rewrite Hiter. reflexivity. }
    apply (PassesAll_cons _ _ _ s1 s2).
    { unfold dim_CaptureStaticValue_fn. rewrite Hloops, Hranges. reflexivity. }
    apply (PassesAll_cons _ _ _ s2 s3).
    { unfold dim_CaptureStaticValue_fn. rewrite Hloops, Hranges. reflexivity. }
    (* all dimensions except -1 are parallel *)
    apply (PassesAll_cons _ _ _ s3 s3).
    { unfold dim_AllDimsExcept_IteratorType_fn. rewrite Hloops, Hiter.
      vm_compute. reflexivity. }
    (* one input, accessed through a projected permutation *)
    apply (PassesAll_cons _ _ _ s3 s3).
    { unfold input_NumEqualsTo_fn. rewrite Hnin. reflexivity. }
    apply (PassesAll_cons _ _ _ s3 s3).
    { unfold input_AllOperands_IsProjectedPermutation_fn. rewrite Hinputs.
      cbn [forallb]. rewrite Hinmap. reflexivity. }
    (* one output, projected permutation, 32 bits, single combiner *)
    apply (PassesAll_cons _ _ _ s3 s3).
    { unfold output_NumEqualsTo_fn. rewrite Hnout. reflexivity. }
    apply (PassesAll_cons _ _ _ s3 s3).
    { unfold output_AllOperands_IsProjectedPermutation_fn. rewrite Houtputs.
      cbn [forallb]. rewrite Houtmap. reflexivity. }
    apply (PassesAll_cons _ _ _ s3 s3).
    { unfold output_ElementTypeBitWidth_fn, getDpsInitOperand. rewrite Hnout, Houtputs.
      cbn [Z.leb Z.compare]. unfold bind.
      rewrite (index_Some [output] 0 output s3 eq_refl), Hbits. reflexivity. }
    apply (PassesAll_cons _ _ _ s3 s3).
    { unfold output_SingleCombinerReduction_fn. rewrite Hnout.
      cbn [Z.leb Z.ltb Z.compare]. rewrite Hcombiner. reflexivity. }
    apply (PassesAll_cons _ _ _ s3 s3).
    { unfold output_NumEqualsTo_fn. rewrite Hnout. reflexivity. }
    (* the output is produced by the fill op, which is captured *)
    apply (PassesAll_cons _ _ _ s3 s4).
    { unfold addOutputMatcher_fn, getDpsInitOperand. rewrite Hnout, Houtputs.
      cbn [Z.leb Z.compare]. unfold bind at 1.
      rewrite (index_Some [output] 0 output s3 eq_refl), Hproducer.
      unfold bind, match_. rewrite Hfillop.
      cbn [isLinalgClass m_fill makeReductionMatcher m_StructuredOp_isa predicates
           all_of matcherId].
      unfold bind, isa_fn. rewrite Hfillop. reflexivity. }
    (* optional leading op: none *)
    apply (PassesAll_cons _ _ _ s4 s4).
    { unfold addInputMatcher_fn, getDpsInputOperand. rewrite Hnin, Hinputs.
      cbn [Z.leb Z.compare]. unfold bind at 1.
      rewrite (index_Some [input] 0 input s4 eq_refl).
      destruct (getDefiningOp (get ir input)) as [producer|]; [|reflexivity].
      unfold bind. rewrite (match_not_linalg _ _ _ _ Hleading). reflexivity. }
    (* optional trailing op: none *)
    apply (PassesAll_cons _ _ _ s4 s4).
    { unfold addResultMatcher_fn, getResult. rewrite Hresults.
      cbn [Z.leb Z.ltb Z.compare andb Z.to_nat]. unfold bind, ret.
      rewrite (any_of_not_linalg _ _ _ _ Husers). reflexivity. }
    (* all tilable ops of the function are captured *)
    apply (PassesAll_cons _ _ _ s4 s4); [|constructor].
    unfold allTilableOpsCaptured_fn. rewrite Hparent.
    rewrite checkAllTilableMatched_Some. f_equal. apply bool_decide_eq_true.
    unfold capturedNodes. simpl omap.
    rewrite Hfill, !Hother, Hred, Hlead, Htrail by assumption.
    rewrite Htilable, list_to_set_cons, list_to_set_nil, (right_id_L ∅ (∪)).
    rewrite size_union by (apply disjoint_singleton_l, not_elem_of_singleton; congruence).
    rewrite !size_singleton. reflexivity.
  - rewrite readCell_setCaptured. unfold s4. rewrite readCell_setCaptured.
    unfold s3, s2, s1. rewrite !readCell_writeCell_ne by discriminate.
    apply readCell_writeCell_eq.
  - rewrite readCell_setCaptured. unfold s4. rewrite readCell_setCaptured.
    apply readCell_writeCell_eq.
  - rewrite readCell_setCaptured. unfold s4. rewrite readCell_setCaptured.
    unfold s3, s2. rewrite readCell_writeCell_ne by discriminate.
    apply readCell_writeCell_eq.
  - apply getCaptured_setCaptured_eq.
  - rewrite getCaptured_setCaptured_ne by congruence. exact Hfill.
Qed.

(** The scenario as a concrete function: constant, tensor.empty, fill, the
    2-D reduction, return; the matchers as the builder leaves them. *)
Lemma makeReductionMatcher_simple_reduction_witness :
  exists s',
    match_ SimpleReduction.ir (m_reduction SimpleReduction.matchers)
      SimpleReduction.reductionOp emptyStore = Ok true s' /\
    readCell reductionRank s' = Some 2 /\
    readCell reductionDimensionSize s' = Some 64 /\
    readCell mostMinorParallelDimensionSize s' = Some 128 /\
    getCaptured SimpleReduction.reductionId s' = Some SimpleReduction.reductionOp /\
    getCaptured SimpleReduction.fillId s' = Some SimpleReduction.fillOp.
Proof.
  apply (makeReductionMatcher_simple_reduction SimpleReduction.ir
           SimpleReduction.reductionOp SimpleReduction.fillOp SimpleReduction.func
           SimpleReduction.reductionId SimpleReduction.fillId
           SimpleReduction.leadingId SimpleReduction.trailingId emptyStore).
  - constructor.
    + reflexivity.
    + reflexivity.
    + reflexivity.
    + exists (mkOpOperand 4%nat 0%nat). repeat split; reflexivity.
    + exists (mkOpOperand 4%nat 1%nat), SimpleReduction.addf. repeat split; reflexivity.
    + reflexivity.
    + reflexivity.
    + repeat constructor.
    + reflexivity.
    + reflexivity.
    + discriminate.
  - discriminate.
  - discriminate.
  - discriminate.
  - reflexivity.
  - reflexivity.
  - reflexivity.
Defined.

(** ** Further properties of [match] *)

Lemma match_true_inv ir m op s s' :
  match_ ir m op s = Ok true s' ->
  isLinalgClass (opClass ir op) = true /\
  exists s0, PassesAll op (predicates m) s s0 /\ s' = setCaptured (matcherId m) op s0.
Proof.
  intros H. unfold match_ in H.
  destruct (isLinalgClass (opClass ir op)); [|discriminate].
  split; [reflexivity|]. unfold bind in H.
  destruct (all_of (predicates m) op s) as [[|] s0| |] eqn:Hall; try discriminate.
  injection H as <-. exists s0. split; [|reflexivity].
  apply all_of_true_passes, Hall.
Qed.

(** X1.  [match] returns true exactly on a structured op on which all
    predicates pass in registration order, and the store it leaves is the one
    left by the last predicate with the op recorded in the matcher's slot; so
    after a successful match [getCaptured] gives the op. *)
Theorem match_true_iff ir m op s s' :
  (match_ ir m op s = Ok true s' <->
   isLinalgClass (opClass ir op) = true /\
   exists s0, PassesAll op (predicates m) s s0 /\ s' = setCaptured (matcherId m) op s0) /\
  (match_ ir m op s = Ok true s' -> getCaptured (matcherId m) s' = Some op).
Proof.
  split; [split|].
  - apply match_true_inv.
  - intros (Hl & s0 & Hp & ->). apply match_success; assumption.
  - intros H. apply match_true_inv in H as (_ & s0 & _ & ->).
    apply getCaptured_setCaptured_eq.
Qed.

(** The fill matcher of the reduction pattern on the fill op. *)
Lemma match_true_iff_witness :
  getCaptured SimpleReduction.fillId
    (setCaptured SimpleReduction.fillId SimpleReduction.fillOp emptyStore)
  = Some SimpleReduction.fillOp.
Proof.
  apply (proj2 (match_true_iff SimpleReduction.ir (m_fill SimpleReduction.matchers)
                  SimpleReduction.fillOp emptyStore
                  (setCaptured SimpleReduction.fillId SimpleReduction.fillOp emptyStore))).
  reflexivity.
Defined.

(** ** Further properties of the exhaustiveness check *)

(** X2.  The answer of [checkAllTilableMatched] depends on the matcher list
    only through the set of nodes its matchers hold: order, repetitions,
    matchers with a null slot and matchers holding the root op make no
    difference. *)
Theorem checkAllTilableMatched_matcher_set ir parent linalgOp matchers matchers' s :
  (forall o, (o = linalgOp \/ exists m, m ∈ matchers /\ getCaptured m s = Some o)
             <-> (o = linalgOp \/ exists m, m ∈ matchers' /\ getCaptured m s = Some o)) ->
  checkAllTilableMatched ir parent linalgOp matchers s
  = checkAllTilableMatched ir parent linalgOp matchers' s.
Proof.
  intros Hsame. destruct parent as [parentOp|]; [|reflexivity].
  rewrite !checkAllTilableMatched_Some.
  replace (capturedNodes linalgOp matchers' s) with (capturedNodes linalgOp matchers s);
    [reflexivity|].
  apply set_eq. intros o. rewrite !elem_of_capturedNodes. apply Hsame.
Qed.

(** With only the fill op captured, the four matchers of the reduction
    pattern and the fill matcher listed twice give the same answer. *)
Lemma checkAllTilableMatched_matcher_set_witness :
  let s := setCaptured SimpleReduction.fillId SimpleReduction.fillOp emptyStore in
  checkAllTilableMatched SimpleReduction.ir (Some SimpleReduction.func)
    SimpleReduction.reductionOp
    [SimpleReduction.reductionId; SimpleReduction.fillId;
     SimpleReduction.leadingId; SimpleReduction.trailingId] s
  = checkAllTilableMatched SimpleReduction.ir (Some SimpleReduction.func)
      SimpleReduction.reductionOp [SimpleReduction.fillId; SimpleReduction.fillId] s.
Proof.
  cbv zeta. apply checkAllTilableMatched_matcher_set.
  intros o. split; (intros [->|(m & Hin & Hm)]; [left; reflexivity|]); right;
    exists SimpleReduction.fillId.
  - split; [apply list_elem_of_here|].
    repeat (apply elem_of_cons in Hin as [->|Hin]); try discriminate; [exact Hm|].
    inversion Hin.
  - split; [apply list_elem_of_further, list_elem_of_here|].
    repeat (apply elem_of_cons in Hin as [->|Hin]); try exact Hm.
    inversion Hin.
Defined.

(** ** Result predicates *)

Lemma any_of_fails_all matcher users s s' :
  FailsAll matcher users s s' -> any_of matcher users s = Ok false s'.
Proof.
  induction 1 as [s|user rest s s1 s2 Hu _ IH]; [reflexivity|].
  cbn [any_of]. unfold bind. rewrite Hu. exact IH.
Qed.

Lemma any_of_first_match matcher before user after s s1 s2 :
  FailsAll matcher before s s1 ->
  matcher user s1 = Ok true s2 ->
  any_of matcher (before ++ user :: after) s = Ok true s2.
Proof.
  induction 1 as [s|u rest s s0 s1 Hu _ IH]; intros Hm.
  - cbn [app any_of]. unfold bind. rewrite Hm. reflexivity.
  - cbn [app any_of]. unfold bind. rewrite Hu. apply IH, Hm.
Qed.

Lemma getResult_in_range ir op i s :
  0 <= i < getNumResults ir op -> getResult ir op i s = Ok (OpResult op (Z.to_nat i)) s.
Proof.
  intros Hi. unfold getResult.
  destruct (Z.leb_spec 0 i); [|lia]. destruct (Z.ltb_spec i (getNumResults ir op)); [|lia].
  reflexivity.
Qed.

(** X3.  The predicate pushed by [addResultMatcher], at a result position
    that is in range once normalized: the nested matcher is tried on the
    users of the result in use-list order.  If it fails on the users [before]
    and matches the next one, the predicate returns true with the store of
    that match, and the users after it are not tried.  If it fails on every
    user, the predicate returns the optional flag with the store left by all
    the attempts.  A position at or above the number of results is a
    non-match even when the predicate is optional. *)
Theorem result_matcher_any_use ir position matcher optional linalgOp s :
  let result := OpResult linalgOp (Z.to_nat (normalized (getNumResults ir linalgOp) position)) in
  let users := map getOwner (getUses ir result) in
  (forall before user after s1 s2,
     0 <= normalized (getNumResults ir linalgOp) position < getNumResults ir linalgOp ->
     users = before ++ user :: after ->
     FailsAll matcher before s s1 ->
     matcher user s1 = Ok true s2 ->
     addResultMatcher_fn ir position matcher optional linalgOp s = Ok true s2) /\
  (forall s1,
     0 <= normalized (getNumResults ir linalgOp) position < getNumResults ir linalgOp ->
     FailsAll matcher users s s1 ->
     addResultMatcher_fn ir position matcher optional linalgOp s = Ok optional s1) /\
  (getNumResults ir linalgOp <= normalized (getNumResults ir linalgOp) position ->
   addResultMatcher_fn ir position matcher optional linalgOp s = Ok false s).
Proof.
  cbv zeta. unfold addResultMatcher_fn.
  fold (normalized (getNumResults ir linalgOp) position).
  split; [|split].
  - intros before user after s1 s2 Hr Husers Hfail Hm.
    destruct (Z.leb_spec (getNumResults ir linalgOp)
                (normalized (getNumResults ir linalgOp) position)); [lia|].
    unfold bind at 1. rewrite (getResult_in_range _ _ _ _ Hr).
    unfold bind. rewrite Husers, (any_of_first_match _ _ _ _ _ _ _ Hfail Hm). reflexivity.
  - intros s1 Hr Hfail.
    destruct (Z.leb_spec (getNumResults ir linalgOp)
                (normalized (getNumResults ir linalgOp) position)); [lia|].
    unfold bind at 1. rewrite (getResult_in_range _ _ _ _ Hr).
    unfold bind. rewrite (any_of_fails_all _ _ _ _ Hfail). reflexivity.
  - intros Hout.
    destruct (Z.leb_spec (getNumResults ir linalgOp)
                (normalized (getNumResults ir linalgOp) position)); [reflexivity|lia].
Qed.

(** The result of the fill op of the simple reduction is used by the
    reduction: a nested matcher that captures the rank and accepts generic
    ops matches that user.  The result of the reduction is only returned: the
    optional predicate with the same nested matcher returns true.  The
    return op has no result: position 0 is a non-match. *)
Lemma result_matcher_any_use_witness :
  let nested := match_ SimpleReduction.ir
                  (mkMatcher 9%nat [isa_fn SimpleReduction.ir LinalgGenericOp;
                                    rank_CaptureStaticValue_fn SimpleReduction.ir "a"] []) in
  addResultMatcher_fn SimpleReduction.ir (-1) nested false SimpleReduction.fillOp emptyStore
    = Ok true (setCaptured 9%nat SimpleReduction.reductionOp (writeCell "a" 2 emptyStore)) /\
  addResultMatcher_fn SimpleReduction.ir 0 nested true SimpleReduction.reductionOp emptyStore
    = Ok true emptyStore /\
  addResultMatcher_fn SimpleReduction.ir 0 nested true SimpleReduction.returnOp emptyStore
    = Ok false emptyStore.
Proof.
  cbv zeta. split; [|split].
  - apply (proj1 (result_matcher_any_use SimpleReduction.ir (-1) _ false
                    SimpleReduction.fillOp emptyStore)
             [] SimpleReduction.reductionOp [] emptyStore).
    + vm_compute. intuition discriminate.
    + reflexivity.
    + constructor.
    + reflexivity.
  - apply (proj1 (proj2 (result_matcher_any_use SimpleReduction.ir 0 _ true
                           SimpleReduction.reductionOp emptyStore))).
    + vm_compute. intuition discriminate.
    + econstructor; [reflexivity|constructor].
  - apply (proj2 (proj2 (result_matcher_any_use SimpleReduction.ir 0 _ true
                           SimpleReduction.returnOp emptyStore))).
    vm_compute. discriminate.
Defined.

(** ** Further properties of the subset traversals *)

(** X4.  The backward traversal never returns an [extract_slice] op (an op
    without region, so that no block has one as its parent): the nested
    matcher of a "subset of" predicate is never handed one. *)
Theorem traverseSubsetsBackwards_not_slice ir fuel val op :
  (forall block blockOp, getParentOp ir block = Some blockOp ->
                         opClass ir blockOp <> ExtractSliceOp) ->
  traverseSubsetsBackwards ir fuel val = Returns op ->
  opClass ir op <> ExtractSliceOp.
Proof.
  intros Hblocks. revert val. induction fuel as [|fuel IH]; intros val H; [discriminate|].
  cbn [traverseSubsetsBackwards] in H. destruct val as [o n|block n].
  - case_bool_decide as Hc; [apply (IH _ H)|]. injection H as <-. exact Hc.
  - destruct (getParentOp ir block) as [blockOp|] eqn:Hparent; [|discriminate].
    case_bool_decide as Hc.
    + destruct (getTiedOpOperand ir blockOp (BlockArgument block n)) as [operand|];
        [apply (IH _ H)|discriminate].
    + injection H as <-. apply (Hblocks _ _ Hparent).
Qed.

(** From the slice [%s] the traversal goes to its source [%v] and returns
    the producer, op 1. *)
Lemma traverseSubsetsBackwards_not_slice_witness :
  traverseSubsetsBackwards Slices.ir 2 (OpResult 2%nat 0%nat) = Returns 1%nat /\
  opClass Slices.ir 1%nat <> ExtractSliceOp.
Proof.
  split; [reflexivity|].
  apply (traverseSubsetsBackwards_not_slice Slices.ir 2 (OpResult 2%nat 0%nat) 1%nat).
  - intros block blockOp H. injection H as <-. discriminate.
  - reflexivity.
Defined.

Lemma traverseSubsetsBackwards_more_fuel ir fuel :
  forall val more,
    traverseSubsetsBackwards ir fuel val <> Loops ->
    traverseSubsetsBackwards ir (fuel + more) val = traverseSubsetsBackwards ir fuel val.
Proof.
  induction fuel as [|fuel IH]; intros val more H; [contradiction H; reflexivity|].
  cbn [Nat.add traverseSubsetsBackwards] in *. destruct val as [op n|blk n].
  - case_bool_decide; [apply IH, H|reflexivity].
  - destruct (getParentOp ir blk) as [blockOp|]; [|reflexivity].
    case_bool_decide; [|reflexivity].
    destruct (getTiedOpOperand ir blockOp (BlockArgument blk n)) as [operand|];
      [apply IH, H|reflexivity].
Qed.

(** X5.  The backward traversal terminates on every graph in which the
    values it steps through decrease for some measure (no cycle through
    slices and loop outputs): with a bound above the measure of the value it
    returns an op or fails an assertion, and a larger bound gives the same
    answer. *)
Theorem traverseSubsetsBackwards_terminates ir (depth : Value -> nat) :
  (forall op n, opClass ir op = ExtractSliceOp ->
                (depth (getSource ir op) < depth (OpResult op n))%nat) ->
  (forall blk n loop operand,
     getParentOp ir blk = Some loop ->
     opClass ir loop = ForeachThreadOp ->
     getTiedOpOperand ir loop (BlockArgument blk n) = Some operand ->
     (depth (get ir operand) < depth (BlockArgument blk n))%nat) ->
  forall fuel val,
    (depth val < fuel)%nat ->
    traverseSubsetsBackwards ir fuel val <> Loops /\
    forall fuel', (fuel <= fuel')%nat ->
      traverseSubsetsBackwards ir fuel' val = traverseSubsetsBackwards ir fuel val.
Proof.
  intros Hslice Hloop fuel val Hfuel.
  pose proof (traverseSubsetsBackwards_exits ir depth Hslice Hloop fuel val Hfuel) as Hexit.
  split; [exact Hexit|]. intros fuel' Hle.
  replace fuel' with (fuel + (fuel' - fuel))%nat by lia.
  apply traverseSubsetsBackwards_more_fuel, Hexit.
Qed.

(** In the loop graph every step of the backward traversal goes from an
    output block argument of a loop to a value defined outside of it. *)
Lemma traverseSubsetsBackwards_terminates_witness :
  traverseSubsetsBackwards LoopOutputs.ir 2 (BlockArgument 20%nat 2%nat) <> Loops /\
  forall fuel', (2 <= fuel')%nat ->
    traverseSubsetsBackwards LoopOutputs.ir fuel' (BlockArgument 20%nat 2%nat)
    = traverseSubsetsBackwards LoopOutputs.ir 2 (BlockArgument 20%nat 2%nat).
Proof.
  apply (traverseSubsetsBackwards_terminates LoopOutputs.ir
           (fun v => match v with BlockArgument (S _) _ => 1%nat | _ => 0%nat end)).
  - intros op n Hc. exfalso. revert Hc. cbn.
    do 21 (destruct op as [|op]; [discriminate|]). discriminate.
  - intros blk n loop operand Hparent Hclass Htied.
    destruct n as [|n]; [discriminate|]. cbn in Htied.
    case_bool_decide; [|discriminate]. injection Htied as <-. subst loop.
    assert (Hblk : blk = 10%nat \/ blk = 20%nat).
    { clear Hclass. revert Hparent. cbn.
      do 21 (destruct blk as [|blk]; [first [discriminate | auto]|]). discriminate. }
    destruct Hblk as [-> | ->]; destruct n as [|[|[|n]]]; cbn; lia.
  - cbn. lia.
Defined.

Lemma forUses_not_slice ir uses :
  forall val op, forUses ir uses val = Return (Returns op) -> opClass ir op <> ExtractSliceOp.
Proof.
  induction uses as [|use rest IH]; intros val op H; [discriminate|].
  cbn [forUses] in H. case_bool_decide as Hloop.
  - destruct (find_if_not_tied ir (getOwner use) use
                (getOutputBlockArguments ir (getOwner use))) as [[it|]|];
      [apply (IH _ _ H)| |discriminate].
    injection H as <-. congruence.
  - case_bool_decide as Hslice; [apply (IH _ _ H)|]. injection H as <-. exact Hslice.
Qed.

(** X6.  The forward traversal never returns an [extract_slice] op. *)
Theorem traverseSubsetsForwardAnyUse_not_slice ir fuel val op :
  traverseSubsetsForwardAnyUse ir fuel val = Returns op ->
  opClass ir op <> ExtractSliceOp.
Proof.
  revert val. induction fuel as [|fuel IH]; intros val H; [discriminate|].
  cbn [traverseSubsetsForwardAnyUse] in H.
  destruct (forUses ir (getUses ir val) val) as [val'|t] eqn:Hfor; [apply (IH _ H)|].
  subst t. apply (forUses_not_slice _ _ _ _ Hfor).
Qed.

Lemma traverseSubsetsForwardAnyUse_not_slice_witness :
  opClass SimpleReduction.ir SimpleReduction.returnOp <> ExtractSliceOp.
Proof.
  apply (traverseSubsetsForwardAnyUse_not_slice SimpleReduction.ir 1
           (OpResult SimpleReduction.reductionOp 0%nat) SimpleReduction.returnOp).
  reflexivity.
Defined.

Lemma forUses_skips_slices ir slices use rest :
  Forall (fun u => opClass ir (getOwner u) = ExtractSliceOp) slices ->
  opClass ir (getOwner use) <> ForeachThreadOp ->
  opClass ir (getOwner use) <> ExtractSliceOp ->
  forall val, forUses ir (slices ++ use :: rest) val = Return (Returns (getOwner use)).
Proof.
  intros Hslices Hnl Hns. induction Hslices as [|u slices Hu _ IH]; intros val.
  - cbn [app forUses]. rewrite !bool_decide_eq_false_2 by assumption. reflexivity.
  - cbn [app forUses]. rewrite bool_decide_eq_false_2 by congruence.
    rewrite bool_decide_eq_true_2 by exact Hu. apply IH.
Qed.

(** X7.  The forward traversal looks for a direct user first: when the uses
    of the value are some [extract_slice] ops followed by a use by an op that
    is neither a slice nor a loop, that op is returned; the slices before it
    are not followed, and the uses after it are not looked at. *)
Theorem traverseSubsetsForwardAnyUse_direct_user ir fuel val slices use rest :
  getUses ir val = slices ++ use :: rest ->
  Forall (fun u => opClass ir (getOwner u) = ExtractSliceOp) slices ->
  opClass ir (getOwner use) <> ForeachThreadOp ->
  opClass ir (getOwner use) <> ExtractSliceOp ->
  traverseSubsetsForwardAnyUse ir (S fuel) val = Returns (getOwner use).
Proof.
  intros Huses Hslices Hnl Hns. cbn [traverseSubsetsForwardAnyUse].
  rewrite Huses, (forUses_skips_slices _ _ _ _ Hslices Hnl Hns). reflexivity.
Qed.

(** The value [%v] has a slice as first use and op 3 as second use: op 3 is
    returned, not the user of the slice. *)
Lemma traverseSubsetsForwardAnyUse_direct_user_witness :
  traverseSubsetsForwardAnyUse Slices.ir 1 (OpResult 1%nat 0%nat) = Returns 3%nat.
Proof.
  apply (traverseSubsetsForwardAnyUse_direct_user Slices.ir 0 (OpResult 1%nat 0%nat)
           [mkOpOperand 2%nat 0%nat] (mkOpOperand 3%nat 0%nat) []).
  - reflexivity.
  - repeat constructor.
  - discriminate.
  - discriminate.
Defined.

(** ** Further properties of the dimension predicates *)

Lemma index_in_range {A} (l : list A) i s :
  0 <= i < Z.of_nat (length l) -> exists a, at_index l i = Some a /\ index l i s = Ok a s.
Proof.
  intros Hi. unfold index, at_index. destruct (Z.ltb_spec i 0); [lia|].
  destruct (lookup_lt_is_Some_2 l (Z.to_nat i)) as [a Ha]; [lia|].
  exists a. rewrite Ha. split; reflexivity.
Qed.

Lemma at_index_out_of_range {A} (l : list A) i :
  ~ 0 <= i < Z.of_nat (length l) -> at_index l i = None.
Proof.
  intros Hi. unfold at_index. destruct (Z.ltb_spec i 0); [reflexivity|].
  apply lookup_ge_None. lia.
Qed.

Lemma dim_IteratorType_loop_spec ir linalgOp kind dims s :
  exists b,
    dim_IteratorType_loop ir linalgOp (getNumLoops ir linalgOp) kind dims s = Ok b s /\
    (b = true <->
     forall d, d ∈ dims ->
       at_index (getIteratorTypesArray ir linalgOp)
                (normalized (getNumLoops ir linalgOp) d) = Some kind).
Proof.
  induction dims as [|d rest (b & Hb & Hspec)].
  - exists true. split; [reflexivity|]. split; [|reflexivity].
    intros _ d Hd. inversion Hd.
  - cbn [dim_IteratorType_loop]. fold (normalized (getNumLoops ir linalgOp) d).
    set (t := normalized (getNumLoops ir linalgOp) d).
    destruct (Z.ltb_spec t 0) as [Hneg|Hpos]; cbn [orb].
    { exists false. split; [reflexivity|]. split; [discriminate|]. intros Hall.
      specialize (Hall d (list_elem_of_here _ _)). fold t in Hall.
      rewrite at_index_out_of_range in Hall by lia. discriminate. }
    destruct (Z.leb_spec (getNumLoops ir linalgOp) t) as [Hhigh|Hlow].
    { exists false. split; [reflexivity|]. split; [discriminate|]. intros Hall.
      specialize (Hall d (list_elem_of_here _ _)). fold t in Hall.
      rewrite at_index_out_of_range in Hall by (unfold getNumLoops in Hhigh; lia).
      discriminate. }
    destruct (index_in_range (getIteratorTypesArray ir linalgOp) t s) as (type & Hat & Hidx);
      [unfold getNumLoops in Hlow; lia|].
    unfold bind. rewrite Hidx. case_bool_decide as Hk.
    + exists b. split; [exact Hb|]. rewrite Hspec. split.
      * intros Hall d' Hd'. apply elem_of_cons in Hd' as [->|Hd'];
          [fold t; rewrite Hat, Hk; reflexivity|apply Hall, Hd'].
      * intros Hall d' Hd'. apply Hall, list_elem_of_further, Hd'.
    + exists false. split; [reflexivity|]. split; [discriminate|]. intros Hall.
      specialize (Hall d (list_elem_of_here _ _)). fold t in Hall.
      rewrite Hat in Hall. congruence.
Qed.

Lemma dim_IteratorType_fn_returns ir dims kind linalgOp s :
  exists b,
    dim_IteratorType_fn ir dims kind linalgOp s = Ok b s /\
    (b = true <->
     forall d, d ∈ dims ->
       at_index (getIteratorTypesArray ir linalgOp)
                (normalized (getNumLoops ir linalgOp) d) = Some kind).
Proof. apply dim_IteratorType_loop_spec. Qed.

(** X8.  The iteration-kind predicate over a list of dimensions always
    returns, leaves the store alone, and returns true exactly when every
    listed dimension is in range once normalized and has the required kind
    (so true on the empty list). *)
Theorem dim_IteratorType_fn_spec ir dims kind linalgOp s :
  exists b,
    dim_IteratorType_fn ir dims kind linalgOp s = Ok b s /\
    (b = true <->
     forall d, d ∈ dims ->
       at_index (getIteratorTypesArray ir linalgOp)
                (normalized (getNumLoops ir linalgOp) d) = Some kind).
Proof.
  unfold dim_IteratorType_fn.
  destruct (dim_IteratorType_loop_spec ir linalgOp kind dims s) as (b & Hb & Hspec).
  exists b. split; [exact Hb|exact Hspec].
Qed.

Lemma shapeKind_test kDynamic size kind :
  xorb (isDynamic kDynamic size) (bool_decide (kind = Static)) = true
  <-> shapeKindOf kDynamic size = kind.
Proof.
  unfold isDynamic, shapeKindOf. destruct (size =? kDynamic); destruct kind; cbn;
    split; intros H; try reflexivity; try discriminate.
Qed.

Lemma dim_ShapeKind_loop_spec kDynamic shape kind dims s :
  Forall (fun d => INT64_MIN <= d <= INT64_MAX) dims ->
  Z.of_nat (length shape) <= INT64_MAX ->
  exists b,
    dim_ShapeKind_loop kDynamic shape kind dims s = Ok b s /\
    (b = true <->
     forall d, d ∈ dims ->
       exists size, at_index shape (normalized (Z.of_nat (length shape)) d) = Some size /\
                    shapeKindOf kDynamic size = kind).
Proof.
  intros Hdims Hlen. induction Hdims as [|d rest Hd _ (b & Hb & Hspec)].
  - exists true. split; [reflexivity|]. split; [|reflexivity].
    intros _ d Hd. inversion Hd.
  - cbn [dim_ShapeKind_loop].
    assert (Ht : (if 0 <=? d then d else addSizeInt64 (length shape) d)
                 = normalized (Z.of_nat (length shape)) d).
    { unfold normalized. destruct (Z.leb_spec 0 d); [reflexivity|].
      apply addSizeInt64_negative; lia. }
    rewrite Ht. set (t := normalized (Z.of_nat (length shape)) d).
    destruct (Z.ltb_spec t 0) as [Hneg|Hpos]; cbn [orb].
    { exists false. split; [reflexivity|]. split; [discriminate|]. intros Hall.
      destruct (Hall d (list_elem_of_here _ _)) as (size & Hat & _). fold t in Hat.
      rewrite at_index_out_of_range in Hat by lia. discriminate. }
    destruct (Z.leb_spec (Z.of_nat (length shape)) t) as [Hhigh|Hlow].
    { exists false. split; [reflexivity|]. split; [discriminate|]. intros Hall.
      destruct (Hall d (list_elem_of_here _ _)) as (size & Hat & _). fold t in Hat.
      rewrite at_index_out_of_range in Hat by lia. discriminate. }
    destruct (index_in_range shape t s) as (size & Hat & Hidx); [lia|].
    unfold bind. rewrite Hidx.
    destruct (xorb (isDynamic kDynamic size) (bool_decide (kind = Static))) eqn:Hx.
    + apply shapeKind_test in Hx.
      exists b. split; [exact Hb|]. rewrite Hspec. split.
      * intros Hall d' Hd'. apply elem_of_cons in Hd' as [->|Hd'];
          [exists size; fold t; split; assumption|apply Hall, Hd'].
      * intros Hall d' Hd'. apply Hall, list_elem_of_further, Hd'.
    + exists false. split; [reflexivity|]. split; [discriminate|]. intros Hall.
      destruct (Hall d (list_elem_of_here _ _)) as (size' & Hat' & Hk). fold t in Hat'.
      rewrite Hat in Hat'. injection Hat' as <-.
      apply shapeKind_test in Hk. congruence.
Qed.

Lemma dim_ShapeKind_fn_returns ir kDynamic dims kind linalgOp s :
  Forall (fun d => INT64_MIN <= d <= INT64_MAX) dims ->
  Z.of_nat (length (getStaticLoopRanges ir linalgOp)) <= INT64_MAX ->
  exists b,
    dim_ShapeKind_fn ir kDynamic dims kind linalgOp s = Ok b s /\
    (b = true <->
     forall d, d ∈ dims ->
       exists size,
         at_index (getStaticLoopRanges ir linalgOp)
                  (normalized (Z.of_nat (length (getStaticLoopRanges ir linalgOp))) d)
         = Some size /\
         shapeKindOf kDynamic size = kind).
Proof. intros Hdims Hlen. apply dim_ShapeKind_loop_spec; assumption. Qed.

(** X9.  The shape-kind predicate over a list of dimensions (64-bit
    indices, as many loop ranges as a signed 64-bit integer can count)
    always returns, leaves the store alone, and returns true exactly when
    every listed dimension is in range once normalized and its loop range has
    the required shape kind. *)
Theorem dim_ShapeKind_fn_spec ir kDynamic dims kind linalgOp s :
  Forall (fun d => INT64_MIN <= d <= INT64_MAX) dims ->
  Z.of_nat (length (getStaticLoopRanges ir linalgOp)) <= INT64_MAX ->
  exists b,
    dim_ShapeKind_fn ir kDynamic dims kind linalgOp s = Ok b s /\
    (b = true <->
     forall d, d ∈ dims ->
       exists size,
         at_index (getStaticLoopRanges ir linalgOp)
                  (normalized (Z.of_nat (length (getStaticLoopRanges ir linalgOp))) d)
         = Some size /\
         shapeKindOf kDynamic size = kind).
Proof.
  intros Hdims Hlen. unfold dim_ShapeKind_fn.
  destruct (dim_ShapeKind_loop_spec kDynamic (getStaticLoopRanges ir linalgOp) kind dims s
              Hdims Hlen) as (b & Hb & Hspec).
  exists b. split; [exact Hb|exact Hspec].
Qed.

(** Dimensions 0 and -1 of the simple reduction are static (the marker of
    dynamic sizes being [INT64_MIN]). *)
Lemma dim_ShapeKind_fn_spec_witness :
  exists b,
    dim_ShapeKind_fn SimpleReduction.ir INT64_MIN [0; -1] Static
      SimpleReduction.reductionOp emptyStore = Ok b emptyStore /\
    (b = true <->
     forall d, d ∈ [0; -1] ->
       exists size,
         at_index (getStaticLoopRanges SimpleReduction.ir SimpleReduction.reductionOp)
           (normalized (Z.of_nat (length (getStaticLoopRanges SimpleReduction.ir
                                            SimpleReduction.reductionOp))) d)
         = Some size /\
         shapeKindOf INT64_MIN size = Static).
Proof.
  apply (dim_ShapeKind_fn_spec SimpleReduction.ir INT64_MIN [0; -1] Static
           SimpleReduction.reductionOp emptyStore).
  - repeat constructor; vm_compute; discriminate.
  - vm_compute. discriminate.
Defined.

Lemma elem_of_allDims rank d :
  d ∈ allDims rank <-> exists i : nat, d = Z.of_nat i /\ (i < rank)%nat.
Proof.
  unfold allDims. rewrite list_elem_of_fmap. split.
  - intros (i & -> & Hi). exists i. split; [reflexivity|].
    apply elem_of_seq in Hi. lia.
  - intros (i & -> & Hi). exists i. split; [reflexivity|].
    apply elem_of_seq. lia.
Qed.

Lemma allDims_int64 rank :
  Z.of_nat rank <= INT64_MAX ->
  Forall (fun d => INT64_MIN <= d <= INT64_MAX) (allDims rank).
Proof.
  intros Hr. apply Forall_forall. intros d Hd.
  apply elem_of_allDims in Hd as (i & -> & Hi). unfold INT64_MIN, INT64_MAX in *. lia.
Qed.

Lemma at_index_of_nat {A} (l : list A) (i : nat) : at_index l (Z.of_nat i) = l !! i.
Proof.
  unfold at_index. destruct (Z.ltb_spec (Z.of_nat i) 0); [lia|].
  rewrite Nat2Z.id. reflexivity.
Qed.

Lemma normalized_nonneg size d : 0 <= d -> normalized size d = d.
Proof. intros Hd. unfold normalized. destruct (Z.leb_spec 0 d); [reflexivity|lia]. Qed.

Lemma normalized_negative size d : d < 0 -> normalized size d = size + d.
Proof. intros Hd. unfold normalized. destruct (Z.leb_spec 0 d); [lia|reflexivity]. Qed.

(** X10.  "All dimensions have the shape kind" is the list predicate on the
    dimensions [0 .. rank-1]: both return the same answer. *)
Theorem dim_AllDims_ShapeKind_as_list ir kDynamic kind linalgOp s :
  Z.of_nat (length (getStaticLoopRanges ir linalgOp)) <= INT64_MAX ->
  dim_AllDims_ShapeKind_fn ir kDynamic kind linalgOp s
  = dim_ShapeKind_fn ir kDynamic (allDims (length (getStaticLoopRanges ir linalgOp)))
      kind linalgOp s.
Proof.
  intros Hlen.
  destruct (dim_ShapeKind_fn_returns ir kDynamic
              (allDims (length (getStaticLoopRanges ir linalgOp))) kind linalgOp s
              (allDims_int64 _ Hlen) Hlen) as (b & Hb & Hspec).
  rewrite Hb. unfold dim_AllDims_ShapeKind_fn, ret. f_equal.
  apply eq_true_iff_eq. rewrite Hspec, forallb_forall. split.
  - intros Hall d Hd. apply elem_of_allDims in Hd as (i & -> & Hi).
    rewrite normalized_nonneg by lia. rewrite at_index_of_nat.
    destruct (lookup_lt_is_Some_2 (getStaticLoopRanges ir linalgOp) i Hi) as [size Hsize].
    exists size. split; [exact Hsize|]. apply shapeKind_test, Hall.
    apply list_elem_of_In, list_elem_of_lookup. exists i. exact Hsize.
  - intros Hall size Hin.
    apply list_elem_of_In, list_elem_of_lookup in Hin as [i Hi].
    destruct (Hall (Z.of_nat i)) as (size' & Hat & Hk).
    { apply elem_of_allDims. exists i. split; [reflexivity|].
      apply lookup_lt_Some in Hi. exact Hi. }
    rewrite normalized_nonneg, at_index_of_nat, Hi in Hat by lia.
    injection Hat as <-. apply shapeKind_test, Hk.
Qed.

Lemma dim_AllDims_ShapeKind_as_list_witness :
  dim_AllDims_ShapeKind_fn SimpleReduction.ir INT64_MIN Static
    SimpleReduction.reductionOp emptyStore
  = dim_ShapeKind_fn SimpleReduction.ir INT64_MIN [0; 1] Static
      SimpleReduction.reductionOp emptyStore.
Proof.
  apply (dim_AllDims_ShapeKind_as_list SimpleReduction.ir INT64_MIN Static
           SimpleReduction.reductionOp emptyStore).
  vm_compute. discriminate.
Defined.

Lemma elem_of_nonExcludedDims rank excluded d :
  d ∈ nonExcludedDims rank excluded
  <-> exists i : nat, d = Z.of_nat i /\ (i < rank)%nat /\
        forall dim, dim ∈ excluded -> normalized (Z.of_nat rank) dim <> Z.of_nat i.
Proof.
  unfold nonExcludedDims. rewrite list_elem_of_In, filter_In, <- list_elem_of_In.
  rewrite elem_of_allDims, negb_true_iff, bool_decide_eq_false, list_elem_of_fmap. split.
  - intros ((i & -> & Hi) & Hnot). exists i. split; [reflexivity|]. split; [exact Hi|].
    intros dim Hdim Heq. apply Hnot. exists dim. split; [symmetry; exact Heq|exact Hdim].
  - intros (i & -> & Hi & Hnot). split; [exists i; split; [reflexivity|exact Hi]|].
    intros (dim & Heq & Hdim). apply (Hnot dim Hdim). symmetry. exact Heq.
Qed.

(** X11.  "All dimensions except the excluded ones have the kind" is the
    list predicate on the dimensions of [0 .. rank-1] that no excluded index
    designates once normalized; "all dimensions have the kind" is the list
    predicate on [0 .. rank-1]. *)
Theorem dim_AllDimsExcept_as_list ir excluded kind linalgOp s :
  let rank := length (getIteratorTypesArray ir linalgOp) in
  dim_AllDimsExcept_IteratorType_fn ir excluded kind linalgOp s
    = dim_IteratorType_fn ir (nonExcludedDims rank excluded) kind linalgOp s /\
  dim_AllDimsExcept_IteratorType_fn ir [] kind linalgOp s
    = dim_IteratorType_fn ir (allDims rank) kind linalgOp s.
Proof.
  cbv zeta.
  assert (Hgen : forall excluded',
    dim_AllDimsExcept_IteratorType_fn ir excluded' kind linalgOp s
    = dim_IteratorType_fn ir
        (nonExcludedDims (length (getIteratorTypesArray ir linalgOp)) excluded')
        kind linalgOp s).
  { intros excluded'.
    destruct (dim_AllDimsExcept_fn_true ir excluded' kind linalgOp s) as (b & Hb & Hspec).
    destruct (dim_IteratorType_fn_returns ir
                (nonExcludedDims (length (getIteratorTypesArray ir linalgOp)) excluded')
                kind linalgOp s) as (b' & Hb' & Hspec').
    rewrite Hb, Hb'. f_equal. apply eq_true_iff_eq. rewrite Hspec, Hspec'. split.
    - intros Hall d Hd. apply elem_of_nonExcludedDims in Hd as (i & -> & Hi & Hnot).
      rewrite normalized_nonneg, at_index_of_nat by lia.
      destruct (lookup_lt_is_Some_2 (getIteratorTypesArray ir linalgOp) i Hi) as [type Ht].
      rewrite Ht. f_equal. apply (Hall i type Ht). exact Hnot.
    - intros Hall i type Hi Hnot.
      specialize (Hall (Z.of_nat i)).
      rewrite normalized_nonneg, at_index_of_nat, Hi in Hall by lia.
      assert (Hin : Z.of_nat i ∈ nonExcludedDims (length (getIteratorTypesArray ir linalgOp))
                                   excluded').
      { apply elem_of_nonExcludedDims. exists i. split; [reflexivity|].
        split; [apply lookup_lt_Some in Hi; exact Hi|exact Hnot]. }
      specialize (Hall Hin). congruence. }
  split; [apply Hgen|]. rewrite Hgen. f_equal.
  unfold nonExcludedDims. cbn [map].
  induction (allDims (length (getIteratorTypesArray ir linalgOp))) as [|d l IH];
    [reflexivity|].
  cbn [List.filter]. rewrite bool_decide_eq_false_2 by (intros Hin; inversion Hin).
  cbn [negb]. rewrite IH. reflexivity.
Qed.

(** X12.  A negative dimension index designates the same dimension as the
    index counted from the front: for [-rank <= d < 0] each dimension
    predicate behaves at [d] as at [rank + d]. *)
Theorem dim_negative_index ir kDynamic d rest kind shapeKind divisibleBy capture linalgOp s :
  - getNumLoops ir linalgOp <= d < 0 ->
  getNumLoops ir linalgOp <= INT64_MAX ->
  length (getStaticLoopRanges ir linalgOp) = length (getIteratorTypesArray ir linalgOp) ->
  dim_IteratorType_fn ir (d :: rest) kind linalgOp s
    = dim_IteratorType_fn ir (getNumLoops ir linalgOp + d :: rest) kind linalgOp s /\
  dim_ShapeKind_fn ir kDynamic (d :: rest) shapeKind linalgOp s
    = dim_ShapeKind_fn ir kDynamic (getNumLoops ir linalgOp + d :: rest) shapeKind linalgOp s /\
  dim_DivisibleBy_fn ir kDynamic d divisibleBy linalgOp s
    = dim_DivisibleBy_fn ir kDynamic (getNumLoops ir linalgOp + d) divisibleBy linalgOp s /\
  dim_CaptureStaticValue_fn ir d capture linalgOp s
    = dim_CaptureStaticValue_fn ir (getNumLoops ir linalgOp + d) capture linalgOp s.
Proof.
  intros Hd Hmax Hlen.
  assert (Hneg : (0 <=? d) = false) by (apply Z.leb_gt; lia).
  assert (Hpos : (0 <=? getNumLoops ir linalgOp + d) = true) by (apply Z.leb_le; lia).
  split; [|split; [|split]].
  - unfold dim_IteratorType_fn. cbn [dim_IteratorType_loop]. rewrite Hneg, Hpos. reflexivity.
  - unfold dim_ShapeKind_fn. cbn [dim_ShapeKind_loop]. rewrite Hneg, Hpos.
    assert (Hn : Z.of_nat (length (getStaticLoopRanges ir linalgOp)) = getNumLoops ir linalgOp)
      by (unfold getNumLoops; rewrite Hlen; reflexivity).
    rewrite addSizeInt64_negative by (unfold INT64_MIN, INT64_MAX in *; lia).
    rewrite Hn. reflexivity.
  - unfold dim_DivisibleBy_fn. rewrite Hneg, Hpos. reflexivity.
  - unfold dim_CaptureStaticValue_fn. rewrite Hneg, Hpos. reflexivity.
Qed.

(** Dimension -1 of the simple reduction is dimension 1. *)
Lemma dim_negative_index_witness :
  dim_CaptureStaticValue_fn SimpleReduction.ir (-1) "cell" SimpleReduction.reductionOp emptyStore
  = dim_CaptureStaticValue_fn SimpleReduction.ir 1 "cell" SimpleReduction.reductionOp emptyStore.
Proof.
  apply (proj2 (proj2 (proj2 (dim_negative_index SimpleReduction.ir INT64_MIN (-1) []
           reduction Static 1 "cell" SimpleReduction.reductionOp emptyStore
           ltac:(vm_compute; intuition discriminate) ltac:(vm_compute; discriminate)
           eq_refl)))).
Defined.

(** X13.  The divisibility predicate on one dimension.  An index at or
    above the rank once normalized is a non-match.  For an index in range and
    a positive divisor it returns true exactly when the loop range is static
    and a multiple of the divisor.  For a static loop range and divisor 0 it
    divides by zero. *)
Theorem dim_DivisibleBy_fn_spec ir kDynamic dimension divisibleBy linalgOp s :
  let t := normalized (getNumLoops ir linalgOp) dimension in
  (getNumLoops ir linalgOp <= t ->
   dim_DivisibleBy_fn ir kDynamic dimension divisibleBy linalgOp s = Ok false s) /\
  (forall size,
     t < getNumLoops ir linalgOp ->
     at_index (getStaticLoopRanges ir linalgOp) t = Some size ->
     0 < divisibleBy ->
     exists b,
       dim_DivisibleBy_fn ir kDynamic dimension divisibleBy linalgOp s = Ok b s /\
       (b = true <-> size <> kDynamic /\ (divisibleBy | size))) /\
  (forall size,
     t < getNumLoops ir linalgOp ->
     at_index (getStaticLoopRanges ir linalgOp) t = Some size ->
     size <> kDynamic ->
     divisibleBy = 0 ->
     dim_DivisibleBy_fn ir kDynamic dimension divisibleBy linalgOp s = Fault).
Proof.
  cbv zeta. unfold dim_DivisibleBy_fn.
  fold (normalized (getNumLoops ir linalgOp) dimension).
  set (t := normalized (getNumLoops ir linalgOp) dimension).
  split; [|split].
  - intros Hhigh. destruct (Z.leb_spec (getNumLoops ir linalgOp) t); [reflexivity|lia].
  - intros size Hlow Hat Hdiv.
    destruct (Z.leb_spec (getNumLoops ir linalgOp) t); [lia|].
    unfold bind. rewrite (index_Some _ _ _ _ Hat). unfold isDynamic.
    destruct (Z.eqb_spec size kDynamic) as [->|Hstatic].
    + exists false. split; [reflexivity|]. split; [discriminate|].
      intros [Hne _]. congruence.
    + destruct (Z.eqb_spec divisibleBy 0); [lia|].
      destruct (Z.eqb_spec divisibleBy (-1)); [lia|].
      rewrite andb_false_r. cbn [orb]. unfold ret.
      exists (Z.rem size divisibleBy =? 0). split; [reflexivity|].
      rewrite Z.eqb_eq, Z.rem_divide by lia. tauto.
  - intros size Hlow Hat Hstatic ->.
    destruct (Z.leb_spec (getNumLoops ir linalgOp) t); [lia|].
    unfold bind. rewrite (index_Some _ _ _ _ Hat). unfold isDynamic.
    destruct (Z.eqb_spec size kDynamic); [congruence|]. reflexivity.
Qed.

(** The reduction dimension of the simple reduction has size 64, a multiple
    of 32 (the warp size). *)
Lemma dim_DivisibleBy_fn_spec_witness :
  exists b,
    dim_DivisibleBy_fn SimpleReduction.ir INT64_MIN (-1) 32 SimpleReduction.reductionOp
      emptyStore = Ok b emptyStore /\
    (b = true <-> 64 <> INT64_MIN /\ (32 | 64)).
Proof.
  apply (proj1 (proj2 (dim_DivisibleBy_fn_spec SimpleReduction.ir INT64_MIN (-1) 32
                         SimpleReduction.reductionOp emptyStore)) 64).
  - reflexivity.
  - reflexivity.
  - reflexivity.
Defined.

(** X14.  The capture of a dimension size.  An index at or above the rank
    once normalized is a non-match and writes nothing.  For an index in range
    the predicate returns true and the cell holds the loop range of that
    dimension as it is (the marker of dynamic sizes for a dynamic dimension);
    no other cell and no matcher slot changes. *)
Theorem dim_CaptureStaticValue_fn_spec ir dimension capture linalgOp s :
  let t := normalized (getNumLoops ir linalgOp) dimension in
  (getNumLoops ir linalgOp <= t ->
   dim_CaptureStaticValue_fn ir dimension capture linalgOp s = Ok false s) /\
  (forall size,
     t < getNumLoops ir linalgOp ->
     at_index (getStaticLoopRanges ir linalgOp) t = Some size ->
     exists s',
       dim_CaptureStaticValue_fn ir dimension capture linalgOp s = Ok true s' /\
       readCell capture s' = Some size /\
       (forall c, c <> capture -> readCell c s' = readCell c s) /\
       (forall m, getCaptured m s' = getCaptured m s)).
Proof.
  cbv zeta. unfold dim_CaptureStaticValue_fn.
  fold (normalized (getNumLoops ir linalgOp) dimension).
  set (t := normalized (getNumLoops ir linalgOp) dimension).
  split.
  - intros Hhigh. destruct (Z.leb_spec (getNumLoops ir linalgOp) t); [reflexivity|lia].
  - intros size Hlow Hat.
    destruct (Z.leb_spec (getNumLoops ir linalgOp) t); [lia|].
    unfold bind. rewrite (index_Some _ _ _ _ Hat).
    exists (writeCell capture size s). split; [reflexivity|].
    split; [apply readCell_writeCell_eq|]. split; [|reflexivity].
    intros c Hc. apply readCell_writeCell_ne. congruence.
Qed.

Lemma dim_CaptureStaticValue_fn_spec_witness :
  exists s',
    dim_CaptureStaticValue_fn SimpleReduction.ir (-2) "cell" SimpleReduction.reductionOp
      emptyStore = Ok true s' /\
    readCell "cell" s' = Some 128 /\
    (forall c, c <> "cell" -> readCell c s' = readCell c emptyStore) /\
    (forall m, getCaptured m s' = getCaptured m emptyStore).
Proof.
  apply (proj2 (dim_CaptureStaticValue_fn_spec SimpleReduction.ir (-2) "cell"
                  SimpleReduction.reductionOp emptyStore) 128).
  - reflexivity.
  - reflexivity.
Defined.

(** ** Payload groups *)

Lemma sumZ_app l1 l2 : sumZ (l1 ++ l2) = sumZ l1 + sumZ l2.
Proof. unfold sumZ. induction l1 as [|x l1 IH]; cbn; [reflexivity|]. rewrite IH. lia. Qed.

Lemma sumZ_nonneg l : Forall (fun len => 0 <= len) l -> 0 <= sumZ l.
Proof. unfold sumZ. induction 1 as [|x l Hx _ IH]; cbn; lia. Qed.

Lemma sumGroupLengths_sum lengths :
  Forall (fun len => 0 <= len) lengths ->
  forall start, 0 <= start -> start + sumZ lengths <= INT64_MAX ->
  sumGroupLengths lengths start = Some (start + sumZ lengths).
Proof.
  induction 1 as [|len rest Hlen Hrest IH]; intros start Hstart Hmax.
  - cbn. f_equal. unfold sumZ. cbn. lia.
  - pose proof (sumZ_nonneg _ Hrest) as Hnn.
    change (sumZ (len :: rest)) with (len + sumZ rest) in *.
    cbn [sumGroupLengths].
    assert (Hin : (INT64_MIN <=? start + len) && (start + len <=? INT64_MAX) = true).
    { apply andb_true_intro. unfold INT64_MIN in *.
      split; [apply Z.leb_le|apply Z.leb_le]; lia. }
    rewrite Hin, IH by lia. f_equal. lia.
Qed.

Lemma sumZ_take_lookup lengths position len :
  Forall (fun len => 0 <= len) lengths ->
  lengths !! position = Some len ->
  0 <= sumZ (take position lengths) /\
  sumZ (take position lengths) + len <= sumZ lengths.
Proof.
  intros Hnn Hl. rewrite <- (take_drop_middle _ _ _ Hl) at 3.
  rewrite sumZ_app. change (sumZ (len :: drop (S position) lengths))
    with (len + sumZ (drop (S position) lengths)).
  pose proof (sumZ_nonneg _ (Forall_take _ position _ Hnn)).
  pose proof (sumZ_nonneg _ (Forall_drop _ (S position) _ Hnn)). lia.
Qed.

Lemma getPayloadGroup_slice r position len :
  Forall (fun len => 0 <= len) (payloadGroupLengths r) ->
  sumZ (payloadGroupLengths r) = Z.of_nat (length (payloadOperations r)) ->
  Z.of_nat (length (payloadOperations r)) <= INT64_MAX ->
  payloadGroupLengths r !! position = Some len ->
  getPayloadGroup r position
  = Some (take (Z.to_nat len)
            (drop (Z.to_nat (sumZ (take position (payloadGroupLengths r))))
                  (payloadOperations r))).
Proof.
  intros Hnn Hsum Hmax Hl. unfold getPayloadGroup. rewrite Hl.
  destruct (sumZ_take_lookup _ _ _ Hnn Hl) as [H0 Hle].
  assert (0 <= len) by (eapply Forall_lookup_1 in Hnn; [exact Hnn|exact Hl]).
  rewrite sumGroupLengths_sum by (try apply Forall_take; try assumption; lia).
  rewrite Z.add_0_l. unfold slice.
  destruct (Z.leb_spec 0 (sumZ (take position (payloadGroupLengths r)))); [|lia].
  destruct (Z.leb_spec 0 len); [|lia].
  destruct (Z.leb_spec (sumZ (take position (payloadGroupLengths r)) + len)
              (Z.of_nat (length (payloadOperations r)))); [|lia].
  reflexivity.
Qed.

Lemma concat_groupsFrom {A} (operations : list A) lengths :
  Forall (fun len => 0 <= len) lengths ->
  forall start,
    concat (groupsFrom start lengths operations)
    = take (Z.to_nat (sumZ lengths)) (drop start operations).
Proof.
  induction 1 as [|len rest Hlen Hrest IH]; intros start; [reflexivity|].
  cbn [groupsFrom concat]. rewrite IH.
  change (sumZ (len :: rest)) with (len + sumZ rest).
  pose proof (sumZ_nonneg _ Hrest).
  rewrite Z2Nat.inj_add by lia. rewrite <- drop_drop. apply take_take_drop.
Qed.

Lemma groupsFrom_lookup {A} (operations : list A) lengths :
  Forall (fun len => 0 <= len) lengths ->
  forall start position g,
    groupsFrom start lengths operations !! position = Some g ->
    exists len, lengths !! position = Some len /\
      g = take (Z.to_nat len)
            (drop (start + Z.to_nat (sumZ (take position lengths))) operations).
Proof.
  induction 1 as [|len rest Hlen Hrest IH]; intros start position g Hg; [discriminate|].
  destruct position as [|position].
  - cbn in Hg. injection Hg as <-. exists len. split; [reflexivity|].
    cbn. rewrite Nat.add_0_r. reflexivity.
  - cbn [groupsFrom] in Hg. cbn [lookup list_lookup] in Hg.
    destruct (IH _ _ _ Hg) as (len' & Hl & ->). exists len'. split; [exact Hl|].
    cbn [take]. change (sumZ (len :: take position rest))
      with (len + sumZ (take position rest)).
    pose proof (sumZ_nonneg _ (Forall_take _ position _ Hrest)).
    rewrite Z2Nat.inj_add by lia. rewrite Nat.add_assoc. reflexivity.
Qed.

Lemma length_groupsFrom {A} (operations : list A) lengths start :
  length (groupsFrom start lengths operations) = length lengths.
Proof.
  revert start. induction lengths as [|len rest IH]; intros start; [reflexivity|].
  cbn. rewrite IH. reflexivity.
Qed.

(** X15.  Payload groups.  A position at or above the number of groups fails
    the assertion.  When the group lengths are non-negative and add up to the
    number of payload operations, every group position gives a group of the
    recorded length, and the groups, taken in order, are consecutive pieces
    of the payload: their concatenation is the whole payload. *)
Theorem getPayloadGroup_partition r :
  (forall position, (length (payloadGroupLengths r) <= position)%nat ->
                    getPayloadGroup r position = None) /\
  (Forall (fun len => 0 <= len) (payloadGroupLengths r) ->
   sumZ (payloadGroupLengths r) = Z.of_nat (length (payloadOperations r)) ->
   Z.of_nat (length (payloadOperations r)) <= INT64_MAX ->
   (forall position len,
      payloadGroupLengths r !! position = Some len ->
      exists group, getPayloadGroup r position = Some group /\
                    Z.of_nat (length group) = len) /\
   exists groups,
     length groups = length (payloadGroupLengths r) /\
     (forall position group,
        groups !! position = Some group -> getPayloadGroup r position = Some group) /\
     concat groups = payloadOperations r).
Proof.
  split.
  - intros position Hp. unfold getPayloadGroup.
    rewrite (proj2 (lookup_ge_None _ _) Hp). reflexivity.
  - intros Hnn Hsum Hmax. split.
    + intros position len Hl. eexists. split.
      * apply getPayloadGroup_slice; eassumption.
      * destruct (sumZ_take_lookup _ _ _ Hnn Hl) as [H0 Hle].
        assert (0 <= len) by (eapply Forall_lookup_1 in Hnn; [exact Hnn|exact Hl]).
        rewrite length_take, length_drop. lia.
    + exists (groupsFrom 0 (payloadGroupLengths r) (payloadOperations r)).
      split; [apply length_groupsFrom|]. split.
      * intros position group Hg.
        destruct (groupsFrom_lookup _ _ Hnn _ _ _ Hg) as (len & Hl & ->).
        rewrite Nat.add_0_l. apply getPayloadGroup_slice; assumption.
      * rewrite concat_groupsFrom by exact Hnn. rewrite Hsum, Nat2Z.id, drop_0.
        apply firstn_all.
Qed.

(** Groups of lengths 2, 0 and 3 over five nodes. *)
Lemma getPayloadGroup_partition_witness :
  let r := mkMatchCallbackResult [10; 11; 12; 13; 14]%nat [2; 0; 3] in
  (forall position len,
     payloadGroupLengths r !! position = Some len ->
     exists group, getPayloadGroup r position = Some group /\
                   Z.of_nat (length group) = len) /\
  exists groups,
    length groups = length (payloadGroupLengths r) /\
    (forall position group,
       groups !! position = Some group -> getPayloadGroup r position = Some group) /\
    concat groups = payloadOperations r.
Proof.
  cbv zeta.
  apply (proj2 (getPayloadGroup_partition
                  (mkMatchCallbackResult [10; 11; 12; 13; 14]%nat [2; 0; 3]))).
  - repeat constructor; discriminate.
  - reflexivity.
  - vm_compute. discriminate.
Defined.

(** ** Further properties of the reduction pattern *)

Lemma PassesAll_cons_inv linalgOp fn rest s s2 :
  PassesAll linalgOp (fn :: rest) s s2 ->
  exists s1, fn linalgOp s = Ok true s1 /\ PassesAll linalgOp rest s1 s2.
Proof. inversion 1; subst. eexists. split; eassumption. Qed.

Lemma PassesAll_nil_inv linalgOp s s2 : PassesAll linalgOp [] s s2 -> s2 = s.
Proof. inversion 1; subst. reflexivity. Qed.

Lemma PassesAll_app_inv linalgOp before rest :
  forall s s2,
    PassesAll linalgOp (before ++ rest) s s2 ->
    exists s1, PassesAll linalgOp before s s1 /\ PassesAll linalgOp rest s1 s2.
Proof.
  induction before as [|fn before IH]; intros s s2 H.
  - exists s. split; [constructor|exact H].
  - cbn [app] in H. apply PassesAll_cons_inv in H as (s0 & Hfn & Hrest).
    destruct (IH _ _ Hrest) as (s1 & Hb & Hr). exists s1. split; [|exact Hr].
    econstructor; eassumption.
Qed.

Lemma rank_CaptureStaticValue_fn_inv ir capture linalgOp s s1 :
  rank_CaptureStaticValue_fn ir capture linalgOp s = Ok true s1 ->
  s1 = writeCell capture (getNumLoops ir linalgOp) s.
Proof. intros H. injection H as <-. reflexivity. Qed.

(** The predicates of the leading matcher, in registration order. *)
Lemma makeReductionMatcher_leading_predicates ir reductionId fillId leadingId trailingId :
  predicates (m_leading (makeReductionMatcher ir reductionId fillId leadingId trailingId)) =
  [ isa_fn ir LinalgGenericOp;
    dim_AllDimsExcept_IteratorType_fn ir [] parallel;
    input_AllOperands_IsProjectedPermutation_fn ir;
    output_AllOperands_IsPermutation_fn ir;
    output_NumEqualsTo_fn ir 1;
    rank_CaptureStaticValue_fn ir maybeLeadingRank ].
Proof. reflexivity. Qed.

(** X16.  The trailing matcher of the reduction pattern is built on the
    object that already received the predicates of the leading matcher, the
    capture of [maybeLeadingRank] included: its predicates are those of the
    leading matcher followed by the capture of [maybeTrailingRank].  So a
    successful match of the trailing matcher leaves the rank of the trailing
    op in both cells. *)
Theorem makeReductionMatcher_trailing_captures
    ir reductionId fillId leadingId trailingId op s s' :
  let ms := makeReductionMatcher ir reductionId fillId leadingId trailingId in
  predicates (m_trailing ms)
    = predicates (m_leading ms) ++ [rank_CaptureStaticValue_fn ir maybeTrailingRank] /\
  (match_ ir (m_trailing ms) op s = Ok true s' ->
   readCell maybeLeadingRank s' = Some (getNumLoops ir op) /\
   readCell maybeTrailingRank s' = Some (getNumLoops ir op)).
Proof.
  cbv zeta.
  assert (Hpreds :
    predicates (m_trailing (makeReductionMatcher ir reductionId fillId leadingId trailingId))
    = predicates (m_leading (makeReductionMatcher ir reductionId fillId leadingId trailingId))
      ++ [rank_CaptureStaticValue_fn ir maybeTrailingRank]) by reflexivity.
  split; [exact Hpreds|].
  intros H. apply match_true_inv in H as (_ & s0 & Hpass & ->).
  rewrite Hpreds, makeReductionMatcher_leading_predicates in Hpass.
  apply (PassesAll_app_inv _ [_; _; _; _; _] [_; _]) in Hpass as (s1 & _ & Hpass).
  apply PassesAll_cons_inv in Hpass as (s2 & Hl & Hpass).
  apply PassesAll_cons_inv in Hpass as (s3 & Ht & Hpass).
  apply PassesAll_nil_inv in Hpass as ->.
  apply rank_CaptureStaticValue_fn_inv in Hl as ->.
  apply rank_CaptureStaticValue_fn_inv in Ht as ->.
  rewrite !readCell_setCaptured. split.
  - rewrite readCell_writeCell_ne by discriminate. apply readCell_writeCell_eq.
  - apply readCell_writeCell_eq.
Qed.

(** Op 5 of the output graph is a generic op with one parallel dimension,
    permutations on its operands and a single output: the trailing matcher
    matches it. *)
Lemma makeReductionMatcher_trailing_captures_witness :
  let ms := makeReductionMatcher Outputs.ir 0%nat 1%nat 2%nat 3%nat in
  let s' := setCaptured 3%nat Outputs.twoInputOp
              (writeCell maybeTrailingRank 1 (writeCell maybeLeadingRank 1 emptyStore)) in
  match_ Outputs.ir (m_trailing ms) Outputs.twoInputOp emptyStore = Ok true s' /\
  readCell maybeLeadingRank s' = Some (getNumLoops Outputs.ir Outputs.twoInputOp) /\
  readCell maybeTrailingRank s' = Some (getNumLoops Outputs.ir Outputs.twoInputOp).
Proof.
  cbv zeta. split; [vm_compute; reflexivity|].
  apply (proj2 (makeReductionMatcher_trailing_captures Outputs.ir 0%nat 1%nat 2%nat 3%nat
                  Outputs.twoInputOp emptyStore _)).
  vm_compute. reflexivity.
Defined.

(** In the simple-reduction scenario every predicate of the reduction
    matcher before the exhaustiveness check passes, whatever the slots
    hold. *)
Lemma simple_reduction_prefix_passes
    ir op fillOp parent reductionId fillId leadingId trailingId s :
  SimpleReductionScenario ir op fillOp parent ->
  let ms := makeReductionMatcher ir reductionId fillId leadingId trailingId in
  PassesAll op
    [ rank_NumGreaterEqualTo_fn ir 2;
      rank_NumLowerEqualTo_fn ir 4;
      rank_CaptureStaticValue_fn ir reductionRank;
      dim_IteratorType_fn ir [-1] reduction;
      dim_CaptureStaticValue_fn ir (-2) mostMinorParallelDimensionSize;
      dim_CaptureStaticValue_fn ir (-1) reductionDimensionSize;
      dim_AllDimsExcept_IteratorType_fn ir [-1] parallel;
      input_NumEqualsTo_fn ir 1;
      input_AllOperands_IsProjectedPermutation_fn ir;
      output_NumEqualsTo_fn ir 1;
      output_AllOperands_IsProjectedPermutation_fn ir;
      output_ElementTypeBitWidth_fn ir 0 32;
      output_SingleCombinerReduction_fn ir 0;
      output_NumEqualsTo_fn ir 1;
      addOutputMatcher_fn ir 0 (match_ ir (m_fill ms)) false;
      addInputMatcher_fn ir 0 (match_ ir (m_leading ms)) true;
      addResultMatcher_fn ir 0 (match_ ir (m_trailing ms)) true ]
    s
    (setCaptured fillId fillOp
       (writeCell reductionDimensionSize 64
          (writeCell mostMinorParallelDimensionSize 128
             (writeCell reductionRank 2 s)))).
Proof.
  intros [Hstruct Hiter Hranges (input & Hinputs & Hinmap & Hleading)
          (output & combiner & Houtputs & Houtmap & Hbits & Hcombiner & Hproducer)
          Hfillop Hresults Husers Hparent Htilable Hdistinct].
  cbv zeta.
  set (s1 := writeCell reductionRank 2 s).
  set (s2 := writeCell mostMinorParallelDimensionSize 128 s1).
  set (s3 := writeCell reductionDimensionSize 64 s2).
  set (s4 := setCaptured fillId fillOp s3).
  assert (Hloops : getNumLoops ir op = 2) by (unfold getNumLoops; rewrite Hiter; reflexivity).
  assert (Hnin : getNumDpsInputs ir op = 1)
    by (unfold getNumDpsInputs; rewrite Hinputs; reflexivity).
  assert (Hnout : getNumDpsInits ir op = 1)
    by (unfold getNumDpsInits; rewrite Houtputs; reflexivity).
  apply (PassesAll_cons _ _ _ s s).
  { unfold rank_NumGreaterEqualTo_fn. rewrite Hloops. reflexivity. }
  apply (PassesAll_cons _ _ _ s s).
  { unfold rank_NumLowerEqualTo_fn. rewrite Hloops. reflexivity. }
  apply (PassesAll_cons _ _ _ s s1).
  { unfold rank_CaptureStaticValue_fn. rewrite Hloops. reflexivity. }
  apply (PassesAll_cons _ _ _ s1 s1).
  { unfold dim_IteratorType_fn. rewrite Hloops. cbn [dim_IteratorType_loop].
    rewrite Hiter. reflexivity. }
  apply (PassesAll_cons _ _ _ s1 s2).
  { unfold dim_CaptureStaticValue_fn. rewrite Hloops, Hranges. reflexivity. }
  apply (PassesAll_cons _ _ _ s2 s3).
  { unfold dim_CaptureStaticValue_fn. rewrite Hloops, Hranges. reflexivity. }
  apply (PassesAll_cons _ _ _ s3 s3).
  { unfold dim_AllDimsExcept_IteratorType_fn. rewrite Hloops, Hiter.
    vm_compute. reflexivity. }
  apply (PassesAll_cons _ _ _ s3 s3).
  { unfold input_NumEqualsTo_fn. rewrite Hnin. reflexivity. }
  apply (PassesAll_cons _ _ _ s3 s3).
  { unfold input_AllOperands_IsProjectedPermutation_fn. rewrite Hinputs.
    cbn [forallb]. rewrite Hinmap. reflexivity. }
  apply (PassesAll_cons _ _ _ s3 s3).
  { unfold output_NumEqualsTo_fn. rewrite Hnout. reflexivity. }
  apply (PassesAll_cons _ _ _ s3 s3).
  { unfold output_AllOperands_IsProjectedPermutation_fn. rewrite Houtputs.
    cbn [forallb]. rewrite Houtmap. reflexivity. }
  apply (PassesAll_cons _ _ _ s3 s3).
  { unfold output_ElementTypeBitWidth_fn, getDpsInitOperand. rewrite Hnout, Houtputs.
    cbn [Z.leb Z.compare]. unfold bind.
    rewrite (index_Some [output] 0 output s3 eq_refl), Hbits. reflexivity. }
  apply (PassesAll_cons _ _ _ s3 s3).
  { unfold output_SingleCombinerReduction_fn. rewrite Hnout.
    cbn [Z.leb Z.ltb Z.compare]. rewrite Hcombiner. reflexivity. }
  apply (PassesAll_cons _ _ _ s3 s3).
  { unfold output_NumEqualsTo_fn. rewrite Hnout. reflexivity. }
  apply (PassesAll_cons _ _ _ s3 s4).
  { unfold addOutputMatcher_fn, getDpsInitOperand. rewrite Hnout, Houtputs.
    cbn [Z.leb Z.compare]. unfold bind at 1.
    rewrite (index_Some [output] 0 output s3 eq_refl), Hproducer.
    unfold bind, match_. rewrite Hfillop.
    cbn [isLinalgClass m_fill makeReductionMatcher m_StructuredOp_isa predicates
         all_of matcherId].
    unfold bind, isa_fn. rewrite Hfillop. reflexivity. }
  apply (PassesAll_cons _ _ _ s4 s4).
  { unfold addInputMatcher_fn, getDpsInputOperand. rewrite Hnin, Hinputs.
    cbn [Z.leb Z.compare]. unfold bind at 1.
    rewrite (index_Some [input] 0 input s4 eq_refl).
    destruct (getDefiningOp (get ir input)) as [producer|]; [|reflexivity].
    unfold bind. rewrite (match_not_linalg _ _ _ _ Hleading). reflexivity. }
  apply (PassesAll_cons _ _ _ s4 s4); [|constructor].
  unfold addResultMatcher_fn, getResult. rewrite Hresults.
  cbn [Z.leb Z.ltb Z.compare andb Z.to_nat]. unfold bind, ret.
  rewrite (any_of_not_linalg _ _ _ _ Husers). reflexivity.
Qed.

Lemma size_three (a b c : Operation) (X : gset Operation) :
  a <> b -> a <> c -> b <> c -> a ∈ X -> b ∈ X -> c ∈ X -> (3 <= size X)%nat.
Proof.
  intros Hab Hac Hbc Ha Hb Hc.
  assert (Hsub : ({[a]} ∪ ({[b]} ∪ {[c]}) : gset Operation) ⊆ X) by set_solver.
  apply subseteq_size in Hsub.
  rewrite size_union in Hsub by set_solver.
  rewrite size_union in Hsub by set_solver.
  rewrite !size_singleton in Hsub. lia.
Qed.

(** X17.  The reduction matcher reused on the simple-reduction scenario.
    Every predicate before the exhaustiveness check passes whatever the
    slots of the four matchers hold, and the three dimension captures and
    the fill op are recorded.  The match then returns true if the slots of
    the reduction, leading and trailing matchers are null or hold the op or
    the fill op (so matching the same op again succeeds), and false as soon
    as one of them holds another node, left there by an earlier match. *)
Theorem makeReductionMatcher_reused
    ir op fillOp parent reductionId fillId leadingId trailingId s :
  SimpleReductionScenario ir op fillOp parent ->
  fillId <> reductionId -> fillId <> leadingId -> fillId <> trailingId ->
  let reductionMatcher :=
    m_reduction (makeReductionMatcher ir reductionId fillId leadingId trailingId) in
  let s4 := setCaptured fillId fillOp
              (writeCell reductionDimensionSize 64
                 (writeCell mostMinorParallelDimensionSize 128
                    (writeCell reductionRank 2 s))) in
  let stale := holdsOtherNode reductionId s [op; fillOp] \/
               holdsOtherNode leadingId s [op; fillOp] \/
               holdsOtherNode trailingId s [op; fillOp] in
  (stale -> match_ ir reductionMatcher op s = Ok false s4) /\
  (~ stale -> match_ ir reductionMatcher op s = Ok true (setCaptured reductionId op s4)).
Proof.
  intros Hscenario Hfr Hfl Hft. cbv zeta.
  set (s4 := setCaptured fillId fillOp
               (writeCell reductionDimensionSize 64
                  (writeCell mostMinorParallelDimensionSize 128
                     (writeCell reductionRank 2 s)))).
  pose proof (simple_reduction_prefix_passes ir op fillOp parent
                reductionId fillId leadingId trailingId s Hscenario) as Hprefix.
  cbv zeta in Hprefix. fold s4 in Hprefix.
  destruct Hscenario as [Hstruct _ _ _ _ _ _ _ Hparent Htilable Hdistinct].
  assert (Hfill : getCaptured fillId s4 = Some fillOp)
    by apply getCaptured_setCaptured_eq.
  assert (Hother : forall m, fillId <> m -> getCaptured m s4 = getCaptured m s).
  { intros m Hm. unfold s4. rewrite getCaptured_setCaptured_ne by exact Hm. reflexivity. }
  assert (Hlast : allTilableOpsCaptured_fn ir [reductionId; fillId; leadingId; trailingId] op s4
                  = Ok (bool_decide (2%nat = size (capturedNodes op
                          [reductionId; fillId; leadingId; trailingId] s4))) s4).
  { unfold allTilableOpsCaptured_fn. rewrite Hparent, checkAllTilableMatched_Some, Htilable.
    reflexivity. }
  assert (Hfillin : fillOp ∈ capturedNodes op [reductionId; fillId; leadingId; trailingId] s4).
  { apply elem_of_capturedNodes. right. exists fillId.
    split; [apply list_elem_of_further, list_elem_of_here|exact Hfill]. }
  assert (Hopin : op ∈ capturedNodes op [reductionId; fillId; leadingId; trailingId] s4).
  { apply elem_of_capturedNodes. left. reflexivity. }
  unfold match_. rewrite Hstruct, makeReductionMatcher_predicates. unfold bind.
  match goal with
  | |- context [all_of ?l op s] =>
      match l with
      | context [allTilableOpsCaptured_fn] =>
          change l with
            (removelast l ++ [allTilableOpsCaptured_fn ir
                                [reductionId; fillId; leadingId; trailingId]])
      end
  end.
  cbn [removelast].
  rewrite (all_of_app_passes _ _ _ _ _ Hprefix).
  cbn [all_of]. unfold bind. rewrite Hlast.
  split.
  - intros Hstale.
    assert (Hx : exists m x, m ∈ [reductionId; fillId; leadingId; trailingId] /\
                             getCaptured m s4 = Some x /\ x <> op /\ x <> fillOp).
    { destruct Hstale as [(x & Hx & Hnot)|[(x & Hx & Hnot)|(x & Hx & Hnot)]];
        [exists reductionId, x|exists leadingId, x|exists trailingId, x];
        (split; [set_solver|]); (split; [rewrite Hother by assumption; exact Hx|]);
        set_solver. }
    destruct Hx as (m & x & Hm & Hx & Hxop & Hxfill).
    assert (Hxin : x ∈ capturedNodes op [reductionId; fillId; leadingId; trailingId] s4).
    { apply elem_of_capturedNodes. right. exists m. split; assumption. }
    pose proof (size_three op fillOp x _ (not_eq_sym Hdistinct) (not_eq_sym Hxop)
                  (not_eq_sym Hxfill) Hopin Hfillin Hxin) as Hsize.
    rewrite bool_decide_eq_false_2 by lia. reflexivity.
  - intros Hnot.
    assert (Hset : capturedNodes op [reductionId; fillId; leadingId; trailingId] s4
                   = {[op]} ∪ {[fillOp]}).
    { apply set_eq. intros o. rewrite elem_of_capturedNodes, elem_of_union, !elem_of_singleton.
      split.
      - intros [->|(m & Hm & Ho)]; [left; reflexivity|].
        destruct (decide (o = op)) as [|Hne1]; [left; assumption|].
        destruct (decide (o = fillOp)) as [|Hne2]; [right; assumption|].
        exfalso. apply Hnot.
        destruct (decide (m = fillId)) as [->|Hmf]; [rewrite Hfill in Ho; congruence|].
        rewrite Hother in Ho by congruence.
        assert (Hnotin : o ∉ [op; fillOp]) by set_solver.
        repeat (apply elem_of_cons in Hm as [->|Hm]);
          [left|congruence|right; left|right; right|inversion Hm];
          exists o; split; assumption.
      - intros [->| ->]; [left; reflexivity|].
        right. exists fillId.
        split; [apply list_elem_of_further, list_elem_of_here|exact Hfill]. }
    rewrite Hset, size_union by set_solver. rewrite !size_singleton.
    rewrite bool_decide_eq_true_2 by reflexivity. reflexivity.
Qed.

(** Frame lemmas: an observation of the store ([readCell c],
    [getCaptured m]) that the nested matcher or the predicates leave alone
    is left alone by the combinators. *)
Section Frames.

Context {A : Type} (obs : Store -> A).

Lemma all_of_frame linalgOp fns :
  (forall fn, fn ∈ fns ->
     forall op s b s', fn op s = Ok b s' -> obs s' = obs s) ->
  forall s b s', all_of fns linalgOp s = Ok b s' -> obs s' = obs s.
Proof.
  induction fns as [|fn rest IH]; intros Hall s b s' H.
  - injection H as _ <-. reflexivity.
  - cbn [all_of] in H. unfold bind in H.
    destruct (fn linalgOp s) as [r s1| |] eqn:Hfn; try discriminate.
    assert (Hs1 : obs s1 = obs s) by (eapply (Hall fn); [apply list_elem_of_here|exact Hfn]).
    destruct r.
    + rewrite <- Hs1. eapply IH; [|exact H].
      intros fn' Hin. apply Hall, list_elem_of_further, Hin.
    + injection H as _ <-. exact Hs1.
Qed.

Lemma match_frame ir m :
  (forall fn, fn ∈ predicates m ->
     forall op s b s', fn op s = Ok b s' -> obs s' = obs s) ->
  (forall op s, obs (setCaptured (matcherId m) op s) = obs s) ->
  forall op s b s', match_ ir m op s = Ok b s' -> obs s' = obs s.
Proof.
  intros Hpreds Hset op s b s' H. unfold match_ in H.
  destruct (isLinalgClass (opClass ir op)); [|injection H as _ <-; reflexivity].
  unfold bind in H.
  destruct (all_of (predicates m) op s) as [[|] s1| |] eqn:Hall; try discriminate.
  - injection H as _ <-. rewrite Hset. eapply all_of_frame; eassumption.
  - injection H as _ <-. eapply all_of_frame; eassumption.
Qed.

Lemma any_of_frame (matcher : Operation -> M bool) users :
  (forall op s b s', matcher op s = Ok b s' -> obs s' = obs s) ->
  forall s b s', any_of matcher users s = Ok b s' -> obs s' = obs s.
Proof.
  intros Hm. induction users as [|user rest IH]; intros s b s' H.
  - injection H as _ <-. reflexivity.
  - cbn [any_of] in H. unfold bind in H.
    destruct (matcher user s) as [r s1| |] eqn:Hu; try discriminate.
    pose proof (Hm _ _ _ _ Hu) as Hs1. destruct r.
    + injection H as _ <-. exact Hs1.
    + rewrite <- Hs1. apply (IH _ _ _ H).
Qed.

Lemma addInputMatcher_fn_frame ir position (matcher : Operation -> M bool) optional :
  (forall op s b s', matcher op s = Ok b s' -> obs s' = obs s) ->
  forall op s b s',
    addInputMatcher_fn ir position matcher optional op s = Ok b s' -> obs s' = obs s.
Proof.
  intros Hm op s b s' H. unfold addInputMatcher_fn in H.
  destruct (_ <=? _); [injection H as _ <-; reflexivity|].
  unfold bind at 1 in H.
  destruct (getDpsInputOperand ir op _ s) as [operand s0| |] eqn:Hop; try discriminate.
  assert (s0 = s) as ->.
  { unfold getDpsInputOperand, index in Hop. destruct (at_index _ _); [|discriminate].
    injection Hop as _ <-. reflexivity. }
  destruct (getDefiningOp (get ir operand)) as [d|]; [|injection H as _ <-; reflexivity].
  unfold bind in H. destruct (matcher d s) as [r s1| |] eqn:Hd; try discriminate.
  pose proof (Hm _ _ _ _ Hd). destruct r; injection H as _ <-; assumption.
Qed.

Lemma addResultMatcher_fn_frame ir position (matcher : Operation -> M bool) optional :
  (forall op s b s', matcher op s = Ok b s' -> obs s' = obs s) ->
  forall op s b s',
    addResultMatcher_fn ir position matcher optional op s = Ok b s' -> obs s' = obs s.
Proof.
  intros Hm op s b s' H. unfold addResultMatcher_fn in H.
  destruct (_ <=? _); [injection H as _ <-; reflexivity|].
  unfold bind at 1 in H.
  destruct (getResult ir op _ s) as [result s0| |] eqn:Hres; try discriminate.
  assert (s0 = s) as ->.
  { unfold getResult in Hres. destruct (_ && _); [|discriminate].
    injection Hres as _ <-. reflexivity. }
  unfold bind in H.
  destruct (any_of matcher (map getOwner (getUses ir result)) s) as [r s1| |] eqn:Hany;
    try discriminate.
  pose proof (any_of_frame _ _ Hm _ _ _ Hany). destruct r; injection H as _ <-; assumption.
Qed.

End Frames.

Lemma dim_CaptureStaticValue_fn_inv ir dimension capture linalgOp s s1 :
  dim_CaptureStaticValue_fn ir dimension capture linalgOp s = Ok true s1 ->
  exists size,
    at_index (getStaticLoopRanges ir linalgOp)
             (normalized (getNumLoops ir linalgOp) dimension) = Some size /\
    s1 = writeCell capture size s.
Proof.
  unfold dim_CaptureStaticValue_fn. fold (normalized (getNumLoops ir linalgOp) dimension).
  destruct (_ <=? _); [discriminate|]. unfold bind, index.
  destruct (at_index _ _) as [size|] eqn:Hat; [|discriminate].
  intros H. injection H as <-. exists size. split; reflexivity.
Qed.

Lemma addOutputMatcher_fn_mandatory_inv ir position (matcher : Operation -> M bool)
    linalgOp s s1 :
  addOutputMatcher_fn ir position matcher false linalgOp s = Ok true s1 ->
  exists operand definingOp,
    at_index (getDpsInitOperands ir linalgOp)
             (normalized (getNumDpsInits ir linalgOp) position) = Some operand /\
    getDefiningOp (get ir operand) = Some definingOp /\
    matcher definingOp s = Ok true s1.
Proof.
  unfold addOutputMatcher_fn. fold (normalized (getNumDpsInits ir linalgOp) position).
  destruct (_ <=? _); [discriminate|]. unfold bind at 1, getDpsInitOperand, index.
  destruct (at_index _ _) as [operand|] eqn:Hat; [|discriminate]. cbn [ret].
  destruct (getDefiningOp (get ir operand)) as [d|] eqn:Hdef; [|discriminate].
  unfold bind. destruct (matcher d s) as [[|] s0| |] eqn:Hd; try discriminate.
  intros H. injection H as <-. exists operand, d.
  split; [reflexivity|]. split; [exact Hdef|exact Hd].
Qed.

Lemma output_ElementTypeBitWidth_fn_inv ir position width linalgOp s s1 :
  output_ElementTypeBitWidth_fn ir position width linalgOp s = Ok true s1 ->
  exists operand,
    at_index (getDpsInitOperands ir linalgOp)
             (normalized (getNumDpsInits ir linalgOp) position) = Some operand /\
    getIntOrFloatBitWidth ir (get ir operand) = Some width /\ s1 = s.
Proof.
  unfold output_ElementTypeBitWidth_fn. fold (normalized (getNumDpsInits ir linalgOp) position).
  destruct (_ <=? _); [discriminate|]. unfold bind, getDpsInitOperand, index.
  destruct (at_index _ _) as [operand|] eqn:Hat; [|discriminate]. cbn [ret].
  destruct (getIntOrFloatBitWidth ir (get ir operand)) as [bits|] eqn:Hbits; [|discriminate].
  intros H. injection H as Hb <-. apply Z.eqb_eq in Hb as ->.
  exists operand. split; [reflexivity|]. split; [exact Hbits|reflexivity].
Qed.

Lemma output_SingleCombinerReduction_fn_inv ir position linalgOp s s1 :
  output_SingleCombinerReduction_fn ir position linalgOp s = Ok true s1 ->
  exists combiner,
    matchReduction ir linalgOp (normalized (getNumDpsInits ir linalgOp) position)
    = Some [combiner] /\ s1 = s.
Proof.
  unfold output_SingleCombinerReduction_fn.
  fold (normalized (getNumDpsInits ir linalgOp) position).
  destruct (_ <=? _); [discriminate|]. destruct (_ <? _); [discriminate|].
  destruct (matchReduction ir linalgOp _) as [[|combiner [|]]|] eqn:Hm; try discriminate.
  intros H. injection H as <-. exists combiner. split; reflexivity.
Qed.

(** The predicates of the leading and trailing matchers write the cells
    [maybeLeadingRank] and [maybeTrailingRank] only, and no matcher slot. *)
Lemma leading_trailing_predicates_frame {A} (obs : Store -> A)
    ir reductionId fillId leadingId trailingId :
  (forall v s, obs (writeCell maybeLeadingRank v s) = obs s) ->
  (forall v s, obs (writeCell maybeTrailingRank v s) = obs s) ->
  let ms := makeReductionMatcher ir reductionId fillId leadingId trailingId in
  forall fn, fn ∈ predicates (m_leading ms) \/ fn ∈ predicates (m_trailing ms) ->
    forall op s b s', fn op s = Ok b s' -> obs s' = obs s.
Proof.
  intros HL HT ms fn Hin op s b s' H.
  assert (Hcases : fn ∈ predicates (m_leading ms)
                        ++ [rank_CaptureStaticValue_fn ir maybeTrailingRank]).
  { destruct Hin as [Hin|Hin]; [apply elem_of_app; left; exact Hin|exact Hin]. }
  unfold ms in Hcases. rewrite makeReductionMatcher_leading_predicates in Hcases.
  cbn [app] in Hcases.
  repeat (apply elem_of_cons in Hcases as [->|Hcases]);
    try (injection H as _ <-; first [reflexivity | apply HL | apply HT]).
  inversion Hcases.
Qed.

(** X18.  What a successful match of the reduction matcher guarantees, for
    four distinct matcher objects: the op is a structured op of rank 2 to 4
    whose last dimension is a reduction and whose other dimensions are
    parallel; it has one input and one output, accessed through projected
    permutations; the output has a 32-bit element type, a single combiner and
    is produced by a fill op; the op has a result and lies in a function.
    Afterwards the cells hold the rank and the loop ranges of the last and
    the last but one dimension, and the slots of the reduction and fill
    matchers hold the op and the fill op. *)
Theorem makeReductionMatcher_sound ir reductionId fillId leadingId trailingId op s s' :
  fillId <> reductionId -> fillId <> leadingId -> fillId <> trailingId ->
  match_ ir (m_reduction (makeReductionMatcher ir reductionId fillId leadingId trailingId))
    op s = Ok true s' ->
  isLinalgClass (opClass ir op) = true /\
  2 <= getNumLoops ir op <= 4 /\
  at_index (getIteratorTypesArray ir op) (getNumLoops ir op - 1) = Some reduction /\
  (forall (i : nat) type,
     getIteratorTypesArray ir op !! i = Some type ->
     Z.of_nat i <> getNumLoops ir op - 1 -> type = parallel) /\
  getNumDpsInputs ir op = 1 /\
  forallb (isProjectedPermutation ir) (getDpsInputOperands ir op) = true /\
  getNumDpsInits ir op = 1 /\
  forallb (isProjectedPermutation ir) (getDpsInitOperands ir op) = true /\
  (exists output combiner fillOp,
     getDpsInitOperands ir op = [output] /\
     getIntOrFloatBitWidth ir (get ir output) = Some 32 /\
     matchReduction ir op 0 = Some [combiner] /\
     getDefiningOp (get ir output) = Some fillOp /\
     opClass ir fillOp = LinalgFillOp /\
     getCaptured fillId s' = Some fillOp) /\
  0 < getNumResults ir op /\
  (exists parent, getParentOfTypeFuncOp ir op = Some parent) /\
  readCell reductionRank s' = Some (getNumLoops ir op) /\
  (exists size,
     at_index (getStaticLoopRanges ir op) (getNumLoops ir op - 1) = Some size /\
     readCell reductionDimensionSize s' = Some size) /\
  (exists size,
     at_index (getStaticLoopRanges ir op) (getNumLoops ir op - 2) = Some size /\
     readCell mostMinorParallelDimensionSize s' = Some size) /\
  getCaptured reductionId s' = Some op.
Proof.
  intros Hfr Hfl Hft H.
  apply match_true_inv in H as (Hstruct & s18 & Hpass & ->).
  change (matcherId (m_reduction
            (makeReductionMatcher ir reductionId fillId leadingId trailingId)))
    with reductionId.
  rewrite makeReductionMatcher_predicates in Hpass.
  apply PassesAll_cons_inv in Hpass as (s1 & H1 & Hpass).
  apply PassesAll_cons_inv in Hpass as (s2 & H2 & Hpass).
  apply PassesAll_cons_inv in Hpass as (s3 & H3 & Hpass).
  apply PassesAll_cons_inv in Hpass as (s4 & H4 & Hpass).
  apply PassesAll_cons_inv in Hpass as (s5 & H5 & Hpass).
  apply PassesAll_cons_inv in Hpass as (s6 & H6 & Hpass).
  apply PassesAll_cons_inv in Hpass as (s7 & H7 & Hpass).
  apply PassesAll_cons_inv in Hpass as (s8 & H8 & Hpass).
  apply PassesAll_cons_inv in Hpass as (s9 & H9 & Hpass).
  apply PassesAll_cons_inv in Hpass as (s10 & H10 & Hpass).
  apply PassesAll_cons_inv in Hpass as (s11 & H11 & Hpass).
  apply PassesAll_cons_inv in Hpass as (s12 & H12 & Hpass).
  apply PassesAll_cons_inv in Hpass as (s13 & H13 & Hpass).
  apply PassesAll_cons_inv in Hpass as (s14 & H14 & Hpass).
  apply PassesAll_cons_inv in Hpass as (s15 & H15 & Hpass).
  apply PassesAll_cons_inv in Hpass as (s16 & H16 & Hpass).
  apply PassesAll_cons_inv in Hpass as (s17 & H17 & Hpass).
  apply PassesAll_cons_inv in Hpass as (s18' & H18 & Hpass).
  apply PassesAll_nil_inv in Hpass as ->.
  set (rank := getNumLoops ir op) in *.
  (* rank *)
  injection H1 as Hge <-. injection H2 as Hle <-.
  apply Z.leb_le in Hge, Hle. fold rank in Hge, Hle.
  apply rank_CaptureStaticValue_fn_inv in H3. fold rank in H3. subst s3.
  (* last dimension *)
  destruct (dim_IteratorType_fn_returns ir [-1] reduction op (writeCell reductionRank rank s))
    as (b4 & Hb4 & Hspec4).
  rewrite Hb4 in H4. injection H4 as -> <-.
  pose proof (proj1 Hspec4 eq_refl (-1) (list_elem_of_here _ _)) as Hlast.
  fold rank in Hlast. rewrite normalized_negative in Hlast by lia.
  replace (rank + -1) with (rank - 1) in Hlast by lia.
  apply dim_CaptureStaticValue_fn_inv in H5 as (size2 & Hsize2 & ->).
  apply dim_CaptureStaticValue_fn_inv in H6 as (size1 & Hsize1 & ->).
  fold rank in Hsize1, Hsize2.
  rewrite normalized_negative in Hsize1, Hsize2 by lia.
  replace (rank + -1) with (rank - 1) in Hsize1 by lia.
  replace (rank + -2) with (rank - 2) in Hsize2 by lia.
  set (s6 := writeCell reductionDimensionSize size1
               (writeCell mostMinorParallelDimensionSize size2
                  (writeCell reductionRank rank s))) in *.
  (* the other dimensions *)
  destruct (dim_AllDimsExcept_fn_true ir [-1] parallel op s6) as (b7 & Hb7 & Hspec7).
  rewrite Hb7 in H7. injection H7 as -> <-.
  pose proof (proj1 Hspec7 eq_refl) as Hothers. fold rank in Hothers.
  (* operands *)
  injection H8 as Hnin <-. apply Z.eqb_eq in Hnin.
  injection H9 as Hinmaps <-.
  injection H10 as Hnout <-. apply Z.eqb_eq in Hnout.
  injection H11 as Houtmaps <-.
  apply output_ElementTypeBitWidth_fn_inv in H12 as (output & Hout & Hbits & ->).
  apply output_SingleCombinerReduction_fn_inv in H13 as (combiner & Hcomb & ->).
  injection H14 as _ <-.
  rewrite Hnout, normalized_nonneg in Hout, Hcomb by lia.
  (* the fill op *)
  apply addOutputMatcher_fn_mandatory_inv in H15 as (output' & fillOp & Hout' & Hdef & Hfill).
  rewrite Hnout, normalized_nonneg, Hout in Hout' by lia. injection Hout' as <-.
  apply match_true_inv in Hfill as (_ & s0 & Hfillpass & ->).
  apply PassesAll_cons_inv in Hfillpass as (s0' & Hisa & Hfillpass).
  apply PassesAll_nil_inv in Hfillpass as ->.
  injection Hisa as Hclass <-. apply bool_decide_eq_true in Hclass.
  cbn [matcherId m_fill makeReductionMatcher m_StructuredOp_isa] in *.
  set (s15 := setCaptured fillId fillOp s6) in *.
  (* result and function *)
  assert (Hres : 0 < getNumResults ir op).
  { unfold addResultMatcher_fn in H17.
    fold (normalized (getNumResults ir op) 0) in H17.
    rewrite normalized_nonneg in H17 by lia. revert H17.
    destruct (Z.leb_spec (getNumResults ir op) 0); [discriminate|lia]. }
  assert (Hparent : exists parent, getParentOfTypeFuncOp ir op = Some parent).
  { unfold allTilableOpsCaptured_fn in H18.
    destruct (getParentOfTypeFuncOp ir op) as [parent|]; [eauto|discriminate]. }
  assert (s18' = s17) as ->.
  { unfold allTilableOpsCaptured_fn, checkAllTilableMatched in H18.
    destruct (getParentOfTypeFuncOp ir op); injection H18 as _ <-; reflexivity. }
  (* frames of the optional leading and trailing matches *)
  assert (Hframe : forall {A} (obs : Store -> A),
            (forall v s, obs (writeCell maybeLeadingRank v s) = obs s) ->
            (forall v s, obs (writeCell maybeTrailingRank v s) = obs s) ->
            (forall o s, obs (setCaptured leadingId o s) = obs s) ->
            (forall o s, obs (setCaptured trailingId o s) = obs s) ->
            obs s17 = obs s15).
  { intros A obs HL HT Hsl Hst.
    transitivity (obs s16).
    - eapply (addResultMatcher_fn_frame obs); [|exact H17].
      apply (match_frame obs); [|exact Hst].
      intros fn Hin. eapply (leading_trailing_predicates_frame obs); eauto.
    - eapply (addInputMatcher_fn_frame obs); [|exact H16].
      apply (match_frame obs); [|exact Hsl].
      intros fn Hin. eapply (leading_trailing_predicates_frame obs); eauto. }
  assert (Hcell : forall c, c <> maybeLeadingRank -> c <> maybeTrailingRank ->
                            readCell c (setCaptured reductionId op s17) = readCell c s6).
  { intros c HcL HcT. rewrite readCell_setCaptured.
    rewrite (Hframe _ (readCell c)); [reflexivity| | |reflexivity|reflexivity];
      intros v st; apply readCell_writeCell_ne; congruence. }
  assert (Hlen1 : getDpsInitOperands ir op = [output]).
  { unfold getNumDpsInits in Hnout. change 0 with (Z.of_nat 0) in Hout.
    rewrite at_index_of_nat in Hout.
    destruct (getDpsInitOperands ir op) as [|o [|o' l]]; cbn in Hnout, Hout; try lia.
    injection Hout as ->. reflexivity. }
  repeat split; try assumption; try lia.
  - intros i type Hi Hne. apply (Hothers i type Hi).
    intros dim Hdim. apply list_elem_of_singleton in Hdim as ->.
    rewrite normalized_negative by lia. lia.
  - exists output, combiner, fillOp. repeat split; try assumption.
    rewrite getCaptured_setCaptured_ne by congruence.
    rewrite (Hframe _ (getCaptured fillId));
      [apply getCaptured_setCaptured_eq|reflexivity|reflexivity| |];
      intros o st; apply getCaptured_setCaptured_ne; congruence.
  - rewrite Hcell by discriminate. unfold s6.
    rewrite !readCell_writeCell_ne by discriminate. apply readCell_writeCell_eq.
  - exists size1. split; [exact Hsize1|]. rewrite Hcell by discriminate.
    apply readCell_writeCell_eq.
  - exists size2. split; [exact Hsize2|]. rewrite Hcell by discriminate. unfold s6.
    rewrite readCell_writeCell_ne by discriminate. apply readCell_writeCell_eq.
  - apply getCaptured_setCaptured_eq.
Qed.

(** ** The split-reduction pattern *)

(** The predicates of the two reduction matchers, in registration order,
    and the matcher set of the exhaustiveness check. *)
Lemma makeSplitReductionMatcher_predicates ir kDynamic fuel
    parallelId combinerId parallelFillId originalFillId leadingId trailingId :
  let ms := makeSplitReductionMatcher ir kDynamic fuel parallelId combinerId
              parallelFillId originalFillId leadingId trailingId in
  predicates (m_parallel_reduction ms) =
    [ dim_AllDims_ShapeKind_fn ir kDynamic Static;
      dim_IteratorType_fn ir [-1] reduction;
      input_AllOperands_IsPermutation_fn ir;
      addInputMatcher_fn ir 0 (match_ ir (m_split_leading ms)) true;
      output_NumEqualsTo_fn ir 1;
      addOutputMatcher_fn ir 0 (match_ ir (m_parallel_fill ms)) false ] /\
  predicates (m_combiner_reduction ms) =
    [ dim_AllDims_ShapeKind_fn ir kDynamic Static;
      dim_IteratorType_fn ir [-1] reduction;
      input_AllOperands_IsPermutation_fn ir;
      input_SubsetOf_fn ir fuel 0 (m_parallel_reduction ms);
      output_NumEqualsTo_fn ir 1;
      output_SubsetOf_fn ir fuel 0 (m_original_fill ms);
      output_ElementTypeBitWidth_fn ir 0 32;
      output_SingleCombinerReduction_fn ir 0;
      result_HasAnyUse_SubsetOf_fn ir fuel 0 (m_split_trailing ms) true;
      allTilableOpsCaptured_fn ir
        [combinerId; parallelId; leadingId; parallelFillId; originalFillId; trailingId] ].
Proof. split; reflexivity. Qed.

Lemma makeSplitReductionMatcher_fills ir kDynamic fuel
    parallelId combinerId parallelFillId originalFillId leadingId trailingId :
  let ms := makeSplitReductionMatcher ir kDynamic fuel parallelId combinerId
              parallelFillId originalFillId leadingId trailingId in
  m_parallel_fill ms = mkMatcher parallelFillId [isa_fn ir LinalgFillOp] [] /\
  m_original_fill ms = mkMatcher originalFillId [isa_fn ir LinalgFillOp] [] /\
  matcherId (m_parallel_reduction ms) = parallelId /\
  matcherId (m_combiner_reduction ms) = combinerId.
Proof. repeat split; reflexivity. Qed.

Lemma match_isa_fill ir self op s :
  opClass ir op = LinalgFillOp ->
  match_ ir (mkMatcher self [isa_fn ir LinalgFillOp] []) op s
  = Ok true (setCaptured self op s).
Proof.
  intros Hclass. apply (match_success ir (mkMatcher self [isa_fn ir LinalgFillOp] []) op s s).
  - rewrite Hclass. reflexivity.
  - apply (PassesAll_cons _ _ _ s s); [|constructor].
    unfold isa_fn. rewrite Hclass. reflexivity.
Qed.

Lemma PassesAll_app linalgOp before rest s s1 s2 :
  PassesAll linalgOp before s s1 ->
  PassesAll linalgOp rest s1 s2 ->
  PassesAll linalgOp (before ++ rest) s s2.
Proof.
  induction 1 as [s|fn before s s0 s1 Hfn _ IH]; intros Hrest; [exact Hrest|].
  cbn [app]. econstructor; [exact Hfn|]. apply IH, Hrest.
Qed.

Lemma dim_AllDims_ShapeKind_static ir kDynamic op s :
  Forall (fun size => size <> kDynamic) (getStaticLoopRanges ir op) ->
  dim_AllDims_ShapeKind_fn ir kDynamic Static op s = Ok true s.
Proof.
  intros Hstatic. unfold dim_AllDims_ShapeKind_fn, ret. f_equal.
  apply forallb_forall. intros size Hin.
  apply list_elem_of_In in Hin. rewrite Forall_forall in Hstatic.
  specialize (Hstatic size Hin). unfold isDynamic.
  destruct (Z.eqb_spec size kDynamic); [contradiction|reflexivity].
Qed.

Lemma dim_last_reduction ir op s :
  last (getIteratorTypesArray ir op) = Some reduction ->
  dim_IteratorType_fn ir [-1] reduction op s = Ok true s.
Proof.
  intros Hlast.
  destruct (dim_IteratorType_fn_returns ir [-1] reduction op s) as (b & Hb & Hspec).
  rewrite Hb. f_equal. apply Hspec. intros d Hd.
  apply list_elem_of_singleton in Hd as ->.
  rewrite last_lookup in Hlast. unfold getNumLoops.
  destruct (getIteratorTypesArray ir op) as [|t l] eqn:Hl; [discriminate|].
  rewrite normalized_negative by lia. cbn [length] in *.
  replace (Z.of_nat (S (length l)) + -1) with (Z.of_nat (length l)) by lia.
  rewrite at_index_of_nat. exact Hlast.
Qed.

(** The first three predicates of either stage pass on a stage op. *)
Lemma split_stage_passes ir kDynamic op input output s :
  SplitReductionStage ir kDynamic op input output ->
  PassesAll op
    [ dim_AllDims_ShapeKind_fn ir kDynamic Static;
      dim_IteratorType_fn ir [-1] reduction;
      input_AllOperands_IsPermutation_fn ir ] s s.
Proof.
  intros [_ Hstatic Hlast _ Hperm _].
  apply (PassesAll_cons _ _ _ s s); [apply dim_AllDims_ShapeKind_static, Hstatic|].
  apply (PassesAll_cons _ _ _ s s); [apply dim_last_reduction, Hlast|].
  apply (PassesAll_cons _ _ _ s s); [|constructor].
  unfold input_AllOperands_IsPermutation_fn. rewrite Hperm. reflexivity.
Qed.

Lemma size_four (a b c d : Operation) :
  NoDup [a; b; c; d] -> size ({[a]} ∪ ({[b]} ∪ ({[c]} ∪ {[d]})) : gset Operation) = 4%nat.
Proof.
  intros Hnd. apply NoDup_cons in Hnd as [Ha Hnd]. apply NoDup_cons in Hnd as [Hb Hnd].
  apply NoDup_cons in Hnd as [Hc _].
  rewrite size_union by set_solver. rewrite size_union by set_solver.
  rewrite size_union by set_solver. rewrite !size_singleton. reflexivity.
Qed.

(** X19.  In the split-reduction scenario, on matchers as
    [makeSplitReductionMatcher] builds them (six distinct objects; null
    slots for the combiner, leading and trailing matchers), the combiner
    matcher returns true on the combiner op and records the four ops: the
    combiner, the parallel reduction and the two fill ops. *)
Theorem makeSplitReductionMatcher_split_reduction
    ir kDynamic fuel combinerOp parallelOp parallelFillOp originalFillOp user parent
    parallelId combinerId parallelFillId originalFillId leadingId trailingId s :
  SplitReductionScenario ir kDynamic fuel combinerOp parallelOp parallelFillOp
    originalFillOp user parent ->
  NoDup [parallelId; combinerId; parallelFillId; originalFillId; leadingId; trailingId] ->
  getCaptured combinerId s = None ->
  getCaptured leadingId s = None ->
  getCaptured trailingId s = None ->
  let ms := makeSplitReductionMatcher ir kDynamic fuel parallelId combinerId
              parallelFillId originalFillId leadingId trailingId in
  match_ ir (m_combiner_reduction ms) combinerOp s
  = Ok true
      (setCaptured combinerId combinerOp
         (setCaptured originalFillId originalFillOp
            (setCaptured parallelId parallelOp
               (setCaptured parallelFillId parallelFillOp s)))).
Proof.
  intros [(cin & cout & combiner & Hcstage & Hcin & Hcout & Hbits & Hcombiner)
          (pin & pout & Hpstage & Hleading & Hpfill)
          Hpfclass Hofclass Hresult [Huser Hnotlinalg] Hparent Htilable Hdistinct]
         Hids Hc Hl Ht.
  cbv zeta.
  destruct (makeSplitReductionMatcher_predicates ir kDynamic fuel parallelId combinerId
              parallelFillId originalFillId leadingId trailingId) as [Hppreds Hcpreds].
  destruct (makeSplitReductionMatcher_fills ir kDynamic fuel parallelId combinerId
              parallelFillId originalFillId leadingId trailingId)
    as (Hpfm & Hofm & Hpid & Hcid).
  cbv zeta in Hppreds, Hcpreds, Hpfm, Hofm, Hpid, Hcid.
  set (ms := makeSplitReductionMatcher ir kDynamic fuel parallelId combinerId
               parallelFillId originalFillId leadingId trailingId) in *.
  clearbody ms.
  set (s1 := setCaptured parallelFillId parallelFillOp s).
  set (s2 := setCaptured parallelId parallelOp s1).
  set (s3 := setCaptured originalFillId originalFillOp s2).
  (* the parallel reduction matcher on the parallel reduction *)
  assert (Hparallel : match_ ir (m_parallel_reduction ms) parallelOp s = Ok true s2).
  { unfold s2. rewrite <- Hpid.
    apply (match_success ir (m_parallel_reduction ms) parallelOp s s1);
      [apply Hpstage|].
    rewrite Hppreds.
    apply (PassesAll_app _ [_; _; _] [_; _; _] s s s1);
      [apply (split_stage_passes _ _ _ _ _ _ Hpstage)|].
    destruct Hpstage as [_ _ _ (pins & Hpins) _ Hpouts].
    apply (PassesAll_cons _ _ _ s s).
    { assert (Hnin : 0 < getNumDpsInputs ir parallelOp)
        by (unfold getNumDpsInputs; rewrite Hpins; cbn [length]; lia).
      unfold addInputMatcher_fn, getDpsInputOperand.
      cbn [Z.leb Z.compare]. rewrite (proj2 (Z.leb_gt _ _) Hnin), Hpins.
      unfold bind at 1. rewrite (index_Some (pin :: pins) 0 pin s eq_refl).
      destruct (getDefiningOp (get ir pin)) as [producer|]; [|reflexivity].
      unfold bind. rewrite (match_not_linalg _ _ _ _ Hleading). reflexivity. }
    apply (PassesAll_cons _ _ _ s s).
    { unfold output_NumEqualsTo_fn, getNumDpsInits. rewrite Hpouts. reflexivity. }
    apply (PassesAll_cons _ _ _ s s1); [|constructor].
    assert (Hnout : getNumDpsInits ir parallelOp = 1)
      by (unfold getNumDpsInits; rewrite Hpouts; reflexivity).
    unfold addOutputMatcher_fn, getDpsInitOperand. rewrite Hnout, Hpouts.
    cbn [Z.leb Z.compare]. unfold bind at 1.
    rewrite (index_Some [pout] 0 pout s eq_refl), Hpfill.
    unfold bind. rewrite Hpfm, (match_isa_fill _ _ _ _ Hpfclass). reflexivity. }
  (* the combiner matcher *)
  assert (Hne : parallelId <> combinerId /\ parallelId <> parallelFillId /\
                parallelId <> originalFillId /\ parallelId <> leadingId /\
                parallelId <> trailingId /\ combinerId <> parallelFillId /\
                combinerId <> originalFillId /\ parallelFillId <> originalFillId /\
                parallelFillId <> leadingId /\ parallelFillId <> trailingId /\
                originalFillId <> leadingId /\ originalFillId <> trailingId).
  { rewrite !NoDup_cons, !not_elem_of_cons in Hids. intuition. }
  destruct Hne as (N1 & N2 & N3 & N4 & N5 & N6 & N7 & N8 & N9 & N10 & N11 & N12).
  rewrite <- Hcid.
  apply (match_success ir (m_combiner_reduction ms) combinerOp s s3); [apply Hcstage|].
  rewrite Hcpreds.
  apply (PassesAll_app _ [_; _; _] [_; _; _; _; _; _; _] s s s3);
    [apply (split_stage_passes _ _ _ _ _ _ Hcstage)|].
  destruct Hcstage as [_ _ _ (cins & Hcins) _ Hcouts].
  assert (Hnout : getNumDpsInits ir combinerOp = 1)
    by (unfold getNumDpsInits; rewrite Hcouts; reflexivity).
  assert (Hnin : 0 < getNumDpsInputs ir combinerOp)
    by (unfold getNumDpsInputs; rewrite Hcins; cbn [length]; lia).
  apply (PassesAll_cons _ _ _ s s2).
  { unfold input_SubsetOf_fn, getDpsInputOperand.
    cbn [Z.leb Z.compare]. rewrite (proj2 (Z.leb_gt _ _) Hnin), Hcins.
    unfold bind at 1. rewrite (index_Some (cin :: cins) 0 cin s eq_refl).
    unfold bind at 1. rewrite Hcin. cbn [liftTraversal]. exact Hparallel. }
  apply (PassesAll_cons _ _ _ s2 s2).
  { unfold output_NumEqualsTo_fn, getNumDpsInits. rewrite Hcouts. reflexivity. }
  apply (PassesAll_cons _ _ _ s2 s3).
  { unfold output_SubsetOf_fn, getDpsInitOperand.
    cbn [Z.leb Z.compare]. rewrite (proj2 (Z.leb_gt _ _) Hnin), Hcouts.
    unfold bind at 1. rewrite (index_Some [cout] 0 cout s2 eq_refl).
    unfold bind at 1. rewrite Hcout. cbn [liftTraversal].
    rewrite Hofm. apply (match_isa_fill _ _ _ _ Hofclass). }
  apply (PassesAll_cons _ _ _ s3 s3).
  { unfold output_ElementTypeBitWidth_fn, getDpsInitOperand. rewrite Hnout, Hcouts.
    cbn [Z.leb Z.compare]. unfold bind.
    rewrite (index_Some [cout] 0 cout s3 eq_refl), Hbits. reflexivity. }
  apply (PassesAll_cons _ _ _ s3 s3).
  { unfold output_SingleCombinerReduction_fn. rewrite Hnout.
    cbn [Z.leb Z.ltb Z.compare]. rewrite Hcombiner. reflexivity. }
  apply (PassesAll_cons _ _ _ s3 s3).
  { unfold result_HasAnyUse_SubsetOf_fn.
    fold (normalized (getNumResults ir combinerOp) 0). rewrite normalized_nonneg by lia.
    rewrite (proj2 (Z.leb_gt _ _)) by lia.
    unfold bind at 1. rewrite getResult_in_range by lia.
    unfold bind at 1. change (Z.to_nat 0) with 0%nat. rewrite Huser. cbn [liftTraversal].
    unfold bind. rewrite (match_not_linalg _ _ _ _ Hnotlinalg). reflexivity. }
  apply (PassesAll_cons _ _ _ s3 s3); [|constructor].
  unfold allTilableOpsCaptured_fn. rewrite Hparent, checkAllTilableMatched_Some, Htilable.
  f_equal. apply bool_decide_eq_true.
  assert (Hfresh : forall m, m <> originalFillId -> m <> parallelId -> m <> parallelFillId ->
                             getCaptured m s3 = getCaptured m s).
  { intros m H1 H2 H3. unfold s3, s2, s1.
    rewrite !getCaptured_setCaptured_ne by congruence. reflexivity. }
  assert (Hsp : getCaptured parallelId s3 = Some parallelOp).
  { unfold s3. rewrite getCaptured_setCaptured_ne by congruence.
    apply getCaptured_setCaptured_eq. }
  assert (Hspf : getCaptured parallelFillId s3 = Some parallelFillOp).
  { unfold s3, s2. rewrite !getCaptured_setCaptured_ne by congruence.
    apply getCaptured_setCaptured_eq. }
  assert (Hsof : getCaptured originalFillId s3 = Some originalFillOp)
    by apply getCaptured_setCaptured_eq.
  unfold capturedNodes. simpl omap.
  rewrite Hsp, Hspf, Hsof, !Hfresh, Hc, Hl, Ht by congruence.
  rewrite !list_to_set_cons, list_to_set_nil, (right_id_L ∅ (∪)).
  symmetry. apply size_four, Hdistinct.
Qed.

(** ** Concrete instances *)

Lemma SimpleReduction_scenario :
  SimpleReductionScenario SimpleReduction.ir SimpleReduction.reductionOp
    SimpleReduction.fillOp SimpleReduction.func.
Proof.
  constructor.
  - reflexivity.
  - reflexivity.
  - reflexivity.
  - exists (mkOpOperand 4%nat 0%nat). repeat split; reflexivity.
  - exists (mkOpOperand 4%nat 1%nat), SimpleReduction.addf. repeat split; reflexivity.
  - reflexivity.
  - reflexivity.
  - repeat constructor.
  - reflexivity.
  - reflexivity.
  - discriminate.
Qed.

(** On fresh matchers the reduction matcher matches the simple reduction;
    with op 8, matched earlier elsewhere, left in the slot of the leading
    matcher, it does not. *)
Lemma makeReductionMatcher_reused_witness :
  let captures s :=
    setCaptured SimpleReduction.fillId SimpleReduction.fillOp
      (writeCell reductionDimensionSize 64
         (writeCell mostMinorParallelDimensionSize 128
            (writeCell reductionRank 2 s))) in
  let stale := setCaptured SimpleReduction.leadingId 8%nat emptyStore in
  match_ SimpleReduction.ir (m_reduction SimpleReduction.matchers)
    SimpleReduction.reductionOp emptyStore
  = Ok true (setCaptured SimpleReduction.reductionId SimpleReduction.reductionOp
               (captures emptyStore)) /\
  match_ SimpleReduction.ir (m_reduction SimpleReduction.matchers)
    SimpleReduction.reductionOp stale
  = Ok false (captures stale).
Proof.
  cbv zeta. split.
  - apply (proj2 (makeReductionMatcher_reused SimpleReduction.ir
                    SimpleReduction.reductionOp SimpleReduction.fillOp SimpleReduction.func
                    SimpleReduction.reductionId SimpleReduction.fillId
                    SimpleReduction.leadingId SimpleReduction.trailingId emptyStore
                    SimpleReduction_scenario
                    ltac:(discriminate) ltac:(discriminate) ltac:(discriminate))).
    intros [(x & Hx & _)|[(x & Hx & _)|(x & Hx & _)]]; vm_compute in Hx; discriminate.
  - apply (proj1 (makeReductionMatcher_reused SimpleReduction.ir
                    SimpleReduction.reductionOp SimpleReduction.fillOp SimpleReduction.func
                    SimpleReduction.reductionId SimpleReduction.fillId
                    SimpleReduction.leadingId SimpleReduction.trailingId
                    (setCaptured SimpleReduction.leadingId 8%nat emptyStore)
                    SimpleReduction_scenario
                    ltac:(discriminate) ltac:(discriminate) ltac:(discriminate))).
    right. left. exists 8%nat. split; [reflexivity|].
    rewrite !not_elem_of_cons. repeat split; try discriminate. apply not_elem_of_nil.
Defined.

(** The successful match of the simple reduction. *)
Lemma makeReductionMatcher_sound_witness :
  2 <= getNumLoops SimpleReduction.ir SimpleReduction.reductionOp <= 4 /\
  getNumDpsInputs SimpleReduction.ir SimpleReduction.reductionOp = 1.
Proof.
  destruct (makeReductionMatcher_sound SimpleReduction.ir
              SimpleReduction.reductionId SimpleReduction.fillId
              SimpleReduction.leadingId SimpleReduction.trailingId
              SimpleReduction.reductionOp emptyStore
              (setCaptured SimpleReduction.reductionId SimpleReduction.reductionOp
                 (setCaptured SimpleReduction.fillId SimpleReduction.fillOp
                    (writeCell reductionDimensionSize 64
                       (writeCell mostMinorParallelDimensionSize 128
                          (writeCell reductionRank 2 emptyStore)))))
              ltac:(discriminate) ltac:(discriminate) ltac:(discriminate)
              ltac:(vm_compute; reflexivity))
    as (_ & Hrank & _ & _ & Hin & _).
  split; [exact Hrank|exact Hin].
Defined.

Lemma SplitGraph_scenario :
  SplitReductionScenario SplitGraph.ir INT64_MIN 2 SplitGraph.combinerOp
    SplitGraph.parallelOp SplitGraph.parallelFillOp SplitGraph.originalFillOp
    SplitGraph.returnOp SplitGraph.func.
Proof.
  constructor.
  - exists (mkOpOperand 5%nat 0%nat), (mkOpOperand 5%nat 1%nat), SplitGraph.addf.
    split; [|repeat split; reflexivity].
    constructor; try reflexivity.
    + repeat constructor; discriminate.
    + exists []. reflexivity.
  - exists (mkOpOperand 2%nat 0%nat), (mkOpOperand 2%nat 1%nat).
    split; [|split; [exact I|reflexivity]].
    constructor; try reflexivity.
    + repeat constructor; discriminate.
    + exists []. reflexivity.
  - reflexivity.
  - reflexivity.
  - reflexivity.
  - split; reflexivity.
  - reflexivity.
  - reflexivity.
  - repeat constructor; rewrite ?not_elem_of_cons; repeat split;
      try discriminate; apply not_elem_of_nil.
Qed.

(** The split reduction with a slice between the two stages. *)
Lemma makeSplitReductionMatcher_split_reduction_witness :
  match_ SplitGraph.ir
    (m_combiner_reduction
       (makeSplitReductionMatcher SplitGraph.ir INT64_MIN 2 0%nat 1%nat 2%nat 3%nat 4%nat 5%nat))
    SplitGraph.combinerOp emptyStore
  = Ok true
      (setCaptured 1%nat SplitGraph.combinerOp
         (setCaptured 3%nat SplitGraph.originalFillOp
            (setCaptured 0%nat SplitGraph.parallelOp
               (setCaptured 2%nat SplitGraph.parallelFillOp emptyStore)))).
Proof.
  apply (makeSplitReductionMatcher_split_reduction SplitGraph.ir INT64_MIN 2
           SplitGraph.combinerOp SplitGraph.parallelOp SplitGraph.parallelFillOp
           SplitGraph.originalFillOp SplitGraph.returnOp SplitGraph.func
           0%nat 1%nat 2%nat 3%nat 4%nat 5%nat emptyStore SplitGraph_scenario).
  - repeat constructor; rewrite ?not_elem_of_cons; repeat split;
      try discriminate; apply not_elem_of_nil.
  - reflexivity.
  - reflexivity.
  - reflexivity.
Defined.

(** ** Subset predicates and operand predicates *)

(** X20.  On an input operand that is the result of an op other than an
    [extract_slice], "operand is a subset of" is the mandatory "operand is
    produced by" predicate with the same nested matcher: the traversal stops
    at the producer. *)
Theorem input_SubsetOf_direct_producer ir fuel position subset linalgOp s :
  (forall operand,
     at_index (getDpsInputOperands ir linalgOp)
              (normalized (getNumDpsInputs ir linalgOp) position) = Some operand ->
     exists producer n, get ir operand = OpResult producer n /\
                        opClass ir producer <> ExtractSliceOp) ->
  input_SubsetOf_fn ir (S fuel) position subset linalgOp s
  = addInputMatcher_fn ir position (match_ ir subset) false linalgOp s.
Proof.
  intros Hdirect. unfold input_SubsetOf_fn, addInputMatcher_fn.
  fold (normalized (getNumDpsInputs ir linalgOp) position).
  destruct (_ <=? _); [reflexivity|].
  unfold bind at 1 3, getDpsInputOperand, index.
  destruct (at_index _ _) as [operand|] eqn:Hat; [|reflexivity]. cbn [ret].
  destruct (Hdirect operand eq_refl) as (producer & n & Hget & Hclass).
  rewrite Hget. cbn [traverseSubsetsBackwards getDefiningOp].
  rewrite bool_decide_eq_false_2 by exact Hclass.
  unfold bind. cbn [liftTraversal].
  destruct (match_ ir subset producer s) as [[|] s'| |]; reflexivity.
Qed.

(** The input of the fill op of the simple reduction is the result of the
    constant op. *)
Lemma input_SubsetOf_direct_producer_witness :
  input_SubsetOf_fn SimpleReduction.ir 1 0 (m_fill SimpleReduction.matchers)
    SimpleReduction.fillOp emptyStore
  = addInputMatcher_fn SimpleReduction.ir 0
      (match_ SimpleReduction.ir (m_fill SimpleReduction.matchers)) false
      SimpleReduction.fillOp emptyStore.
Proof.
  apply (input_SubsetOf_direct_producer SimpleReduction.ir 0 0
           (m_fill SimpleReduction.matchers) SimpleReduction.fillOp emptyStore).
  intros operand H. injection H as <-.
  exists SimpleReduction.cst, 0%nat. split; [reflexivity|discriminate].
Defined.
